(** * alure: context, buffer registry, decoder selection and source pool

    A shallow embedding of [src/context.cpp] (class [ALContext] and the
    free functions around it) and of the [ALBuffer] constructor of
    [src/buffer.h], followed by the properties of the design document
    that can be stated over it.

    Conventions.
    - [ALuint], [ALenum], [uint64_t] and [size_t] values are integers in
      [Z]; where the C++ arithmetic can wrap, the reduction modulo the
      word size is written out.
    - A [std::vector] is a list; an iterator into it is its index.
    - A C++ exception is the [Throws] outcome; every [throw] in the file
      throws [std::runtime_error], so an exception is identified by its
      message ([Error]).
    - Calls that leave the process (OpenAL, the message handler, the
      worker thread) are recorded in a trace of [Event]s, in program
      order.
    - Loops whose exit depends on another thread or on user code take a
      [fuel] bound; [OutOfFuel] means the loop is still running. *)

From Equations Require Import Equations.
From Stdlib Require Import List Arith ZArith Lia String Ascii Bool Sorted.
From Stdlib Require OrderedTypeEx.
Import ListNotations.

Set Implicit Arguments.

(** ** Machine integers *)

Definition wrap32 (z : Z) : Z := (z mod 2 ^ 32)%Z.
Definition wrap64 (z : Z) : Z := (z mod 2 ^ 64)%Z.

(** [(ALint)x]: conversion of an unsigned 64-bit value to a signed 32-bit
    one (two's complement truncation). *)
Definition to_ALint (z : Z) : Z :=
  let u := wrap32 z in if (u <? 2 ^ 31)%Z then u else (u - 2 ^ 32)%Z.

(** ** Outcomes of a call *)

Inductive Error : Type :=
| FailedToRewind (name : string)      (* "Failed to rewind <name> for the next decoder factory" *)
| NoDecoderFor (name : string)        (* "No decoder for <name>" *)
| AlreadyRegistered (name : string)   (* "Decoder factory <name> already registered" *)
| FailedToOpen (name : string)        (* "Failed to open <name>" *)
| NoSamples                           (* "No samples for buffer" *)
| FormatNotSupported                  (* "Format not supported (...)" *)
| FailedToBufferData                  (* "Failed to buffer data" *)
| NoAvailableSources                  (* "No available sources" *)
| ContextInUse                        (* "Context is in use" *)
| ContextHasBuffers                   (* "Trying to destroy a context with buffers" *)
| ContextNotCurrent.                  (* CheckContext: "Called context is not current" *)

Inductive Outcome (A : Type) : Type :=
| Returns (a : A)
| Throws (e : Error)
| OutOfFuel.
Arguments Returns {A} a.
Arguments Throws {A} e.
Arguments OutOfFuel {A}.

(** The error kinds of the design document (section 7).

    Modelled from the spec: the code has one exception type only; the
    kind of a message is the one the design document gives it, and [None]
    where the document names no kind for it. *)
Inductive ErrorKind : Type :=
| InvalidOperation | ResourceExhausted | UnsupportedFormat | EmptyResource
| ResourceNotFound | IOError.

Definition error_kind (e : Error) : option ErrorKind :=
  match e with
  | FailedToRewind _ => Some IOError
  | NoDecoderFor _ => None
  | AlreadyRegistered _ => Some InvalidOperation
  | FailedToOpen _ => Some ResourceNotFound
  | NoSamples => Some EmptyResource
  | FormatNotSupported => Some UnsupportedFormat
  | FailedToBufferData => None
  | NoAvailableSources => Some ResourceExhausted
  | ContextInUse => Some InvalidOperation
  | ContextHasBuffers => Some InvalidOperation
  | ContextNotCurrent => Some InvalidOperation
  end.

(** ** [std::lower_bound] and [std::vector] positions *)

(** [count / 2] *)
Definition half (count : nat) : nat := Nat.div2 count.
Arguments half : simpl never.

Section Vectors.
Context {A : Type}.

(** The loop of [std::lower_bound(first, last, value, comp)] on a random
    access range: [comp x] stands for [comp(x, value)], [first] is the
    index of the left end and [count] the number of elements still to
    search. The range is halved at every turn; [count -= step + 1]
    reads [c - step] for [count = c + 1]. *)
Equations? lower_bound_loop (comp : A -> bool) (l : list A) (first count : nat) : nat
  by wf count lt :=
  lower_bound_loop comp l first 0 := first;
  lower_bound_loop comp l first (S c) with nth_error l (first + half (S c)) => {
    | Some x with comp x => {
        | true := lower_bound_loop comp l (S (first + half (S c)))
                                   (c - half (S c));
        | false := lower_bound_loop comp l first (half (S c)) };
    | None := first }.
Proof.
  - lia.
  - apply Nat.lt_div2. lia.
Qed.

Definition lower_bound (comp : A -> bool) (l : list A) : nat :=
  lower_bound_loop comp l 0 (List.length l).

(** Length of the longest prefix on which [comp] holds: the partition
    point that [std::lower_bound] is specified to return. *)
Fixpoint partition_point (comp : A -> bool) (l : list A) : nat :=
  match l with
  | [] => 0
  | x :: l' => if comp x then S (partition_point comp l') else 0
  end.

(** [v.insert(v.begin() + i, x)] and [v.erase(v.begin() + i)]. *)
Definition vec_insert (i : nat) (x : A) (l : list A) : list A :=
  firstn i l ++ x :: skipn i l.

Definition vec_erase (i : nat) (l : list A) : list A :=
  firstn i l ++ skipn (S i) l.
End Vectors.

(** ** Streams, decoders and decoder factories *)

(** What the code uses of a [std::istream]: the read position, whether the
    stream is in a good state, and whether [seekg] can succeed on it. *)
Record istream : Type := {
  is_data : string;
  is_pos : Z;
  is_good : bool;
  is_seekable : bool
}.

(** [file->clear()] *)
Definition istream_clear (f : istream) : istream :=
  {| is_data := is_data f; is_pos := is_pos f; is_good := true;
     is_seekable := is_seekable f |}.

(** [file->seekg(0)]: a stream that is not good, or that cannot seek, ends
    with its fail bit set and keeps its position. *)
Definition istream_seekg0 (f : istream) : istream :=
  if is_good f && is_seekable f
  then {| is_data := is_data f; is_pos := 0%Z; is_good := true;
          is_seekable := is_seekable f |}
  else {| is_data := is_data f; is_pos := is_pos f; is_good := false;
          is_seekable := is_seekable f |}.

(** [ChannelConfig], [SampleType] and [ALenum] are enumerations declared
    outside this file; they are kept as their integer values. *)
Definition ChannelConfig : Type := Z.
Definition SampleType : Type := Z.
Definition ALenum : Type := Z.
Definition ALuint : Type := Z.
Definition AL_NONE : ALenum := 0%Z.

(** The [Decoder] interface as [getBuffer] and [getBufferAsync] use it.
    [dec_getLength] is the result of [getLength()], a [uint64_t] like the
    loop points; [dec_read n] is the number of frames the first
    [read(dst, n)] call delivers. *)
Record Decoder : Type := {
  dec_frequency : ALuint;
  dec_channels : ChannelConfig;
  dec_sampleType : SampleType;
  dec_getLength : Z;
  dec_read : ALuint -> ALuint;
  dec_loopPoints : Z * Z
}.

(** [ALuint frames = decoder->getLength()]: the 64-bit length converted
    to the 32-bit [ALuint], which keeps its low 32 bits. *)
Definition dec_length (decoder : Decoder) : ALuint :=
  wrap32 (dec_getLength decoder).

(** [DecoderFactory::createDecoder(UniquePtr<std::istream> &file)]: the
    factory may consume the stream, move it away (leaving [file] null) and
    return a decoder or null. *)
Definition DecoderFactory : Type := istream -> option Decoder * option istream.

(** [FileIOFactory::openFile(name)]: a stream, or null. *)
Definition FileIOFactory : Type := string -> option istream.

(** What is compiled in or defined outside [context.cpp]:
    - [hasher]: [std::hash<String>], whose values the standard leaves to
      the implementation;
    - [GetFormat] and [FramesToBytes]: declared in [buffer.h], defined in
      [buffer.cpp];
    - the [HAVE_*] configuration macros and the built-in decoder factories
      of [decoders/*.hpp];
    - [addr]: the address of the [i]-th element of the
      [std::deque<ALSource>] that holds every source of a context. *)
Class Platform : Type := {
  hasher : string -> Z;
  GetFormat : ChannelConfig -> SampleType -> ALenum;
  FramesToBytes : ALuint -> ChannelConfig -> SampleType -> ALuint;
  HAVE_VORBISFILE : bool;
  HAVE_LIBFLAC : bool;
  HAVE_OPUSFILE : bool;
  HAVE_LIBSNDFILE : bool;
  HAVE_MPG123 : bool;
  WaveDecoderFactory : DecoderFactory;
  VorbisFileDecoderFactory : DecoderFactory;
  FlacDecoderFactory : DecoderFactory;
  OpusFileDecoderFactory : DecoderFactory;
  SndFileDecoderFactory : DecoderFactory;
  Mpg123DecoderFactory : DecoderFactory;
  addr : nat -> Z
}.

(** ** Objects of a context *)

Inductive BufferLoadStatus : Type := BufferLoad_Pending | BufferLoad_Ready.

Record ALBuffer : Type := {
  mId : ALuint;
  mFrequency : ALuint;
  mChannelConfig : ChannelConfig;
  mSampleType : SampleType;
  mLoadStatus : BufferLoadStatus;
  mIsLoaded : bool;
  mName : string
}.

(** The constructor of [buffer.h], with the name that [context.cpp] passes
    as a seventh argument. *)
Definition ALBuffer_new (id freq : ALuint) (config : ChannelConfig)
    (type : SampleType) (preloaded : bool) (name : string) : ALBuffer :=
  {| mId := id; mFrequency := freq; mChannelConfig := config;
     mSampleType := type;
     mLoadStatus := if preloaded then BufferLoad_Ready else BufferLoad_Pending;
     mIsLoaded := preloaded; mName := name |}.

Definition getName (b : ALBuffer) : string := mName b.


(** Modelled from the spec: [ALBuffer::getLoadStatus] is declared in
    [buffer.h] and defined in [buffer.cpp], which is not part of the
    sources. The load status goes from [Pending] to [Ready] and never
    back; [loaded] is the value of the [volatile bool mIsLoaded] member at
    the time of the call, which the worker thread sets when the load is
    done. The call returns the status and leaves it in the buffer. *)
Definition getLoadStatus (b : ALBuffer) (loaded : bool) : BufferLoadStatus * ALBuffer :=
  match mLoadStatus b with
  | BufferLoad_Ready => (BufferLoad_Ready, b)
  | BufferLoad_Pending =>
      if loaded
      then (BufferLoad_Ready,
            {| mId := mId b; mFrequency := mFrequency b;
               mChannelConfig := mChannelConfig b; mSampleType := mSampleType b;
               mLoadStatus := BufferLoad_Ready; mIsLoaded := true;
               mName := mName b |})
      else (BufferLoad_Pending, b)
  end.

(** [ALSource] as [getSourceId] reads it: [getId()] and [getPriority()]. *)
Record ALSource : Type := {
  src_id : ALuint;
  src_priority : ALuint
}.

(** A source constructed by [mAllSources.emplace_back(this)] holds no
    voice. *)
Definition ALSource_new : ALSource := {| src_id := 0%Z; src_priority := 0%Z |}.

(** [MessageHandler]: [resourceNotFound] is the one callback whose result
    the code uses; the calls of the others are recorded as events. *)
Record MessageHandler : Type := {
  resourceNotFound : string -> string
}.

(** The record that [getBufferAsync] constructs in the ring buffer. *)
Record PendingBuffer : Type := {
  pb_name : string;
  pb_buffer : ALuint;
  pb_decoder : Decoder;
  pb_format : ALenum;
  pb_frames : ALuint
}.

Inductive Event : Type :=
| EvCreateDecoder (factory : string) (pos : Z)
    (* factory->createDecoder(file), file at read position pos *)
| EvRewind                                  (* file->clear(), file->seekg(0) succeeded *)
| EvResourceNotFound (name : string)        (* mMessage->resourceNotFound(name) *)
| EvBufferLoading (name : string) (chans : ChannelConfig) (type : SampleType)
                  (srate : ALuint) (size : Z)
| EvSourceStopped (source : nat) (forced : bool)
| EvAlGenBuffers (bid : ALuint)
| EvAlBufferData (bid : ALuint) (format : ALenum) (size : Z) (srate : ALuint)
| EvAlBufferiv (bid : ALuint) (loop_start loop_end : Z)
| EvAlDeleteBuffers (bid : ALuint)
| EvAlGenSources
| EvCleanup (bid : ALuint)                  (* cleanup() of the buffer removed *)
| EvThreadStart                             (* mThread = std::thread(backgroundProc) *)
| EvEnqueue (pb : PendingBuffer)            (* placement new + write_advance(1) *)
| EvQuitThread                              (* mQuitThread.store(true) *)
| EvNotifyAll                               (* mWakeThread.notify_all() *)
| EvThreadJoin                              (* mThread.join() *)
| EvAlcDestroyContext
| EvRemoveContext                           (* mDevice->removeContext(this) *)
| EvYield.                                  (* std::this_thread::yield() *)

(** The members of [ALContext] that the modelled functions touch.
    [mSourceIds] is a [std::stack] (top first), [mFreeSources] a
    [std::queue] (front first), [mAllSources] the [std::deque] that owns
    the sources; a pointer to a source is its index in [mAllSources].
    [isCurrent] says whether [CheckContext(this)] passes. *)
Record ALContext : Type := {
  mContext : option Z;
  mRefs : Z;
  mBuffers : list ALBuffer;
  mMessage : option MessageHandler;
  SOFT_loop_points : bool;
  mSourceIds : list ALuint;
  mAllSources : list ALSource;
  mFreeSources : list nat;
  mUsedSources : list nat;
  mThread_joinable : bool;
  mQuitThread : bool;
  isCurrent : bool
}.

(** The statics of [context.cpp] and the files [std::ifstream] can open. *)
Record Globals : Type := {
  sDecoders : list (string * DecoderFactory);
  sFileFactory : option FileIOFactory;
  files : string -> option string
}.

(** What the rest of the process answers during one call: the OpenAL
    driver ([al_gen]: the name generated by [alGenBuffers] or
    [alGenSources], or none when it sets an error; whether [alBufferData]
    and [alBufferiv] succeed), and what the worker thread lets the caller
    see at the [k]-th read of [mIsLoaded] and of
    [mPendingBuffers.write_space()]. *)
Record Env : Type := {
  al_gen : option ALuint;
  al_data_ok : bool;
  al_loop_ok : bool;
  volatile_isLoaded : nat -> bool;
  write_space : nat -> Z
}.

(** ** A monad for state, exceptions and the trace *)

Definition M (A : Type) : Type := ALContext -> Outcome A * ALContext * list Event.

Definition ret {A} (a : A) : M A := fun c => (Returns a, c, []).

Definition bind {A B} (m : M A) (f : A -> M B) : M B :=
  fun c =>
    match m c with
    | (Returns a, c1, t1) => let '(r, c2, t2) := f a c1 in (r, c2, t1 ++ t2)
    | (Throws e, c1, t1) => (Throws e, c1, t1)
    | (OutOfFuel, c1, t1) => (OutOfFuel, c1, t1)
    end.

Definition throw {A} (e : Error) : M A := fun c => (Throws e, c, []).
Definition spin {A} : M A := fun c => (OutOfFuel, c, []).
Definition emit (ev : Event) : M unit := fun c => (Returns tt, c, [ev]).
Definition get : M ALContext := fun c => (Returns c, c, []).
Definition put (c : ALContext) : M unit := fun _ => (Returns tt, c, []).

(** [try { body } catch(...) { cleanup; throw; }] *)
Definition try_catch_rethrow {A} (body : M A) (cleanup : M unit) : M A :=
  fun c =>
    match body c with
    | (Throws e, c1, t1) => let '(_, c2, t2) := cleanup c1 in (Throws e, c2, t1 ++ t2)
    | other => other
    end.

Declare Scope alure_scope.
Delimit Scope alure_scope with alure.
Notation "x <- m ;; k" := (bind m (fun x => k))
  (at level 61, m at next level, right associativity) : alure_scope.
Notation "m ;; k" := (bind m (fun _ => k))
  (at level 61, right associativity) : alure_scope.
Local Open Scope alure_scope.

Definition when (b : bool) (m : M unit) : M unit := if b then m else ret tt.

(** Member updates. *)
Definition set_mBuffers (c : ALContext) (l : list ALBuffer) : ALContext :=
  {| mContext := mContext c; mRefs := mRefs c; mBuffers := l;
     mMessage := mMessage c; SOFT_loop_points := SOFT_loop_points c;
     mSourceIds := mSourceIds c; mAllSources := mAllSources c;
     mFreeSources := mFreeSources c; mUsedSources := mUsedSources c;
     mThread_joinable := mThread_joinable c; mQuitThread := mQuitThread c;
     isCurrent := isCurrent c |}.

Definition set_mSourceIds (c : ALContext) (l : list ALuint) : ALContext :=
  {| mContext := mContext c; mRefs := mRefs c; mBuffers := mBuffers c;
     mMessage := mMessage c; SOFT_loop_points := SOFT_loop_points c;
     mSourceIds := l; mAllSources := mAllSources c;
     mFreeSources := mFreeSources c; mUsedSources := mUsedSources c;
     mThread_joinable := mThread_joinable c; mQuitThread := mQuitThread c;
     isCurrent := isCurrent c |}.

Definition set_sources (c : ALContext) (all : list ALSource) (free used : list nat)
  : ALContext :=
  {| mContext := mContext c; mRefs := mRefs c; mBuffers := mBuffers c;
     mMessage := mMessage c; SOFT_loop_points := SOFT_loop_points c;
     mSourceIds := mSourceIds c; mAllSources := all;
     mFreeSources := free; mUsedSources := used;
     mThread_joinable := mThread_joinable c; mQuitThread := mQuitThread c;
     isCurrent := isCurrent c |}.

Definition set_thread (c : ALContext) (joinable quit : bool) : ALContext :=
  {| mContext := mContext c; mRefs := mRefs c; mBuffers := mBuffers c;
     mMessage := mMessage c; SOFT_loop_points := SOFT_loop_points c;
     mSourceIds := mSourceIds c; mAllSources := mAllSources c;
     mFreeSources := mFreeSources c; mUsedSources := mUsedSources c;
     mThread_joinable := joinable; mQuitThread := quit;
     isCurrent := isCurrent c |}.

Definition set_mContext (c : ALContext) (h : option Z) : ALContext :=
  {| mContext := h; mRefs := mRefs c; mBuffers := mBuffers c;
     mMessage := mMessage c; SOFT_loop_points := SOFT_loop_points c;
     mSourceIds := mSourceIds c; mAllSources := mAllSources c;
     mFreeSources := mFreeSources c; mUsedSources := mUsedSources c;
     mThread_joinable := mThread_joinable c; mQuitThread := mQuitThread c;
     isCurrent := isCurrent c |}.

(** [ptr.get() != nullptr] *)
Definition non_null {A} (o : option A) : bool :=
  match o with Some _ => true | None => false end.

(** A computation that does not touch the context. *)
Definition lift {A} (r : Outcome A * list Event) : M A :=
  fun c => (fst r, c, snd r).

(** [CheckContext(this)] *)
Definition CheckContext : M unit :=
  c <- get ;; if isCurrent c then ret tt else throw ContextNotCurrent.

(** ** [std::map<String, V>] as a list of entries in ascending key order *)

Section StdMap.
Context {V : Type}.

Fixpoint map_find (name : string) (m : list (string * V)) : option V :=
  match m with
  | [] => None
  | (k, v) :: m' => if String.eqb k name then Some v else map_find name m'
  end.

(** [insert] keeps an entry that is already there. *)
Fixpoint map_insert (name : string) (v : V) (m : list (string * V))
  : list (string * V) :=
  match m with
  | [] => [(name, v)]
  | (k, x) :: m' =>
      if String.ltb name k then (name, v) :: (k, x) :: m'
      else if String.eqb k name then (k, x) :: m'
      else (k, x) :: map_insert name v m'
  end.

Fixpoint map_erase (name : string) (m : list (string * V)) : list (string * V) :=
  match m with
  | [] => []
  | (k, x) :: m' => if String.eqb k name then m' else (k, x) :: map_erase name m'
  end.
End StdMap.

(** ** Decoder selection *)

Definition set_sDecoders (g : Globals) (m : list (string * DecoderFactory)) : Globals :=
  {| sDecoders := m; sFileFactory := sFileFactory g; files := files g |}.

(** [RegisterDecoder]: the [while] whose body throws is an [if]. *)
Definition RegisterDecoder (name : string) (factory : DecoderFactory) (g : Globals)
  : Outcome unit * Globals :=
  match map_find name (sDecoders g) with
  | Some _ => (Throws (AlreadyRegistered name), g)
  | None => (Returns tt, set_sDecoders g (map_insert name factory (sDecoders g)))
  end.

Definition UnregisterDecoder (name : string) (g : Globals)
  : option DecoderFactory * Globals :=
  match map_find name (sDecoders g) with
  | Some factory => (Some factory, set_sDecoders g (map_erase name (sDecoders g)))
  | None => (None, g)
  end.

(** The templated [GetDecoder(name, file, start, end)]. It returns a
    decoder, or null with the stream rewound, or throws "Failed to
    rewind". *)
Inductive RangeResult : Type :=
| Found (decoder : Decoder)
| NotFound (file : istream)
| RewindFailed.

Fixpoint GetDecoder_range (file : istream) (range : list (string * DecoderFactory))
  : RangeResult * list Event :=
  match range with
  | [] => (NotFound file, [])
  | (fname, factory) :: rest =>
      let ev := EvCreateDecoder fname (is_pos file) in
      match factory file with
      | (Some decoder, _) => (Found decoder, [ev])
      | (None, None) => (RewindFailed, [ev])
      | (None, Some file1) =>
          let file2 := istream_seekg0 (istream_clear file1) in
          if is_good file2
          then let '(r, t) := GetDecoder_range file2 rest in (r, ev :: EvRewind :: t)
          else (RewindFailed, [ev])
      end
  end.

Section Code.
Context {P : Platform}.

Definition sDefaultDecoders : list (string * DecoderFactory) :=
  [("_alure_int_wave"%string, WaveDecoderFactory)]
  ++ (if HAVE_VORBISFILE then [("_alure_int_vorbis"%string, VorbisFileDecoderFactory)] else [])
  ++ (if HAVE_LIBFLAC then [("_alure_int_flac"%string, FlacDecoderFactory)] else [])
  ++ (if HAVE_OPUSFILE then [("_alure_int_opus"%string, OpusFileDecoderFactory)] else [])
  ++ (if HAVE_LIBSNDFILE then [("_alure_int_sndfile"%string, SndFileDecoderFactory)] else [])
  ++ (if HAVE_MPG123 then [("_alure_int_mpg123"%string, Mpg123DecoderFactory)] else []).

(** [GetDecoder(name, file)] *)
Definition GetDecoder (g : Globals) (name : string) (file : istream)
  : Outcome Decoder * list Event :=
  match GetDecoder_range file (sDecoders g) with
  | (Found decoder, t) => (Returns decoder, t)
  | (RewindFailed, t) => (Throws (FailedToRewind name), t)
  | (NotFound file1, t1) =>
      match GetDecoder_range file1 sDefaultDecoders with
      | (Found decoder, t2) => (Returns decoder, t1 ++ t2)
      | (RewindFailed, t2) => (Throws (FailedToRewind name), t1 ++ t2)
      | (NotFound _, t2) => (Throws (NoDecoderFor name), t1 ++ t2)
      end
  end.

(** ** [FileIOFactory] *)

(** [DefaultFileIOFactory::openFile]: a binary [std::ifstream] on the
    named file, or null when it is not open. *)
Definition DefaultFileIOFactory_openFile (fs : string -> option string) : FileIOFactory :=
  fun name =>
    match fs name with
    | Some data => Some {| is_data := data; is_pos := 0%Z; is_good := true;
                           is_seekable := true |}
    | None => None
    end.

(** [FileIOFactory::set]: swap, and return what was installed. *)
Definition FileIOFactory_set (factory : option FileIOFactory) (g : Globals)
  : option FileIOFactory * Globals :=
  (sFileFactory g,
   {| sDecoders := sDecoders g; sFileFactory := factory; files := files g |}).

(** [FileIOFactory::get] *)
Definition FileIOFactory_get (g : Globals) : FileIOFactory :=
  match sFileFactory g with
  | Some factory => factory
  | None => DefaultFileIOFactory_openFile (files g)
  end.

(** ** [ALContext::createDecoder] *)

(** The [do ... while(!file)] loop that asks the handler for a
    substitute name. *)
Fixpoint find_substitute (fuel : nat) (g : Globals) (h : MessageHandler)
    (oldname : string) : M (string * istream) :=
  match fuel with
  | O => spin
  | S fuel' =>
      emit (EvResourceNotFound oldname) ;;
      let newname := resourceNotFound h oldname in
      if String.eqb newname EmptyString then throw (FailedToOpen oldname)
      else match FileIOFactory_get g newname with
           | Some file => ret (newname, file)
           | None => find_substitute fuel' g h newname
           end
  end.

Definition createDecoder (fuel : nat) (g : Globals) (name : string) : M Decoder :=
  match FileIOFactory_get g name with
  | Some file => lift (GetDecoder g name file)
  | None =>
      c <- get ;;
      match mMessage c with
      | None => throw (FailedToOpen name)
      | Some h =>
          found <- find_substitute fuel g h name ;;
          lift (GetDecoder g (fst found) (snd found))
      end
  end.
End Code.

(** ** The buffer registry: [getBuffer], [getBufferAsync], [removeBuffer] *)

(** The loop-point adjustment of [getBuffer]; the pair is a
    [std::pair<uint64_t,uint64_t>] and [frames] an [ALuint]. *)
Definition normalize_loop_points (loop_pts : Z * Z) (frames : ALuint) : Z * Z :=
  let (first, second) := loop_pts in
  if (first >=? second)%Z then (0%Z, frames)
  else
    let second' := Z.min second frames in
    let first' := Z.min first (wrap64 (second' - 1)) in
    (first', second').

Definition replace_at {A} (i : nat) (x : A) (l : list A) : list A :=
  firstn i l ++ x :: skipn (S i) l.

Section Registry.
Context {P : Platform}.

(** The comparison passed to [std::lower_bound]:
    [hasher(lhs->getName()) < rhs] with [rhs = hasher(name)]. *)
Definition hash_less (name : string) (lhs : ALBuffer) : bool :=
  (hasher (getName lhs) <? hasher name)%Z.

(** the test that [iter] is not [mBuffers.end()] and names [name], with the
    buffer at [iter] when it holds. *)
Definition buffer_at (l : list ALBuffer) (iter : nat) (name : string) : option ALBuffer :=
  match nth_error l iter with
  | Some b => if String.eqb (getName b) name then Some b else None
  | None => None
  end.

(** [while(buffer->getLoadStatus() == Pending) std::this_thread::yield()],
    from the [k]-th read of the loaded flag on. *)
Fixpoint wait_until_loaded (fuel : nat) (w : Env) (k : nat) (buffer : ALBuffer)
  : Outcome ALBuffer * list Event :=
  match fuel with
  | O => (OutOfFuel, [])
  | S fuel' =>
      match getLoadStatus buffer (volatile_isLoaded w k) with
      | (BufferLoad_Pending, buffer') =>
          let '(r, t) := wait_until_loaded fuel' w (S k) buffer' in
          (r, EvYield :: t)
      | (BufferLoad_Ready, buffer') => (Returns buffer', [])
      end
  end.

(** [while(mPendingBuffers.write_space() == 0) std::this_thread::yield()] *)
Fixpoint wait_write_space (fuel : nat) (w : Env) (k : nat) : M unit :=
  match fuel with
  | O => spin
  | S fuel' =>
      if (write_space w k =? 0)%Z
      then emit EvYield ;; wait_write_space fuel' w (S k)
      else ret tt
  end.

(** [getBuffer] returns a pointer to the registry entry. On the path that
    waits, the entry is the object whose status the loop has read, so the
    registry holds it with the status the last read left in it. *)
Definition getBuffer (fuel : nat) (g : Globals) (w : Env) (name : string) : M ALBuffer :=
  CheckContext ;;
  c <- get ;;
  let iter := lower_bound (hash_less name) (mBuffers c) in
  match buffer_at (mBuffers c) iter name with
  | Some buffer =>
      loaded <- lift (wait_until_loaded fuel w 0 buffer) ;;
      put (set_mBuffers c (replace_at iter loaded (mBuffers c))) ;;
      ret loaded
  | None =>
      decoder <- createDecoder fuel g name ;;
      let srate := dec_frequency decoder in
      let chans := dec_channels decoder in
      let type := dec_sampleType decoder in
      let frames := dec_read decoder (dec_length decoder) in
      if (frames =? 0)%Z then throw NoSamples else
      let size := FramesToBytes frames chans type in
      let loop_pts := normalize_loop_points (dec_loopPoints decoder) frames in
      let format := GetFormat chans type in
      if (format =? AL_NONE)%Z then throw FormatNotSupported else
      c1 <- get ;;
      when (non_null (mMessage c1))
           (emit (EvBufferLoading name chans type srate size)) ;;
      let bid := match al_gen w with Some id => id | None => 0%Z end in
      let al_error :=
        negb (non_null (al_gen w))
        || negb (al_data_ok w)
        || (SOFT_loop_points c1 && negb (al_loop_ok w)) in
      try_catch_rethrow
        (emit (EvAlGenBuffers bid) ;;
         emit (EvAlBufferData bid format size srate) ;;
         when (SOFT_loop_points c1)
              (emit (EvAlBufferiv bid (to_ALint (fst loop_pts))
                                      (to_ALint (snd loop_pts)))) ;;
         if al_error then throw FailedToBufferData else
         let buffer := ALBuffer_new bid srate chans type true name in
         put (set_mBuffers c1 (vec_insert iter buffer (mBuffers c1))) ;;
         ret buffer)
        (emit (EvAlDeleteBuffers bid))
  end.

Definition getBufferAsync (fuel : nat) (g : Globals) (w : Env) (name : string)
  : M ALBuffer :=
  CheckContext ;;
  c <- get ;;
  let iter := lower_bound (hash_less name) (mBuffers c) in
  match buffer_at (mBuffers c) iter name with
  | Some buffer => ret buffer
  | None =>
      decoder <- createDecoder fuel g name ;;
      let srate := dec_frequency decoder in
      let chans := dec_channels decoder in
      let type := dec_sampleType decoder in
      let frames := dec_length decoder in
      if (frames =? 0)%Z then throw NoSamples else
      let format := GetFormat chans type in
      if (format =? AL_NONE)%Z then throw FormatNotSupported else
      match al_gen w with
      | None => emit (EvAlGenBuffers 0%Z) ;; throw FailedToBufferData
      | Some bid =>
          emit (EvAlGenBuffers bid) ;;
          let buffer := ALBuffer_new bid srate chans type false name in
          c1 <- get ;;
          when (negb (mThread_joinable c1))
               (emit EvThreadStart ;; put (set_thread c1 true (mQuitThread c1))) ;;
          wait_write_space fuel w 0 ;;
          emit (EvEnqueue {| pb_name := name; pb_buffer := bid; pb_decoder := decoder;
                             pb_format := format; pb_frames := frames |}) ;;
          emit EvNotifyAll ;;
          c2 <- get ;;
          put (set_mBuffers c2 (vec_insert iter buffer (mBuffers c2))) ;;
          ret buffer
      end
  end.

Definition removeBuffer (name : string) : M unit :=
  CheckContext ;;
  c <- get ;;
  let iter := lower_bound (hash_less name) (mBuffers c) in
  match buffer_at (mBuffers c) iter name with
  | Some buffer =>
      emit (EvCleanup (mId buffer)) ;;
      put (set_mBuffers c (vec_erase iter (mBuffers c)))
  | None => ret tt
  end.

(** ** The source pool: [getSourceId], [createSource], [freeSource] *)

(** One turn of the scan for the lowest priority: [lowest] is the
    pointer found so far with its priority. *)
Definition lowest_step (all : list ALSource) (lowest : option (nat * ALuint)) (src : nat)
  : option (nat * ALuint) :=
  match nth_error all src with
  | Some s =>
      if negb (src_id s =? 0)%Z
         && match lowest with
            | None => true
            | Some (_, prio) => (src_priority s <? prio)%Z
            end
      then Some (src, src_priority s)
      else lowest
  | None => lowest
  end.

Definition find_lowest (c : ALContext) : option (nat * ALuint) :=
  fold_left (lowest_step (mAllSources c)) (mUsedSources c) None.

(** [id = mSourceIds.top(); mSourceIds.pop(); return id], after the
    check that throws on an empty stack. *)
Definition take_source_id : M ALuint :=
  c <- get ;;
  match mSourceIds c with
  | [] => throw NoAvailableSources
  | id :: rest => put (set_mSourceIds c rest) ;; ret id
  end.

Section SourceIds.
(** [ALSource::makeStopped] is defined in [source.cpp]. *)
Variable makeStopped : nat -> M unit.

Definition getSourceId (w : Env) (maxprio : ALuint) : M ALuint :=
  CheckContext ;;
  c <- get ;;
  match mSourceIds c with
  | [] =>
      emit EvAlGenSources ;;
      match al_gen w with
      | Some id => ret id
      | None =>
          match find_lowest c with
          | Some (lowest, prio) =>
              when (prio <? maxprio)%Z
                   (makeStopped lowest ;;
                    c1 <- get ;;
                    when (non_null (mMessage c1))
                         (emit (EvSourceStopped lowest true)))
          | None => ret tt
          end ;;
          take_source_id
      end
  | _ :: _ => take_source_id
  end.
End SourceIds.

(** Modelled from the spec: [ALSource::makeStopped] of [source.cpp],
    which is not part of the sources. A source that stops returns its
    voice to the stack of free voices of the context and holds none
    afterwards. *)
Definition makeStopped_model (source : nat) : M unit :=
  c <- get ;;
  match nth_error (mAllSources c) source with
  | Some s =>
      if (src_id s =? 0)%Z then ret tt
      else
        put (set_sources
               (set_mSourceIds c (src_id s :: mSourceIds c))
               (replace_at source
                  {| src_id := 0%Z; src_priority := src_priority s |}
                  (mAllSources c))
               (mFreeSources c) (mUsedSources c))
  | None => ret tt
  end.

(** The comparison of [std::lower_bound] on a vector of pointers. *)
Definition ptr_less (source : nat) (p : nat) : bool := (addr p <? addr source)%Z.

(** [iter != end && *iter == source] *)
Definition ptr_at (l : list nat) (iter : nat) (source : nat) : bool :=
  match nth_error l iter with
  | Some p => (addr p =? addr source)%Z
  | None => false
  end.

Definition createSource : M nat :=
  CheckContext ;;
  c <- get ;;
  source <- match mFreeSources c with
            | _ :: rest =>
                (* back() reads the newest entry, pop() drops the front *)
                put (set_sources c (mAllSources c) rest (mUsedSources c)) ;;
                ret (last (mFreeSources c) 0)
            | [] =>
                put (set_sources c (mAllSources c ++ [ALSource_new])
                                 (mFreeSources c) (mUsedSources c)) ;;
                ret (List.length (mAllSources c))
            end ;;
  c1 <- get ;;
  let iter := lower_bound (ptr_less source) (mUsedSources c1) in
  when (negb (ptr_at (mUsedSources c1) iter source))
       (put (set_sources c1 (mAllSources c1) (mFreeSources c1)
                         (vec_insert iter source (mUsedSources c1)))) ;;
  ret source.

Definition freeSource (source : nat) : M unit :=
  c <- get ;;
  let iter := lower_bound (ptr_less source) (mUsedSources c) in
  when (ptr_at (mUsedSources c) iter source)
       (put (set_sources c (mAllSources c) (mFreeSources c)
                         (vec_erase iter (mUsedSources c)))) ;;
  c1 <- get ;;
  put (set_sources c1 (mAllSources c1) (mFreeSources c1 ++ [source])
                   (mUsedSources c1)).

(** ** [ALContext::destroy] *)

Definition destroy : M unit :=
  c <- get ;;
  if negb (mRefs c =? 0)%Z then throw ContextInUse else
  if negb (match mBuffers c with [] => true | _ => false end)
  then throw ContextHasBuffers else
  when (mThread_joinable c)
       (emit EvQuitThread ;;
        put (set_thread c true true) ;;
        emit EvNotifyAll ;;
        emit EvThreadJoin ;;
        put (set_thread c false true)) ;;
  emit EvAlcDestroyContext ;;
  c1 <- get ;;
  put (set_mContext c1 None) ;;
  emit EvRemoveContext.
End Registry.

(** ** A concrete platform, for running the model

    [std::hash<String>] is the 64-bit FNV-1a hash here, which is what the
    Microsoft standard library computes for strings on 64-bit targets. The
    build has no optional decoder library, the wave factory accepts a
    stream that starts with "RIFF", every format has the OpenAL value
    [0x1101], frames are two bytes wide and sources are 64 bytes apart. *)

Definition FNV_offset_basis : Z := 14695981039346656037%Z.
Definition FNV_prime : Z := 1099511628211%Z.

Fixpoint fnv1a_from (h : Z) (s : string) : Z :=
  match s with
  | EmptyString => h
  | String ch s' =>
      fnv1a_from (wrap64 (Z.lxor h (Z.of_N (N_of_ascii ch)) * FNV_prime)) s'
  end.

Definition fnv1a_64 (s : string) : Z := fnv1a_from FNV_offset_basis s.

Definition example_decoder (frames : ALuint) (loop_pts : Z * Z) : Decoder :=
  {| dec_frequency := 44100%Z; dec_channels := 1%Z; dec_sampleType := 1%Z;
     dec_getLength := frames; dec_read := fun n => n; dec_loopPoints := loop_pts |}.

(** A factory that reads four bytes and accepts a stream whose data starts
    with [magic], moving the stream into the decoder. *)
Definition magic_factory (magic : string) (d : Decoder) : DecoderFactory :=
  fun file =>
    if String.prefix magic (is_data file)
    then (Some d, None)
    else (None, Some {| is_data := is_data file; is_pos := (is_pos file + 4)%Z;
                        is_good := is_good file; is_seekable := is_seekable file |}).

Definition reject_factory : DecoderFactory :=
  fun file => (None, Some file).

#[export] Instance example_platform : Platform := {|
  hasher := fnv1a_64;
  GetFormat := fun _ _ => 4353%Z;
  FramesToBytes := fun frames _ _ => (2 * frames)%Z;
  HAVE_VORBISFILE := false;
  HAVE_LIBFLAC := false;
  HAVE_OPUSFILE := false;
  HAVE_LIBSNDFILE := false;
  HAVE_MPG123 := false;
  WaveDecoderFactory := magic_factory "RIFF" (example_decoder 100%Z (0, 0)%Z);
  VorbisFileDecoderFactory := reject_factory;
  FlacDecoderFactory := reject_factory;
  OpusFileDecoderFactory := reject_factory;
  SndFileDecoderFactory := reject_factory;
  Mpg123DecoderFactory := reject_factory;
  addr := fun i => (64 * Z.of_nat i)%Z
|}.

(** The same platform on a 32-bit target, where [std::hash<String>] is the
    32-bit FNV-1a hash. *)
Fixpoint fnv1a32_from (h : Z) (s : string) : Z :=
  match s with
  | EmptyString => h
  | String ch s' =>
      fnv1a32_from (wrap32 (Z.lxor h (Z.of_N (N_of_ascii ch)) * 16777619)) s'
  end.

Definition fnv1a_32 (s : string) : Z := fnv1a32_from 2166136261%Z s.

Definition example_platform32 : Platform := {|
  hasher := fnv1a_32;
  GetFormat := fun _ _ => 4353%Z;
  FramesToBytes := fun frames _ _ => (2 * frames)%Z;
  HAVE_VORBISFILE := false;
  HAVE_LIBFLAC := false;
  HAVE_OPUSFILE := false;
  HAVE_LIBSNDFILE := false;
  HAVE_MPG123 := false;
  WaveDecoderFactory := magic_factory "RIFF" (example_decoder 100%Z (0, 0)%Z);
  VorbisFileDecoderFactory := reject_factory;
  FlacDecoderFactory := reject_factory;
  OpusFileDecoderFactory := reject_factory;
  SndFileDecoderFactory := reject_factory;
  Mpg123DecoderFactory := reject_factory;
  addr := fun i => (32 * Z.of_nat i)%Z
|}.

(** A context as its constructor leaves it, made current. *)
Definition example_context : ALContext :=
  {| mContext := Some 1%Z; mRefs := 0%Z; mBuffers := [];
     mMessage := None; SOFT_loop_points := false;
     mSourceIds := []; mAllSources := []; mFreeSources := []; mUsedSources := [];
     mThread_joinable := false; mQuitThread := false; isCurrent := true |}.

(** No registered decoder, no user file factory, and every file name opens
    a wave file. *)
Definition example_globals : Globals :=
  {| sDecoders := []; sFileFactory := None;
     files := fun _ => Some "RIFF....WAVE"%string |}.

(** A driver that hands out the name [bid] and reports no error; the
    worker has finished every load and the queue has room. *)
Definition example_env (bid : ALuint) : Env :=
  {| al_gen := Some bid; al_data_ok := true; al_loop_ok := true;
     volatile_isLoaded := fun _ => true; write_space := fun _ => 15%Z |}.

(** A driver out of names. *)
Definition exhausted_env : Env :=
  {| al_gen := None; al_data_ok := true; al_loop_ok := true;
     volatile_isLoaded := fun _ => true; write_space := fun _ => 15%Z |}.

(** The state after a call, whatever its outcome. *)
Definition state_after {A} (r : Outcome A * ALContext * list Event) : ALContext :=
  snd (fst r).
Definition outcome_of {A} (r : Outcome A * ALContext * list Event) : Outcome A :=
  fst (fst r).
Definition trace_of {A} (r : Outcome A * ALContext * list Event) : list Event :=
  snd r.

(** ** Predicates used in the statements *)

(** [comp] holds on a prefix of [l] and fails on the rest: the
    precondition of [std::lower_bound]. *)
Definition partitioned {A} (comp : A -> bool) (l : list A) : Prop :=
  forall x, In x (skipn (partition_point comp l) l) -> comp x = false.

(** Ascending, and strictly ascending, order of the keys. *)
Definition sorted_by {A} (key : A -> Z) (l : list A) : Prop :=
  StronglySorted (fun a b => (key a <= key b)%Z) l.

Definition strictly_sorted_by {A} (key : A -> Z) (l : list A) : Prop :=
  StronglySorted (fun a b => (key a < key b)%Z) l.

(** The key the registry is ordered by, and the order itself. *)
Definition name_hash {P : Platform} (b : ALBuffer) : Z := hasher (getName b).

Definition registry_sorted {P : Platform} (l : list ALBuffer) : Prop :=
  sorted_by name_hash l.

(** No buffer of the registry has the hash of [name] under another
    name. *)
Definition no_collision {P : Platform} (name : string) (l : list ALBuffer) : Prop :=
  forall b, In b l -> hasher (getName b) = hasher name -> getName b = name.

(** Calls that change the registry, each with what the rest of the
    process answers during the call. *)
Inductive RegistryOp : Type :=
| OpGetBuffer (fuel : nat) (g : Globals) (w : Env) (name : string)
| OpGetBufferAsync (fuel : nat) (g : Globals) (w : Env) (name : string)
| OpRemoveBuffer (name : string).

Definition run_registry_op {P : Platform} (c : ALContext) (op : RegistryOp) : ALContext :=
  match op with
  | OpGetBuffer fuel g w name => state_after (getBuffer fuel g w name c)
  | OpGetBufferAsync fuel g w name => state_after (getBufferAsync fuel g w name c)
  | OpRemoveBuffer name => state_after (removeBuffer name c)
  end.

Definition run_registry {P : Platform} (ops : list RegistryOp) (c : ALContext)
  : ALContext :=
  fold_left run_registry_op ops c.

(** Calls on the pool of source objects. *)
Inductive SourceOp : Type :=
| OpCreateSource
| OpFreeSource (source : nat).

Definition run_source_op {P : Platform} (c : ALContext) (op : SourceOp) : ALContext :=
  match op with
  | OpCreateSource => state_after (createSource c)
  | OpFreeSource source => state_after (freeSource source c)
  end.

Definition run_sources {P : Platform} (ops : list SourceOp) (c : ALContext) : ALContext :=
  fold_left run_source_op ops c.

(** Only sources of the context are released. *)
Fixpoint valid_source_ops {P : Platform} (ops : list SourceOp) (c : ALContext) : Prop :=
  match ops with
  | [] => True
  | op :: rest =>
      match op with
      | OpCreateSource => True
      | OpFreeSource source => source < List.length (mAllSources c)
      end
      /\ valid_source_ops rest (run_source_op c op)
  end.

(** The used-source index is in strict address order, and it and the free
    list point into [mAllSources]. *)
Definition pool_ok {P : Platform} (c : ALContext) : Prop :=
  strictly_sorted_by addr (mUsedSources c)
  /\ (forall p, In p (mUsedSources c) -> p < List.length (mAllSources c))
  /\ (forall p, In p (mFreeSources c) -> p < List.length (mAllSources c)).

(** [r] is the source of lowest priority among those of [scanned] that
    hold a voice, the first such in scan order: every voice holder before
    it has a strictly higher priority, every one after it a priority at
    least as high. [None] when no source of [scanned] holds a voice. *)
Definition lowest_of (all : list ALSource) (scanned : list nat)
    (r : option (nat * ALuint)) : Prop :=
  match r with
  | None =>
      forall q sq, In q scanned -> nth_error all q = Some sq -> src_id sq = 0%Z
  | Some (p, prio) =>
      exists s before after,
        scanned = before ++ p :: after /\
        nth_error all p = Some s /\ src_id s <> 0%Z /\ src_priority s = prio /\
        (forall q sq, In q before -> nth_error all q = Some sq ->
                      src_id sq <> 0%Z -> (prio < src_priority sq)%Z) /\
        (forall q sq, In q after -> nth_error all q = Some sq ->
                      src_id sq <> 0%Z -> (prio <= src_priority sq)%Z)
  end.

(** A current context with no message handler whose one source holds
    voice 7 at priority 1, and no voice on the free stack. *)
Definition busy_context : ALContext :=
  {| mContext := Some 1%Z; mRefs := 0%Z; mBuffers := [];
     mMessage := None; SOFT_loop_points := false;
     mSourceIds := [];
     mAllSources := [{| src_id := 7%Z; src_priority := 1%Z |}];
     mFreeSources := []; mUsedSources := [0];
     mThread_joinable := false; mQuitThread := false; isCurrent := true |}.

(** The stream as the next factory receives it when every factory of
    [range] has rejected it and each rewind has succeeded; [None] when a
    factory of [range] accepts, or moves the stream away, or a rewind
    fails. *)
Fixpoint all_reject (file : istream) (range : list (string * DecoderFactory))
  : option istream :=
  match range with
  | [] => Some file
  | (_, factory) :: rest =>
      match factory file with
      | (None, Some file1) =>
          let file2 := istream_seekg0 (istream_clear file1) in
          if is_good file2 then all_reject file2 rest else None
      | _ => None
      end
  end.

(** One attempt and one rewind for each factory of [range]; the first
    attempt is made at position [pos], the others at position 0. *)
Fixpoint rejection_trace (pos : Z) (range : list (string * DecoderFactory))
  : list Event :=
  match range with
  | [] => []
  | (fname, _) :: rest => EvCreateDecoder fname pos :: EvRewind :: rejection_trace 0 rest
  end.

Definition count_rewinds (t : list Event) : nat :=
  List.length (filter (fun ev => match ev with EvRewind => true | _ => false end) t).

(** [RegisterDecoder] for each pair of [regs], first to last. *)
Definition register_all (regs : list (string * DecoderFactory)) (g : Globals) : Globals :=
  fold_left (fun g0 r => snd (RegisterDecoder (fst r) (snd r) g0)) regs g.

(** Strictly ascending keys: the iteration order of a [std::map]. *)
Definition map_sorted {V} (m : list (string * V)) : Prop :=
  StronglySorted (fun a b => String.ltb (fst a) (fst b) = true) m.

(** The exceptions of [createDecoder]. *)
Definition decoder_error (e : Error) : Prop :=
  match e with
  | FailedToOpen _ | FailedToRewind _ | NoDecoderFor _ => True
  | _ => False
  end.

(** ** Examples *)

(** The synchronous insertion of "b", "a" and "c", in that order. *)
Definition three_inserts : list RegistryOp :=
  [OpGetBuffer 1 example_globals (example_env 1%Z) "b"%string;
   OpGetBuffer 1 example_globals (example_env 2%Z) "a"%string;
   OpGetBuffer 1 example_globals (example_env 3%Z) "c"%string].

(** A registry with the one buffer "a", still pending or already ready. *)
Definition context_with (b : ALBuffer) : ALContext :=
  set_mBuffers example_context [b].

Definition ready_a : ALBuffer := ALBuffer_new 1%Z 44100%Z 1%Z 1%Z true "a"%string.


(** A driver that generates the name 9 and then fails to fill it. *)
Definition failing_env : Env :=
  {| al_gen := Some 9%Z; al_data_ok := false; al_loop_ok := true;
     volatile_isLoaded := fun _ => true; write_space := fun _ => 15%Z |}.

(** Decoders and factories that can be told apart. *)
Definition decoder_A : Decoder := example_decoder 11%Z (0, 0)%Z.
Definition decoder_B : Decoder := example_decoder 22%Z (0, 0)%Z.
Definition decoder_C : Decoder := example_decoder 33%Z (0, 0)%Z.

Definition riff_stream : istream :=
  {| is_data := "RIFF....WAVE"; is_pos := 0%Z; is_good := true; is_seekable := true |}.

(** A context whose worker thread is running. *)
Definition context_with_worker : ALContext :=
  set_thread example_context true false.

(** A current context with a message handler whose two sources hold the
    voices 7 and 8 at priorities 5 and 1, and no voice on the free stack. *)
Definition full_pool_context : ALContext :=
  {| mContext := Some 1%Z; mRefs := 0%Z; mBuffers := [];
     mMessage := Some {| resourceNotFound := fun _ => EmptyString |};
     SOFT_loop_points := false;
     mSourceIds := [];
     mAllSources := [{| src_id := 7%Z; src_priority := 5%Z |};
                     {| src_id := 8%Z; src_priority := 1%Z |}];
     mFreeSources := []; mUsedSources := [0; 1];
     mThread_joinable := false; mQuitThread := false; isCurrent := true |}.

(** Globals with one registered factory, whose decoder reports a length
    of [frames] frames. *)
Definition globals_with_length (frames : Z) : Globals :=
  {| sDecoders := [("long"%string,
                    magic_factory "RIFF" (example_decoder frames (0, 0)%Z))];
     sFileFactory := None;
     files := fun _ => Some "RIFF....WAVE"%string |}.

(** ** The calls a fetch makes *)

(** The [bufferLoading] notification of [getBuffer], made when a handler
    is installed. *)
Definition loading_notification {P : Platform} (c : ALContext) (name : string)
    (decoder : Decoder) : list Event :=
  let frames := dec_read decoder (dec_length decoder) in
  if non_null (mMessage c)
  then [EvBufferLoading name (dec_channels decoder) (dec_sampleType decoder)
          (dec_frequency decoder)
          (FramesToBytes frames (dec_channels decoder) (dec_sampleType decoder))]
  else [].

(** The OpenAL calls inside the [try] block of [getBuffer]. *)
Definition upload_calls {P : Platform} (c : ALContext) (w : Env) (decoder : Decoder)
  : list Event :=
  let frames := dec_read decoder (dec_length decoder) in
  let bid := match al_gen w with Some id => id | None => 0%Z end in
  let loop_pts := normalize_loop_points (dec_loopPoints decoder) frames in
  [EvAlGenBuffers bid;
   EvAlBufferData bid (GetFormat (dec_channels decoder) (dec_sampleType decoder))
     (FramesToBytes frames (dec_channels decoder) (dec_sampleType decoder))
     (dec_frequency decoder)]
  ++ (if SOFT_loop_points c
      then [EvAlBufferiv bid (to_ALint (fst loop_pts)) (to_ALint (snd loop_pts))]
      else []).

(** [alGetError() != AL_NO_ERROR] at the end of the [try] block. *)
Definition upload_fails (c : ALContext) (w : Env) : bool :=
  negb (non_null (al_gen w))
  || negb (al_data_ok w)
  || (SOFT_loop_points c && negb (al_loop_ok w)).

(** Events of the decoder resolution, and events that reach the OpenAL
    driver, the message handler's [bufferLoading] or the worker. *)
Definition resolution_event (ev : Event) : Prop :=
  match ev with
  | EvCreateDecoder _ _ | EvRewind | EvResourceNotFound _ => True
  | _ => False
  end.


(** The number of leading reads of [write_space()] that find the queue
    full, among the first [fuel] reads from the [k]-th on. *)
Fixpoint full_reads (fuel : nat) (w : Env) (k : nat) : nat :=
  match fuel with
  | O => O
  | S fuel' => if (write_space w k =? 0)%Z then S (full_reads fuel' w (S k)) else O
  end.

(** Calls of the OpenAL buffer interface. *)
Definition al_buffer_event (ev : Event) : Prop :=
  match ev with
  | EvAlGenBuffers _ | EvAlBufferData _ _ _ _ | EvAlBufferiv _ _ _
  | EvAlDeleteBuffers _ => True
  | _ => False
  end.

Definition count_enqueues (t : list Event) : nat :=
  List.length (filter (fun ev => match ev with EvEnqueue _ => true | _ => false end) t).

Definition count_yields (t : list Event) : nat :=
  List.length (filter (fun ev => match ev with EvYield => true | _ => false end) t).

(** The [n]-th name the handler proposes, starting from [name]. *)
Fixpoint substitute (h : MessageHandler) (name : string) (n : nat) : string :=
  match n with
  | O => name
  | S n' => substitute h (resourceNotFound h name) n'
  end.

(** The [resourceNotFound] calls for the first [k] names, from the
    [from]-th on. *)
Definition asked (h : MessageHandler) (name : string) (k : nat) : list Event :=
  map (fun i => EvResourceNotFound (substitute h name i)) (seq 0 k).

(** Calls on the table of registered decoder factories. *)
Inductive DecoderOp : Type :=
| OpRegisterDecoder (name : string) (factory : DecoderFactory)
| OpUnregisterDecoder (name : string).

Definition run_decoder_op (g : Globals) (op : DecoderOp) : Globals :=
  match op with
  | OpRegisterDecoder name factory => snd (RegisterDecoder name factory g)
  | OpUnregisterDecoder name => snd (UnregisterDecoder name g)
  end.

Definition run_decoder_ops (ops : list DecoderOp) (g : Globals) : Globals :=
  fold_left run_decoder_op ops g.

(** The number of [createSource] calls among [ops]. *)
Definition count_creates (ops : list SourceOp) : nat :=
  List.length (filter (fun op => match op with OpCreateSource => true | _ => false end)
                      ops).

(** ** Source groups: [createSourceGroup], [getSourceGroup], [freeSourceGroup] *)

(** A source group as these functions see it: the object (its address) and
    its name. [mSourceGroups] is a vector of groups in ascending order of
    their names. *)
Record ALSourceGroup : Type := {
  sg_ptr : nat;
  sg_name : string
}.

Inductive GroupError : Type :=
| DuplicateSourceGroupName            (* "Duplicate source group name" *)
| SourceGroupNotFound.                (* "Source group not found" *)

Inductive Result (E A : Type) : Type :=
| Done (a : A)
| Raised (e : E).
Arguments Done {E A} a.
Arguments Raised {E A} e.

(** The comparison passed to [std::lower_bound]: [lhs->getName() < rhs]. *)
Definition name_less (name : string) (lhs : ALSourceGroup) : bool :=
  String.ltb (sg_name lhs) name.

(** The group at [iter] when [iter] is not the end and names [name]. *)
Definition group_at (groups : list ALSourceGroup) (iter : nat) (name : string)
  : option ALSourceGroup :=
  match nth_error groups iter with
  | Some gp => if String.eqb (sg_name gp) name then Some gp else None
  | None => None
  end.

(** [fresh] is the address of the group that [MakeUnique] allocates. *)
Definition createSourceGroup (fresh : nat) (name : string)
    (groups : list ALSourceGroup)
  : Result GroupError ALSourceGroup * list ALSourceGroup :=
  let iter := lower_bound (name_less name) groups in
  match group_at groups iter name with
  | Some _ => (Raised DuplicateSourceGroupName, groups)
  | None =>
      let gp := {| sg_ptr := fresh; sg_name := name |} in
      (Done gp, vec_insert iter gp groups)
  end.

Definition getSourceGroup (name : string) (groups : list ALSourceGroup)
  : Result GroupError ALSourceGroup :=
  let iter := lower_bound (name_less name) groups in
  match group_at groups iter name with
  | Some gp => Done gp
  | None => Raised SourceGroupNotFound
  end.

(** The entry found under the name of [group] is erased when it is that
    very object. *)
Definition freeSourceGroup (group : ALSourceGroup) (groups : list ALSourceGroup)
  : list ALSourceGroup :=
  let iter := lower_bound (name_less (sg_name group)) groups in
  match nth_error groups iter with
  | Some gp => if Nat.eqb (sg_ptr gp) (sg_ptr group) then vec_erase iter groups
               else groups
  | None => groups
  end.

Inductive GroupOp : Type :=
| OpCreateSourceGroup (fresh : nat) (name : string)
| OpFreeSourceGroup (group : ALSourceGroup).

Definition run_group_op (groups : list ALSourceGroup) (op : GroupOp)
  : list ALSourceGroup :=
  match op with
  | OpCreateSourceGroup fresh name => snd (createSourceGroup fresh name groups)
  | OpFreeSourceGroup group => freeSourceGroup group groups
  end.

Definition run_group_ops (ops : list GroupOp) (groups : list ALSourceGroup)
  : list ALSourceGroup :=
  fold_left run_group_op ops groups.

(** Strictly ascending names. *)
Definition groups_sorted (groups : list ALSourceGroup) : Prop :=
  StronglySorted (fun a b => String.ltb (sg_name a) (sg_name b) = true) groups.

(** ** Streaming sources: [addStream], [removeStream], the sweep of the worker *)

(** The context together with [mStreamingSources], the vector of the
    sources that stream, in ascending address order. *)
Record StreamingContext : Type := {
  sc_context : ALContext;
  mStreamingSources : list nat
}.

(** [addStream]: the worker is started if it is not running, and the
    source is inserted unless it is there. *)
Definition addStream {P : Platform} (source : nat) (sc : StreamingContext)
  : StreamingContext * list Event :=
  let c := sc_context sc in
  let streams := mStreamingSources sc in
  let iter := lower_bound (ptr_less source) streams in
  ({| sc_context := if mThread_joinable c then c
                    else set_thread c true (mQuitThread c);
      mStreamingSources := if ptr_at streams iter source then streams
                           else vec_insert iter source streams |},
   if mThread_joinable c then [] else [EvThreadStart]).

(** [removeStreamNoLock]; [removeStream] is the same under the lock of the
    streaming sources. *)
Definition removeStreamNoLock {P : Platform} (source : nat) (streams : list nat)
  : list nat :=
  let iter := lower_bound (ptr_less source) streams in
  if ptr_at streams iter source then vec_erase iter streams else streams.

Definition removeStream {P : Platform} (source : nat) (sc : StreamingContext)
  : StreamingContext :=
  {| sc_context := sc_context sc;
     mStreamingSources := removeStreamNoLock source (mStreamingSources sc) |}.

(** The sweep at the head of the loop of [backgroundProc]: [source] is the
    iterator, [updateAsync] the answer of each source to its update. The
    result is what is left of the vector, with the sources updated, in
    the order of the calls. *)
Fixpoint sweep_streams (updateAsync : nat -> bool) (fuel : nat) (source : nat)
    (streams : list nat) : list nat * list nat :=
  match fuel with
  | O => (streams, [])
  | S fuel' =>
      match nth_error streams source with
      | None => (streams, [])
      | Some s =>
          if updateAsync s
          then let '(kept, updated) :=
                 sweep_streams updateAsync fuel' (S source) streams in
               (kept, s :: updated)
          else let '(kept, updated) :=
                 sweep_streams updateAsync fuel' source (vec_erase source streams) in
               (kept, s :: updated)
      end
  end.

Inductive StreamOp : Type :=
| OpAddStream (source : nat)
| OpRemoveStream (source : nat)
| OpSweep (updateAsync : nat -> bool).

Definition run_stream_op {P : Platform} (sc : StreamingContext) (op : StreamOp)
  : StreamingContext :=
  match op with
  | OpAddStream source => fst (addStream source sc)
  | OpRemoveStream source => removeStream source sc
  | OpSweep updateAsync =>
      {| sc_context := sc_context sc;
         mStreamingSources :=
           fst (sweep_streams updateAsync (List.length (mStreamingSources sc)) 0
                              (mStreamingSources sc)) |}
  end.

Definition run_stream_ops {P : Platform} (ops : list StreamOp) (sc : StreamingContext)
  : StreamingContext :=
  fold_left run_stream_op ops sc.

(** ** The current context: [MakeCurrent], [MakeThreadCurrent]

    The statics [sCurrentCtx] and [sThreadCurrentCtx] and, for every
    context object, its reference count and the [std::once_flag] of its
    extension set-up. Contexts and threads are numbered; a null pointer is
    [None]. [sThreadCurrentCtx] is [thread_local], so there is one per
    thread. Calls run one at a time, which is why the mutexes that
    [MakeCurrent] holds do not appear. *)

Inductive ProcessError : Type :=
| MakeContextCurrentFailed      (* "Call to alcMakeContextCurrent failed" *)
| ThreadContextUnsupported      (* "Thread-local contexts unsupported" *)
| SetThreadContextFailed.       (* "Call to alcSetThreadContext failed" *)

Inductive ProcessEvent : Type :=
| PeAlcMakeContextCurrent (context : option nat)
| PeSetThreadContext (thread : nat) (context : option nat)
| PeSetupExts (context : nat)               (* ALContext::setupExts *)
| PeNotifyAll (context : nat).              (* mWakeThread.notify_all() *)

Record Process : Type := {
  sCurrentCtx : option nat;
  sThreadCurrentCtx : nat -> option nat;
  mRefs_of : nat -> Z;
  mSetExts : nat -> bool
}.

(** What a process starts with: null statics, and contexts as their
    constructor leaves them ([mRefs(0)], the flag not set). *)
Definition process_start : Process :=
  {| sCurrentCtx := None; sThreadCurrentCtx := fun _ => None;
     mRefs_of := fun _ => 0%Z; mSetExts := fun _ => false |}.

Definition upd {A} (f : nat -> A) (k : nat) (v : A) : nat -> A :=
  fun i => if Nat.eqb i k then v else f i.

(** Comparison of two context pointers. *)
Definition ctx_eqb (a b : option nat) : bool :=
  match a, b with
  | Some x, Some y => Nat.eqb x y
  | None, None => true
  | _, _ => false
  end.

Definition set_mRefs_of (p : Process) (refs : nat -> Z) : Process :=
  {| sCurrentCtx := sCurrentCtx p; sThreadCurrentCtx := sThreadCurrentCtx p;
     mRefs_of := refs; mSetExts := mSetExts p |}.

Definition set_sCurrentCtx (p : Process) (context : option nat) : Process :=
  {| sCurrentCtx := context; sThreadCurrentCtx := sThreadCurrentCtx p;
     mRefs_of := mRefs_of p; mSetExts := mSetExts p |}.

Definition set_sThreadCurrentCtx (p : Process) (thread : nat) (context : option nat)
  : Process :=
  {| sCurrentCtx := sCurrentCtx p;
     sThreadCurrentCtx := upd (sThreadCurrentCtx p) thread context;
     mRefs_of := mRefs_of p; mSetExts := mSetExts p |}.

(** Modelled from the spec: [addRef] increments the reference count of
    the context and [decRef] decrements it. *)
Definition addRef (context : nat) (p : Process) : Process :=
  set_mRefs_of p (upd (mRefs_of p) context (mRefs_of p context + 1)%Z).

Definition decRef (context : nat) (p : Process) : Process :=
  set_mRefs_of p (upd (mRefs_of p) context (mRefs_of p context - 1)%Z).

(** [std::call_once(context->mSetExts, &ALContext::setupExts, context)] *)
Definition call_once_setupExts (context : nat) (p : Process)
  : Process * list ProcessEvent :=
  if mSetExts p context then (p, [])
  else ({| sCurrentCtx := sCurrentCtx p; sThreadCurrentCtx := sThreadCurrentCtx p;
           mRefs_of := mRefs_of p; mSetExts := upd (mSetExts p) context true |},
        [PeSetupExts context]).

(** [ALContext::MakeCurrent(context)] called by [thread]; [alc_ok] is the
    answer of [alcMakeContextCurrent]. *)
Definition MakeCurrent (thread : nat) (alc_ok : bool) (context : option nat)
    (p : Process) : Result ProcessError unit * Process * list ProcessEvent :=
  if negb alc_ok
  then (Raised MakeContextCurrentFailed, p, [PeAlcMakeContextCurrent context])
  else
    let '(p1, setup) := match context with
                        | Some c => call_once_setupExts c (addRef c p)
                        | None => (p, [])
                        end in
    (* std::swap(sCurrentCtx, context): [old] is [context] from here on *)
    let old := sCurrentCtx p1 in
    let p2 := set_sCurrentCtx p1 context in
    let p3 := match old with Some o => decRef o p2 | None => p2 end in
    let p4 := match sThreadCurrentCtx p3 thread with
              | Some t => decRef t p3
              | None => p3
              end in
    let p5 := set_sThreadCurrentCtx p4 thread None in
    (Done tt, p5,
     [PeAlcMakeContextCurrent context] ++ setup ++
     match sCurrentCtx p5 with
     | Some c => if ctx_eqb (Some c) old then [] else [PeNotifyAll c]
     | None => []
     end).

(** [ALContext::MakeThreadCurrent(context)] called by [thread];
    [SetThreadContext] is [None] when the function pointer of the device
    manager is null, and the answer of the call otherwise. *)
Definition MakeThreadCurrent (thread : nat) (SetThreadContext : option bool)
    (context : option nat) (p : Process)
  : Result ProcessError unit * Process * list ProcessEvent :=
  match SetThreadContext with
  | None => (Raised ThreadContextUnsupported, p, [])
  | Some false => (Raised SetThreadContextFailed, p, [PeSetThreadContext thread context])
  | Some true =>
      let '(p1, setup) := match context with
                          | Some c => call_once_setupExts c (addRef c p)
                          | None => (p, [])
                          end in
      let p2 := match sThreadCurrentCtx p1 thread with
                | Some t => decRef t p1
                | None => p1
                end in
      (Done tt, set_sThreadCurrentCtx p2 thread context,
       [PeSetThreadContext thread context] ++ setup)
  end.

(** Calls of the two functions, by any threads, one after the other. *)
Inductive ProcessOp : Type :=
| OpMakeCurrent (thread : nat) (alc_ok : bool) (context : option nat)
| OpMakeThreadCurrent (thread : nat) (SetThreadContext : option bool)
    (context : option nat).

Definition op_thread (op : ProcessOp) : nat :=
  match op with
  | OpMakeCurrent thread _ _ => thread
  | OpMakeThreadCurrent thread _ _ => thread
  end.

Definition run_process_op (st : Process * list ProcessEvent) (op : ProcessOp)
  : Process * list ProcessEvent :=
  let '(p, trace) := st in
  match op with
  | OpMakeCurrent thread alc_ok context =>
      let '(_, p', t) := MakeCurrent thread alc_ok context p in (p', trace ++ t)
  | OpMakeThreadCurrent thread stc context =>
      let '(_, p', t) := MakeThreadCurrent thread stc context p in (p', trace ++ t)
  end.

Definition run_process_ops (ops : list ProcessOp) (p : Process)
  : Process * list ProcessEvent :=
  fold_left run_process_op ops (p, []).

(** The number of the threads of a list whose current context is [c]. *)
Fixpoint holders (f : nat -> option nat) (c : nat) (threads : list nat) : Z :=
  match threads with
  | [] => 0%Z
  | t :: rest => ((if ctx_eqb (f t) (Some c) then 1 else 0) + holders f c rest)%Z
  end.

Definition count_setups (c : nat) (trace : list ProcessEvent) : nat :=
  List.length (filter (fun e => match e with
                                | PeSetupExts c' => Nat.eqb c' c
                                | _ => false
                                end) trace).

Definition notified (trace : list ProcessEvent) : list nat :=
  flat_map (fun e => match e with PeNotifyAll c => [c] | _ => [] end) trace.

(** ** [ALContext::update], with the members it reads *)

Inductive UpdateEvent : Type :=
| UeUpdateSource (source : nat)      (* ALSource::updateNoCtxCheck *)
| UeNotifyAll                        (* mWakeThread.notify_all() *)
| UeGetConnected                     (* alcGetIntegerv(..., ALC_CONNECTED, ...) *)
| UeDeviceDisconnected.              (* mMessage->deviceDisconnected(mDevice) *)

Record ConnectedContext : Type := {
  cc_context : ALContext;
  mWakeInterval : ALuint;
  EXT_disconnect : bool;             (* hasExtension(EXT_disconnect) *)
  mIsConnected : bool
}.

Definition set_mMessage (c : ALContext) (handler : option MessageHandler) : ALContext :=
  {| mContext := mContext c; mRefs := mRefs c; mBuffers := mBuffers c;
     mMessage := handler; SOFT_loop_points := SOFT_loop_points c;
     mSourceIds := mSourceIds c; mAllSources := mAllSources c;
     mFreeSources := mFreeSources c; mUsedSources := mUsedSources c;
     mThread_joinable := mThread_joinable c; mQuitThread := mQuitThread c;
     isCurrent := isCurrent c |}.

(** [update]; [connected] is the [ALCint] that [alcGetIntegerv] stores. *)
Definition update (connected : Z) (cc : ConnectedContext)
  : Result Error unit * ConnectedContext * list UpdateEvent :=
  let c := cc_context cc in
  match fst (fst (CheckContext c)) with
  | Throws e => (Raised e, cc, [])
  | OutOfFuel => (Raised ContextNotCurrent, cc, [])
  | Returns _ =>
      let sources := map UeUpdateSource (mUsedSources c) in
      let wake := if (mWakeInterval cc =? 0)%Z then [UeNotifyAll] else [] in
      if EXT_disconnect cc && mIsConnected cc
      then (Done tt,
            {| cc_context := c; mWakeInterval := mWakeInterval cc;
               EXT_disconnect := EXT_disconnect cc;
               mIsConnected := negb (connected =? 0)%Z |},
            sources ++ wake ++ [UeGetConnected] ++
            (if (connected =? 0)%Z && non_null (mMessage c)
             then [UeDeviceDisconnected] else []))
      else (Done tt, cc, sources ++ wake)
  end.

(** [setMessageHandler]: the handlers are swapped and the old one is
    returned. *)
Definition setMessageHandler (handler : option MessageHandler) (c : ALContext)
  : option MessageHandler * ALContext :=
  (mMessage c, set_mMessage c handler).

(** [setAsyncWakeInterval] *)
Definition setAsyncWakeInterval (msec : ALuint) (cc : ConnectedContext)
  : ConnectedContext * list UpdateEvent :=
  ({| cc_context := cc_context cc; mWakeInterval := msec;
      EXT_disconnect := EXT_disconnect cc; mIsConnected := mIsConnected cc |},
   [UeNotifyAll]).

Inductive ConnectedOp : Type :=
| OpUpdate (connected : Z)
| OpSetMessageHandler (handler : option MessageHandler)
| OpSetAsyncWakeInterval (msec : ALuint).

Definition run_connected_op (st : ConnectedContext * list UpdateEvent)
    (op : ConnectedOp) : ConnectedContext * list UpdateEvent :=
  let '(cc, trace) := st in
  match op with
  | OpUpdate connected =>
      let '(_, cc', t) := update connected cc in (cc', trace ++ t)
  | OpSetMessageHandler handler =>
      ({| cc_context := snd (setMessageHandler handler (cc_context cc));
          mWakeInterval := mWakeInterval cc;
          EXT_disconnect := EXT_disconnect cc;
          mIsConnected := mIsConnected cc |}, trace)
  | OpSetAsyncWakeInterval msec =>
      let '(cc', t) := setAsyncWakeInterval msec cc in (cc', trace ++ t)
  end.

Definition run_connected_ops (ops : list ConnectedOp) (cc : ConnectedContext)
  : ConnectedContext * list UpdateEvent :=
  fold_left run_connected_op ops (cc, []).

Definition count_disconnects (trace : list UpdateEvent) : nat :=
  List.length (filter (fun e => match e with UeDeviceDisconnected => true | _ => false end)
                      trace).

Definition count_queries (trace : list UpdateEvent) : nat :=
  List.length (filter (fun e => match e with UeGetConnected => true | _ => false end)
                      trace).

(** ** [ALContext::isSupported] *)

Definition isSupported {P : Platform} (channels : ChannelConfig) (type : SampleType)
  : bool :=
  negb (GetFormat channels type =? AL_NONE)%Z.

(** * Properties *)

(** ** Binary search *)

Section LowerBoundFacts.
Context {A : Type} (comp : A -> bool).

Lemma partition_point_le (l : list A) : partition_point comp l <= List.length l.
Proof.
  induction l as [|x l IH]; simpl; [lia|].
  destruct (comp x); simpl; lia.
Qed.

Lemma before_partition_point (l : list A) :
  forall i x, i < partition_point comp l -> nth_error l i = Some x -> comp x = true.
Proof.
  induction l as [|y l IH]; simpl; intros i x Hi Hn; [lia|].
  destruct (comp y) eqn:Hy; [|lia].
  destruct i as [|i]; simpl in Hn.
  - now inversion Hn; subst.
  - apply (IH i); [lia|assumption].
Qed.

Lemma nth_error_skipn_In (l : list A) :
  forall n i x, n <= i -> nth_error l i = Some x -> In x (skipn n l).
Proof.
  induction l as [|y l IH]; intros n i x Hle Hn.
  - destruct i; discriminate.
  - destruct n as [|n].
    + rewrite skipn_O. eapply nth_error_In; eassumption.
    + destruct i as [|i]; [lia|]. simpl in Hn |- *.
      apply (IH n i); [lia|assumption].
Qed.

Lemma after_partition_point (l : list A) :
  partitioned comp l ->
  forall i x, partition_point comp l <= i -> nth_error l i = Some x -> comp x = false.
Proof.
  intros Hp i x Hi Hn. apply Hp. eapply nth_error_skipn_In; eassumption.
Qed.

(** The loop keeps the partition point between [first] and
    [first + count], so it ends on it. *)
Lemma lower_bound_loop_partition_point (l : list A) :
  partitioned comp l ->
  forall count first,
    first <= partition_point comp l <= first + count ->
    first + count <= List.length l ->
    lower_bound_loop comp l first count = partition_point comp l.
Proof.
  intros Hp count.
  induction count as [count IH] using lt_wf_ind.
  intros first Hpp Hlen.
  destruct count as [|c].
  - simp lower_bound_loop. lia.
  - assert (Hstep : half (S c) < S c) by (apply Nat.lt_div2; lia).
    remember (half (S c)) as step eqn:Estep.
    destruct (nth_error l (first + step)) as [x|] eqn:Hx.
    2:{ apply nth_error_None in Hx. lia. }
    rewrite lower_bound_loop_equation_2. rewrite <- Estep.
    rewrite Hx. simpl.
    destruct (comp x) eqn:Hc; simpl.
    + assert (first + step < partition_point comp l).
      { destruct (Nat.lt_ge_cases (first + step) (partition_point comp l)) as [?|Hge];
          [assumption|].
        pose proof (after_partition_point Hp) as Hfalse.
        specialize (Hfalse _ _ Hge Hx). congruence. }
      apply IH; lia.
    + assert (partition_point comp l <= first + step).
      { destruct (Nat.lt_ge_cases (first + step) (partition_point comp l)) as [Hlt|?];
          [|assumption].
        pose proof (@before_partition_point l _ _ Hlt Hx). congruence. }
      apply IH; lia.
Qed.

Lemma lower_bound_partition_point (l : list A) :
  partitioned comp l -> lower_bound comp l = partition_point comp l.
Proof.
  intros Hp. unfold lower_bound.
  apply lower_bound_loop_partition_point; [assumption| |lia].
  pose proof (partition_point_le l). lia.
Qed.
End LowerBoundFacts.

(** ** Sorted vectors *)

Section SortedFacts.
Context {A : Type} (key : A -> Z).

Let below (v : Z) (x : A) : bool := (key x <? v)%Z.

Lemma vec_insert_cons (i : nat) (x y : A) (l : list A) :
  vec_insert (S i) x (y :: l) = y :: vec_insert i x l.
Proof. reflexivity. Qed.

Lemma vec_erase_cons (i : nat) (y : A) (l : list A) :
  vec_erase (S i) (y :: l) = y :: vec_erase i l.
Proof. reflexivity. Qed.

Lemma In_split_at (i : nat) (z : A) (l : list A) :
  In z l <-> In z (firstn i l) \/ In z (skipn i l).
Proof. rewrite <- in_app_iff, firstn_skipn. reflexivity. Qed.

Lemma In_vec_insert (i : nat) (x z : A) (l : list A) :
  In z (vec_insert i x l) <-> z = x \/ In z l.
Proof.
  unfold vec_insert. rewrite in_app_iff, (In_split_at i z l). simpl.
  intuition congruence.
Qed.

Lemma In_vec_erase (i : nat) (z : A) (l : list A) :
  In z (vec_erase i l) -> In z l.
Proof.
  revert i. induction l as [|y l IH]; intros i.
  - destruct i; simpl; auto.
  - destruct i as [|i].
    + unfold vec_erase. simpl. auto.
    + rewrite vec_erase_cons. simpl. intros [H|H]; [auto|]. right. eapply IH; eauto.
Qed.

Lemma length_vec_insert (i : nat) (x : A) (l : list A) :
  List.length (vec_insert i x l) = S (List.length l).
Proof.
  unfold vec_insert. rewrite length_app. simpl.
  rewrite <- (firstn_skipn i l) at 3. rewrite length_app. lia.
Qed.

Lemma sorted_partitioned (v : Z) (l : list A) :
  sorted_by key l -> partitioned (below v) l.
Proof.
  unfold partitioned, below.
  induction 1 as [|y l Hs IH Hall]; simpl; intros x Hin; [contradiction|].
  destruct (key y <? v)%Z eqn:Hy.
  - apply IH. exact Hin.
  - rewrite skipn_O in Hin. apply Z.ltb_ge in Hy. apply Z.ltb_ge.
    destruct Hin as [->|Hin]; [assumption|].
    rewrite Forall_forall in Hall. specialize (Hall _ Hin). lia.
Qed.

(** Inserting at the partition point of the new key keeps the order. *)
Lemma sorted_vec_insert (x : A) (l : list A) :
  sorted_by key l ->
  sorted_by key (vec_insert (partition_point (below (key x)) l) x l).
Proof.
  unfold sorted_by, below.
  induction 1 as [|y l Hs IH Hall]; simpl.
  - repeat constructor.
  - destruct (key y <? key x)%Z eqn:Hy.
    + rewrite vec_insert_cons. constructor; [assumption|].
      apply Forall_forall. intros z Hz. apply In_vec_insert in Hz.
      apply Z.ltb_lt in Hy.
      destruct Hz as [->|Hz]; [lia|].
      rewrite Forall_forall in Hall. auto.
    + apply Z.ltb_ge in Hy. unfold vec_insert. simpl.
      constructor; [constructor; assumption|].
      constructor; [assumption|].
      apply Forall_forall. intros z Hz.
      rewrite Forall_forall in Hall. specialize (Hall _ Hz). lia.
Qed.

Lemma StronglySorted_vec_erase (R : A -> A -> Prop) (l : list A) :
  StronglySorted R l -> forall i, StronglySorted R (vec_erase i l).
Proof.
  induction 1 as [|y l Hs IH Hall]; intros i.
  - destruct i; constructor.
  - destruct i as [|i].
    + unfold vec_erase. simpl. assumption.
    + rewrite vec_erase_cons. constructor; [apply IH|].
      apply Forall_forall. intros z Hz. apply In_vec_erase in Hz.
      rewrite Forall_forall in Hall. auto.
Qed.

Lemma strictly_sorted_sorted (l : list A) :
  strictly_sorted_by key l -> sorted_by key l.
Proof.
  unfold strictly_sorted_by, sorted_by.
  induction 1 as [|y l Hs IH Hall]; constructor; [assumption|].
  eapply Forall_impl; [|exact Hall]. simpl. intros; lia.
Qed.

(** In a sorted vector the element at the partition point of [v], when
    there is one holding key [v] anywhere, has key [v] itself. *)
Lemma partition_point_hits (v : Z) (l : list A) :
  sorted_by key l ->
  forall b, In b l -> key b = v ->
  exists x, nth_error l (partition_point (below v) l) = Some x /\ key x = v.
Proof.
  unfold sorted_by, below.
  induction 1 as [|y l Hs IH Hall]; simpl; intros b Hin Hb; [contradiction|].
  destruct (key y <? v)%Z eqn:Hy.
  - destruct Hin as [->|Hin].
    + apply Z.ltb_lt in Hy. lia.
    + simpl. eapply IH; eauto.
  - simpl. exists y. split; [reflexivity|].
    apply Z.ltb_ge in Hy.
    destruct Hin as [Heq|Hin]; [congruence|].
    rewrite Forall_forall in Hall. specialize (Hall _ Hin). lia.
Qed.

(** Strict order is kept when the key is not yet at the partition
    point. *)
Lemma strictly_sorted_vec_insert (x : A) (l : list A) :
  strictly_sorted_by key l ->
  (forall y, nth_error l (partition_point (below (key x)) l) = Some y ->
             key y <> key x) ->
  strictly_sorted_by key (vec_insert (partition_point (below (key x)) l) x l).
Proof.
  unfold strictly_sorted_by, below.
  induction 1 as [|y l Hs IH Hall]; simpl; intros Hne.
  - repeat constructor.
  - destruct (key y <? key x)%Z eqn:Hy.
    + rewrite vec_insert_cons. constructor; [apply IH; exact Hne|].
      apply Forall_forall. intros z Hz. apply In_vec_insert in Hz.
      apply Z.ltb_lt in Hy.
      destruct Hz as [->|Hz]; [lia|].
      rewrite Forall_forall in Hall. auto.
    + apply Z.ltb_ge in Hy. unfold vec_insert. simpl.
      specialize (Hne y eq_refl).
      constructor; [constructor; assumption|].
      constructor; [lia|].
      apply Forall_forall. intros z Hz.
      rewrite Forall_forall in Hall. specialize (Hall _ Hz). lia.
Qed.
End SortedFacts.

(** ** Running the monad *)

Ltac unfold_m :=
  unfold CheckContext, when, lift, try_catch_rethrow in *;
  unfold bind, ret, throw, spin, emit, get, put,
         state_after, outcome_of, trace_of in *.

Arguments lower_bound : simpl never.

Section DecoderFacts.
Context {P : Platform}.

Lemma find_substitute_state (g : Globals) (h : MessageHandler) :
  forall fuel name c, state_after (find_substitute fuel g h name c) = c.
Proof.
  induction fuel as [|fuel IH]; intros name c; simpl; [reflexivity|].
  unfold_m. simpl.
  destruct (String.eqb (resourceNotFound h name) EmptyString); [reflexivity|].
  destruct (FileIOFactory_get g (resourceNotFound h name)); [reflexivity|].
  specialize (IH (resourceNotFound h name) c).
  destruct (find_substitute fuel g h (resourceNotFound h name) c) as [[r c1] t1].
  exact IH.
Qed.

(** [createDecoder] reads the context and leaves it as it is. *)
Lemma createDecoder_state (fuel : nat) (g : Globals) (name : string) (c : ALContext) :
  state_after (createDecoder fuel g name c) = c.
Proof.
  unfold createDecoder.
  destruct (FileIOFactory_get g name); [reflexivity|].
  unfold_m. simpl.
  destruct (mMessage c) as [h|]; [|reflexivity].
  pose proof (find_substitute_state g h fuel name c) as Hs.
  unfold state_after in Hs.
  destruct (find_substitute fuel g h name c) as [[[found| |] c1] t1];
    simpl in *; subst; reflexivity.
Qed.
End DecoderFacts.

(** ** The shape of every run of [getBuffer] and [getBufferAsync] *)

Section RegistryFacts.
Context {P : Platform}.

Lemma wait_until_loaded_no_throw (w : Env) :
  forall fuel k buffer e t, wait_until_loaded fuel w k buffer <> (Throws e, t).
Proof.
  induction fuel as [|fuel IH]; intros k buffer e t; simpl; [discriminate|].
  destruct (getLoadStatus buffer (volatile_isLoaded w k)) as [[|] b'].
  - specialize (IH (S k) b' e).
    destruct (wait_until_loaded fuel w (S k) b') as [r t'].
    intros H. inversion H; subst. eapply IH; reflexivity.
  - discriminate.
Qed.

Lemma getBuffer_cases (fuel : nat) (g : Globals) (w : Env) (name : string)
    (c : ALContext) :
  let iter := lower_bound (hash_less name) (mBuffers c) in
  let bid := match al_gen w with Some id => id | None => 0%Z end in
  match getBuffer fuel g w name c with
  | (Returns b, c', t) =>
      isCurrent c = true /\
      ((exists buffer,
          buffer_at (mBuffers c) iter name = Some buffer /\
          wait_until_loaded fuel w 0 buffer = (Returns b, t) /\
          c' = set_mBuffers c (replace_at iter b (mBuffers c)))
       \/
       (buffer_at (mBuffers c) iter name = None /\
        exists decoder t1,
          createDecoder fuel g name c = (Returns decoder, c, t1) /\
          dec_read decoder (dec_length decoder) <> 0%Z /\
          GetFormat (dec_channels decoder) (dec_sampleType decoder) <> AL_NONE /\
          al_gen w = Some bid /\
          al_data_ok w = true /\
          (SOFT_loop_points c = true -> al_loop_ok w = true) /\
          b = ALBuffer_new bid (dec_frequency decoder) (dec_channels decoder)
                           (dec_sampleType decoder) true name /\
          c' = set_mBuffers c (vec_insert iter b (mBuffers c))))
  | (Throws e, c', t) =>
      c' = c /\
      ((isCurrent c = false /\ e = ContextNotCurrent)
       \/ createDecoder fuel g name c = (Throws e, c, t)
       \/ e = NoSamples
       \/ e = FormatNotSupported
       \/ (e = FailedToBufferData /\
           (al_gen w = None \/ al_data_ok w = false \/
            (SOFT_loop_points c = true /\ al_loop_ok w = false)) /\
           exists t0 t1,
             t = t0 ++ EvAlGenBuffers bid :: t1 ++ [EvAlDeleteBuffers bid]))
  | (OutOfFuel, c', t) => c' = c
  end.
Proof.
  intros iter bid. unfold getBuffer. unfold_m.
  destruct (isCurrent c) eqn:Hcur; simpl; [|split; [reflexivity|auto]].
  fold iter.
  destruct (buffer_at (mBuffers c) iter name) as [buffer|] eqn:Hat.
  - (* the name is found: wait *)
    pose proof (@wait_until_loaded_no_throw w fuel 0 buffer) as Hnt.
    destruct (wait_until_loaded fuel w 0 buffer) as [[b|e|] t] eqn:Hw; simpl.
    + split; [reflexivity|]. left. exists buffer.
      rewrite app_nil_r. auto.
    + exfalso. eapply Hnt; reflexivity.
    + reflexivity.
  - (* the name is not found: decode and upload *)
    pose proof (createDecoder_state fuel g name c) as Hst. unfold state_after in Hst.
    destruct (createDecoder fuel g name c) as [[[decoder|e|] c1] t1] eqn:Hdec;
      simpl in Hst; subst c1; simpl;
      [|split; [reflexivity|auto]|reflexivity].
    destruct (dec_read decoder (dec_length decoder) =? 0)%Z eqn:Hframes; simpl;
      [split; [reflexivity|auto]|].
    destruct (GetFormat (dec_channels decoder) (dec_sampleType decoder) =? AL_NONE)%Z
      eqn:Hfmt; simpl; [split; [reflexivity|auto 6]|].
    apply Z.eqb_neq in Hframes, Hfmt.
    destruct (non_null (mMessage c));
      destruct (al_gen w) as [id|] eqn:Hgen;
      destruct (al_data_ok w) eqn:Hdata;
      destruct (SOFT_loop_points c) eqn:Hext;
      destruct (al_loop_ok w) eqn:Hloop; simpl;
      (split; [reflexivity|]);
      first
        [ right; split; [reflexivity|];
          exists decoder, t1; repeat split; auto; discriminate
        | do 4 right; split; [reflexivity|]; split; [auto|];
          solve [ (exists t1 + eexists (t1 ++ [_]));
                  (exists (@nil Event) + eexists [_] + eexists [_; _]);
                  rewrite <- ?app_assoc; reflexivity ] ].
Qed.

Lemma wait_write_space_result (w : Env) :
  forall fuel k c,
    exists t, wait_write_space fuel w k c = (Returns tt, c, t)
              \/ wait_write_space fuel w k c = (OutOfFuel, c, t).
Proof.
  induction fuel as [|fuel IH]; intros k c; simpl.
  - exists []. right. reflexivity.
  - destruct (write_space w k =? 0)%Z.
    + unfold_m. destruct (IH (S k) c) as [t [H|H]]; rewrite H;
        exists (EvYield :: t); simpl; auto.
    + exists []. left. reflexivity.
Qed.

Lemma getBufferAsync_cases (fuel : nat) (g : Globals) (w : Env) (name : string)
    (c : ALContext) :
  let iter := lower_bound (hash_less name) (mBuffers c) in
  match getBufferAsync fuel g w name c with
  | (Returns b, c', t) =>
      isCurrent c = true /\
      ((buffer_at (mBuffers c) iter name = Some b /\ c' = c /\ t = [])
       \/
       (buffer_at (mBuffers c) iter name = None /\
        exists decoder t1 bid,
          createDecoder fuel g name c = (Returns decoder, c, t1) /\
          dec_length decoder <> 0%Z /\
          GetFormat (dec_channels decoder) (dec_sampleType decoder) <> AL_NONE /\
          al_gen w = Some bid /\
          b = ALBuffer_new bid (dec_frequency decoder) (dec_channels decoder)
                           (dec_sampleType decoder) false name /\
          mBuffers c' = vec_insert iter b (mBuffers c) /\
          mThread_joinable c' = true))
  | (Throws e, c', t) =>
      c' = c /\
      ((isCurrent c = false /\ e = ContextNotCurrent)
       \/ createDecoder fuel g name c = (Throws e, c, t)
       \/ e = NoSamples
       \/ e = FormatNotSupported
       \/ (e = FailedToBufferData /\ al_gen w = None))
  | (OutOfFuel, c', t) => mBuffers c' = mBuffers c
  end.
Proof.
  intros iter. unfold getBufferAsync. unfold_m.
  destruct (isCurrent c) eqn:Hcur; simpl; [|split; [reflexivity|auto]].
  fold iter.
  destruct (buffer_at (mBuffers c) iter name) as [buffer|] eqn:Hat.
  - simpl. auto.
  - pose proof (createDecoder_state fuel g name c) as Hst. unfold state_after in Hst.
    destruct (createDecoder fuel g name c) as [[[decoder|e|] c1] t1] eqn:Hdec;
      simpl in Hst; subst c1; simpl;
      [|split; [reflexivity|auto]|reflexivity].
    destruct (dec_length decoder =? 0)%Z eqn:Hframes; simpl;
      [split; [reflexivity|auto]|].
    destruct (GetFormat (dec_channels decoder) (dec_sampleType decoder) =? AL_NONE)%Z
      eqn:Hfmt; simpl; [split; [reflexivity|auto 6]|].
    apply Z.eqb_neq in Hframes, Hfmt.
    destruct (al_gen w) as [bid|] eqn:Hgen; simpl;
      [|split; [reflexivity|auto 7]].
    destruct (mThread_joinable c) eqn:Hthr; simpl.
    + destruct (wait_write_space_result w fuel 0 c) as [tw [Hw|Hw]];
        rewrite Hw; simpl; [|reflexivity].
      split; [reflexivity|]. right. split; [reflexivity|].
      exists decoder, t1, bid. repeat split; auto.
    + destruct (wait_write_space_result w fuel 0 (set_thread c true (mQuitThread c)))
        as [tw [Hw|Hw]]; rewrite Hw; simpl; [|reflexivity].
      split; [reflexivity|]. right. split; [reflexivity|].
      exists decoder, t1, bid. repeat split; auto.
Qed.

Lemma removeBuffer_cases (name : string) (c : ALContext) :
  let iter := lower_bound (hash_less name) (mBuffers c) in
  let c' := state_after (removeBuffer name c) in
  mBuffers c' = mBuffers c \/ mBuffers c' = vec_erase iter (mBuffers c).
Proof.
  intros iter. unfold removeBuffer. unfold_m.
  destruct (isCurrent c); simpl; [|auto].
  fold iter.
  destruct (buffer_at (mBuffers c) iter name); simpl; auto.
Qed.
End RegistryFacts.

(** ** The registry stays ordered by the hash of the name *)

Section RegistryOrder.
Context {P : Platform}.

Lemma lower_bound_loop_range {A} (comp : A -> bool) (l : list A) :
  forall count first,
    first <= lower_bound_loop comp l first count <= first + count.
Proof.
  induction count as [count IH] using lt_wf_ind. intros first.
  destruct count as [|c].
  - simp lower_bound_loop. lia.
  - assert (Hstep : half (S c) < S c) by (apply Nat.lt_div2; lia).
    rewrite lower_bound_loop_equation_2.
    remember (half (S c)) as step eqn:Estep.
    destruct (nth_error l (first + step)) as [x|]; simpl; [|lia].
    destruct (comp x); simpl.
    + specialize (IH (c - step) ltac:(lia) (S (first + step))). subst step. lia.
    + specialize (IH step Hstep first). subst step. lia.
Qed.

Lemma lower_bound_le_length {A} (comp : A -> bool) (l : list A) :
  lower_bound comp l <= List.length l.
Proof.
  unfold lower_bound.
  pose proof (lower_bound_loop_range comp l (List.length l) 0). lia.
Qed.

Lemma sorted_by_map {A} (key : A -> Z) (l : list A) :
  sorted_by key l <-> StronglySorted Z.le (map key l).
Proof.
  unfold sorted_by. induction l as [|x l IH]; simpl.
  - split; constructor.
  - split; intros H; inversion H; subst; constructor;
      try (apply IH; assumption).
    + apply Forall_forall. intros z Hz. apply in_map_iff in Hz.
      destruct Hz as [y [<- Hy]]. rewrite Forall_forall in H3. auto.
    + apply Forall_forall. intros y Hy. rewrite Forall_forall in H3.
      apply H3. apply in_map. assumption.
Qed.

Lemma map_replace_at {A B} (f : A -> B) (l : list A) :
  forall i x y, nth_error l i = Some y -> f x = f y ->
                map f (replace_at i x l) = map f l.
Proof.
  unfold replace_at.
  induction l as [|z l IH]; intros i x y Hn Hf.
  - destruct i; discriminate.
  - destruct i as [|i]; simpl in *.
    + inversion Hn; subst. now rewrite Hf.
    + f_equal. eapply IH; eauto.
Qed.

Lemma nth_error_replace_at {A} (l : list A) :
  forall i x, i < List.length l -> nth_error (replace_at i x l) i = Some x.
Proof.
  unfold replace_at.
  induction l as [|z l IH]; intros i x Hi; simpl in Hi; [lia|].
  destruct i as [|i]; simpl; [reflexivity|]. apply IH. lia.
Qed.

Lemma nth_error_vec_insert {A} (l : list A) :
  forall i x, i <= List.length l -> nth_error (vec_insert i x l) i = Some x.
Proof.
  unfold vec_insert.
  induction l as [|z l IH]; intros i x Hi; simpl in Hi.
  - assert (i = 0) by lia. subst. reflexivity.
  - destruct i as [|i]; simpl; [reflexivity|]. apply IH. lia.
Qed.

Lemma buffer_at_Some (l : list ALBuffer) (iter : nat) (name : string) (b : ALBuffer) :
  buffer_at l iter name = Some b -> nth_error l iter = Some b /\ getName b = name.
Proof.
  unfold buffer_at. destruct (nth_error l iter) as [x|]; [|discriminate].
  destruct (String.eqb (getName x) name) eqn:E; [|discriminate].
  intros H; inversion H; subst. apply String.eqb_eq in E. auto.
Qed.

(** What the wait loop returns is the buffer it was given, loaded. *)
Lemma wait_until_loaded_Returns (w : Env) :
  forall fuel k buffer b t,
    wait_until_loaded fuel w k buffer = (Returns b, t) ->
    mLoadStatus b = BufferLoad_Ready /\ mName b = mName buffer /\ mId b = mId buffer.
Proof.
  induction fuel as [|fuel IH]; intros k buffer b t; simpl; [discriminate|].
  unfold getLoadStatus.
  destruct (mLoadStatus buffer) eqn:Hst.
  - destruct (volatile_isLoaded w k).
    + intros H; inversion H; subst; simpl; auto.
    + specialize (IH (S k) buffer b).
      destruct (wait_until_loaded fuel w (S k) buffer) as [r t'].
      intros H; inversion H; subst. eapply IH; reflexivity.
  - intros H; inversion H; subst; auto.
Qed.

Lemma lower_bound_registry (name : string) (l : list ALBuffer) :
  registry_sorted l ->
  lower_bound (hash_less name) l = partition_point (hash_less name) l.
Proof.
  intros Hs. apply lower_bound_partition_point.
  exact (sorted_partitioned (hasher name) Hs).
Qed.

Lemma registry_sorted_insert (name : string) (b : ALBuffer) (l : list ALBuffer) :
  registry_sorted l -> getName b = name ->
  registry_sorted (vec_insert (lower_bound (hash_less name) l) b l).
Proof.
  intros Hs Hb. rewrite lower_bound_registry by assumption. subst name.
  exact (sorted_vec_insert b Hs).
Qed.

Lemma getBuffer_sorted (fuel : nat) (g : Globals) (w : Env) (name : string)
    (c : ALContext) :
  registry_sorted (mBuffers c) ->
  registry_sorted (mBuffers (state_after (getBuffer fuel g w name c))).
Proof.
  intros Hs. pose proof (getBuffer_cases fuel g w name c) as Hc.
  unfold state_after.
  destruct (getBuffer fuel g w name c) as [[[b|e|] c'] t]; simpl in *.
  - destruct Hc as [_ [[buffer [Hat [Hw ->]]]|[_ [decoder [t1 Hc]]]]]; simpl.
    + apply buffer_at_Some in Hat. destruct Hat as [Hn _].
      apply wait_until_loaded_Returns in Hw. destruct Hw as [_ [Hname _]].
      unfold registry_sorted in *. apply (proj2 (sorted_by_map _ _)).
      rewrite (@map_replace_at _ _ name_hash (mBuffers c) _ b buffer).
      * apply (proj1 (sorted_by_map _ _)). assumption.
      * assumption.
      * unfold name_hash, getName. now rewrite Hname.
    + destruct Hc as (_ & _ & _ & _ & _ & _ & Hb & ->). simpl.
      apply registry_sorted_insert; [assumption|]. subst b. reflexivity.
  - destruct Hc as [-> _]. assumption.
  - subst. assumption.
Qed.

Lemma getBufferAsync_sorted (fuel : nat) (g : Globals) (w : Env) (name : string)
    (c : ALContext) :
  registry_sorted (mBuffers c) ->
  registry_sorted (mBuffers (state_after (getBufferAsync fuel g w name c))).
Proof.
  intros Hs. pose proof (getBufferAsync_cases fuel g w name c) as Hc.
  unfold state_after.
  destruct (getBufferAsync fuel g w name c) as [[[b|e|] c'] t]; simpl in *.
  - destruct Hc as [_ [(_ & -> & _)|[_ (decoder & t1 & bid & Hc)]]]; [assumption|].
    destruct Hc as (_ & _ & _ & _ & Hb & -> & _).
    apply registry_sorted_insert; [assumption|]. subst b. reflexivity.
  - destruct Hc as [-> _]. assumption.
  - rewrite Hc. assumption.
Qed.

Lemma removeBuffer_sorted (name : string) (c : ALContext) :
  registry_sorted (mBuffers c) ->
  registry_sorted (mBuffers (state_after (removeBuffer name c))).
Proof.
  intros Hs. destruct (removeBuffer_cases name c) as [H|H]; rewrite H.
  - assumption.
  - apply StronglySorted_vec_erase. assumption.
Qed.

Lemma run_registry_sorted (ops : list RegistryOp) :
  forall c, registry_sorted (mBuffers c) ->
            registry_sorted (mBuffers (run_registry ops c)).
Proof.
  unfold run_registry.
  induction ops as [|op ops IH]; intros c Hs; simpl; [assumption|].
  apply IH. destruct op; simpl.
  - apply getBuffer_sorted; assumption.
  - apply getBufferAsync_sorted; assumption.
  - apply removeBuffer_sorted; assumption.
Qed.
End RegistryOrder.

(** ** Looking up a registered name *)

Section Lookup.
Context {P : Platform}.

(** In an ordered registry the search ends on an entry named [name]
    whenever there is one and no other name of the registry has its
    hash. *)
Lemma lookup_finds (name : string) (l : list ALBuffer) (b : ALBuffer) :
  registry_sorted l -> In b l -> getName b = name -> no_collision name l ->
  exists b', buffer_at l (lower_bound (hash_less name) l) name = Some b'.
Proof.
  intros Hs Hin Hname Hnc.
  rewrite lower_bound_registry by assumption.
  destruct (@partition_point_hits _ name_hash (hasher name) l Hs b Hin)
    as [x [Hx Hkey]].
  { unfold name_hash. now rewrite Hname. }
  exists x. unfold buffer_at.
  change (partition_point (hash_less name) l)
    with (partition_point (fun y => (name_hash y <? hasher name)%Z) l).
  rewrite Hx.
  rewrite (Hnc x (nth_error_In _ _ Hx) Hkey), String.eqb_refl. reflexivity.
Qed.

Lemma getBuffer_found (fuel : nat) (g : Globals) (w : Env) (name : string)
    (c : ALContext) (buffer : ALBuffer) :
  isCurrent c = true ->
  buffer_at (mBuffers c) (lower_bound (hash_less name) (mBuffers c)) name
    = Some buffer ->
  getBuffer fuel g w name c =
    match wait_until_loaded fuel w 0 buffer with
    | (Returns b, t) =>
        (Returns b,
         set_mBuffers c
           (replace_at (lower_bound (hash_less name) (mBuffers c)) b (mBuffers c)),
         t)
    | (Throws e, t) => (Throws e, c, t)
    | (OutOfFuel, t) => (OutOfFuel, c, t)
    end.
Proof.
  intros Hcur Hat. unfold getBuffer. unfold_m. rewrite Hcur. simpl.
  rewrite Hat.
  destruct (wait_until_loaded fuel w 0 buffer) as [[b|e|] t]; simpl;
    rewrite ?app_nil_r; reflexivity.
Qed.

Lemma getBufferAsync_found (fuel : nat) (g : Globals) (w : Env) (name : string)
    (c : ALContext) (buffer : ALBuffer) :
  isCurrent c = true ->
  buffer_at (mBuffers c) (lower_bound (hash_less name) (mBuffers c)) name
    = Some buffer ->
  getBufferAsync fuel g w name c = (Returns buffer, c, []).
Proof.
  intros Hcur Hat. unfold getBufferAsync. unfold_m. rewrite Hcur. simpl.
  rewrite Hat. reflexivity.
Qed.

(** The wait loop, read by read: a buffer that is ready is returned at
    once; a pending one is returned, ready, at the first read of the
    loaded flag that is set, after one yield for each earlier read. *)
Lemma wait_until_loaded_ready (w : Env) (fuel k : nat) (buffer : ALBuffer) :
  mLoadStatus buffer = BufferLoad_Ready ->
  wait_until_loaded (S fuel) w k buffer = (Returns buffer, []).
Proof. intros H. simpl. unfold getLoadStatus. rewrite H. reflexivity. Qed.

End Lookup.

(** ** The order of the registry *)

(** C3 (as amended). The buffer registry is at all times sorted by the
    hash of the buffer name ([std::hash] of the name, in ascending order),
    not by the name itself: starting from an empty registry, after any
    sequence of [getBuffer], [getBufferAsync] and [removeBuffer] calls,
    whatever their outcome, the registry is in ascending order of the
    hashes of its names, and the lookup, a binary search over that order
    ([std::lower_bound]), ends on the first entry whose hash is not below
    the hash of the name looked up. The buffers "b", "a", "c", inserted in
    that order, are therefore enumerated in the order of their hashes. *)
Theorem registry_sorted_by_name_hash {P : Platform}
    (ops : list RegistryOp) (c : ALContext) :
  mBuffers c = [] ->
  registry_sorted (mBuffers (run_registry ops c)) /\
  forall name,
    lower_bound (hash_less name) (mBuffers (run_registry ops c))
    = partition_point (hash_less name) (mBuffers (run_registry ops c)).
Proof.
  intros Hempty.
  assert (Hs : registry_sorted (mBuffers (run_registry ops c))).
  { apply run_registry_sorted. rewrite Hempty. constructor. }
  split; [assumption|].
  intros name. apply lower_bound_registry. assumption.
Qed.

(** ** A name that is already registered *)


(** ** What [createDecoder] can throw *)

Section DecoderErrors.
Context {P : Platform}.

Lemma GetDecoder_errors (g : Globals) (name : string) (file : istream)
    (e : Error) (t : list Event) :
  GetDecoder g name file = (Throws e, t) -> decoder_error e.
Proof.
  unfold GetDecoder.
  destruct (GetDecoder_range file (sDecoders g)) as [[d|file1|] t1].
  - discriminate.
  - destruct (GetDecoder_range file1 sDefaultDecoders) as [[d|file2|] t2];
      intros H; inversion H; subst; exact I.
  - intros H; inversion H; subst; exact I.
Qed.

Lemma find_substitute_errors (g : Globals) (h : MessageHandler) :
  forall fuel name c e c' t,
    find_substitute fuel g h name c = (Throws e, c', t) -> decoder_error e.
Proof.
  induction fuel as [|fuel IH]; intros name c e c' t; simpl; [discriminate|].
  unfold_m. simpl.
  destruct (String.eqb (resourceNotFound h name) EmptyString).
  - intros H; inversion H; subst; exact I.
  - destruct (FileIOFactory_get g (resourceNotFound h name)); [discriminate|].
    specialize (IH (resourceNotFound h name) c e).
    destruct (find_substitute fuel g h (resourceNotFound h name) c)
      as [[[found|e'|] c1] t1]; intros H; inversion H; subst.
    eapply IH; reflexivity.
Qed.

Lemma createDecoder_errors (fuel : nat) (g : Globals) (name : string)
    (c : ALContext) (e : Error) (c' : ALContext) (t : list Event) :
  createDecoder fuel g name c = (Throws e, c', t) -> decoder_error e.
Proof.
  unfold createDecoder.
  destruct (FileIOFactory_get g name) as [file|].
  - unfold lift. intros H. inversion H as [[He Hc Ht]].
    destruct (GetDecoder g name file) as [r t'] eqn:HG. simpl in *. subst.
    eapply GetDecoder_errors; eassumption.
  - unfold_m. simpl. destruct (mMessage c) as [h|].
    + destruct (find_substitute fuel g h name c) as [[[found|e'|] c1] t1] eqn:Hf.
      * destruct (GetDecoder g (fst found) (snd found)) as [r t'] eqn:HG. simpl.
        intros H; inversion H; subst.
        eapply GetDecoder_errors; eassumption.
      * intros H; inversion H; subst.
        eapply find_substitute_errors; eassumption.
      * discriminate.
    + intros H; inversion H; subst; exact I.
Qed.
End DecoderErrors.

(** ** The synchronous path returns loaded buffers *)

Section SyncFetch.
Context {P : Platform}.

End SyncFetch.

(** ** A fetch that fails leaves the registry alone *)

(** C9. [getBuffer] and [getBufferAsync] are atomic with respect to the
    registry on failure. A call that throws (context not current, resource
    not openable, rewind failure, no decoder, no samples, unsupported
    format, or a failure to generate or fill the hardware buffer) leaves
    the context, hence the registry, exactly as it was; when [getBuffer]
    fails to upload, the last thing it does is to delete the buffer name
    it generated. An entry is inserted only by a call that returns, after
    the decoder was created, the frame count and the format were checked
    and the hardware buffer was allocated (and, for [getBuffer], filled)
    without error. *)
Theorem failed_fetch_leaves_registry {P : Platform}
    (fuel : nat) (g : Globals) (w : Env) (name : string) (c : ALContext) :
  let iter := lower_bound (hash_less name) (mBuffers c) in
  let bid := match al_gen w with Some id => id | None => 0%Z end in
  match getBuffer fuel g w name c with
  | (Throws e, c', t) =>
      c' = c /\
      (e = FailedToBufferData ->
       exists t0 t1, t = t0 ++ EvAlGenBuffers bid :: t1 ++ [EvAlDeleteBuffers bid])
  | (Returns b, c', t) =>
      map getName (mBuffers c') = map getName (mBuffers c)
      \/ (mBuffers c' = vec_insert iter b (mBuffers c) /\
          exists decoder t1,
            createDecoder fuel g name c = (Returns decoder, c, t1) /\
            dec_read decoder (dec_length decoder) <> 0%Z /\
            GetFormat (dec_channels decoder) (dec_sampleType decoder) <> AL_NONE /\
            al_gen w = Some bid /\ al_data_ok w = true /\
            (SOFT_loop_points c = true -> al_loop_ok w = true))
  | (OutOfFuel, c', _) => c' = c
  end
  /\
  match getBufferAsync fuel g w name c with
  | (Throws e, c', t) => c' = c
  | (Returns b, c', t) =>
      c' = c
      \/ (mBuffers c' = vec_insert iter b (mBuffers c) /\
          exists decoder t1,
            createDecoder fuel g name c = (Returns decoder, c, t1) /\
            dec_length decoder <> 0%Z /\
            GetFormat (dec_channels decoder) (dec_sampleType decoder) <> AL_NONE /\
            al_gen w = Some (mId b))
  | (OutOfFuel, c', _) => mBuffers c' = mBuffers c
  end.
Proof.
  intros iter bid. split.
  - pose proof (getBuffer_cases fuel g w name c) as Hc.
    fold iter bid in Hc.
    destruct (getBuffer fuel g w name c) as [[[b|e|] c'] t].
    + destruct Hc as [_ [[buffer [Hat [Hw ->]]]|[_ [decoder [t1 Hc]]]]].
      * left. apply buffer_at_Some in Hat. destruct Hat as [Hn _].
        apply wait_until_loaded_Returns in Hw. destruct Hw as (_ & Hnm & _).
        simpl. eapply map_replace_at; [eassumption|].
        unfold getName. assumption.
      * right. destruct Hc as (Hd & Hf & Hfmt & Hgen & Hdata & Hloop & Hb & ->).
        split; [reflexivity|]. exists decoder, t1. auto 7.
    + destruct Hc as [-> Hc]. split; [reflexivity|]. intros ->.
      destruct Hc as [[_ Hc]|[Hc|[Hc|[Hc|(_ & _ & Hc)]]]]; try discriminate.
      * apply createDecoder_errors in Hc. contradiction.
      * assumption.
    + assumption.
  - pose proof (getBufferAsync_cases fuel g w name c) as Hc.
    fold iter in Hc.
    destruct (getBufferAsync fuel g w name c) as [[[b|e|] c'] t].
    + destruct Hc as [_ [(_ & -> & _)|[_ (decoder & t1 & bid' & Hc)]]]; [auto|].
      right. destruct Hc as (Hd & Hf & Hfmt & Hgen & Hb & Hins & _).
      split; [assumption|]. exists decoder, t1. subst b. auto.
    + destruct Hc as [-> _]. reflexivity.
    + assumption.
Qed.

(** ** The source pool *)

Section SourcePool.
Context {P : Platform}.
Hypothesis addr_injective : forall i j, addr i = addr j -> i = j.

Lemma strictly_sorted_NoDup {A} (key : A -> Z) (l : list A) :
  strictly_sorted_by key l -> NoDup l.
Proof.
  induction 1 as [|x l Hs IH Hall]; constructor; [|assumption].
  intros Hin. rewrite Forall_forall in Hall. specialize (Hall _ Hin). lia.
Qed.

Lemma nth_error_split_at {A} (l : list A) :
  forall i x, nth_error l i = Some x -> l = firstn i l ++ x :: skipn (S i) l.
Proof.
  induction l as [|y l IH]; intros i x Hn.
  - destruct i; discriminate.
  - destruct i as [|i]; simpl in *.
    + inversion Hn; reflexivity.
    + f_equal. apply IH. assumption.
Qed.

Lemma not_In_vec_erase {A} (l : list A) (i : nat) (x : A) :
  NoDup l -> nth_error l i = Some x -> ~ In x (vec_erase i l).
Proof.
  intros Hnd Hn. unfold vec_erase.
  rewrite (nth_error_split_at _ _ Hn) in Hnd.
  apply NoDup_remove_2 in Hnd. exact Hnd.
Qed.

Lemma lower_bound_used (source : nat) (l : list nat) :
  strictly_sorted_by addr l ->
  lower_bound (ptr_less source) l
  = partition_point (fun p => (addr p <? addr source)%Z) l.
Proof.
  intros Hs. apply lower_bound_partition_point.
  exact (sorted_partitioned (addr source) (strictly_sorted_sorted Hs)).
Qed.

(** The search in the used-source index finds a source exactly when it
    is there. *)
Lemma ptr_at_In (source : nat) (l : list nat) :
  strictly_sorted_by addr l ->
  ptr_at l (lower_bound (ptr_less source) l) source = true <-> In source l.
Proof.
  intros Hs. rewrite lower_bound_used by assumption. unfold ptr_at. split.
  - destruct (nth_error l _) as [p|] eqn:Hn; [|discriminate].
    intros H. apply Z.eqb_eq in H. apply addr_injective in H. subst p.
    eapply nth_error_In; eassumption.
  - intros Hin.
    destruct (@partition_point_hits _ addr (addr source) l
                (strictly_sorted_sorted Hs) source Hin eq_refl) as [x [Hx Hk]].
    rewrite Hx. apply Z.eqb_eq. assumption.
Qed.

Lemma createSource_run (c : ALContext) :
  isCurrent c = true ->
  let source := match mFreeSources c with
                | [] => List.length (mAllSources c)
                | _ :: _ => last (mFreeSources c) 0
                end in
  let all := match mFreeSources c with
             | [] => mAllSources c ++ [ALSource_new]
             | _ :: _ => mAllSources c
             end in
  let iter := lower_bound (ptr_less source) (mUsedSources c) in
  let used := if ptr_at (mUsedSources c) iter source then mUsedSources c
              else vec_insert iter source (mUsedSources c) in
  createSource c = (Returns source, set_sources c all (tl (mFreeSources c)) used, []).
Proof.
  intros Hcur. unfold createSource. unfold_m. rewrite Hcur. simpl.
  destruct (mFreeSources c) as [|p rest] eqn:Hfree; simpl.
  - destruct (ptr_at _ _ _); simpl; reflexivity.
  - destruct (ptr_at _ _ _); simpl; reflexivity.
Qed.

Lemma freeSource_run (source : nat) (c : ALContext) :
  let iter := lower_bound (ptr_less source) (mUsedSources c) in
  let used := if ptr_at (mUsedSources c) iter source
              then vec_erase iter (mUsedSources c) else mUsedSources c in
  freeSource source c
  = (Returns tt, set_sources c (mAllSources c) (mFreeSources c ++ [source]) used, []).
Proof.
  unfold freeSource. unfold_m. simpl.
  destruct (ptr_at _ _ _); simpl; reflexivity.
Qed.

Lemma last_In {A} (l : list A) (d : A) : l <> [] -> In (last l d) l.
Proof.
  induction l as [|x l IH]; intros Hne; [congruence|].
  destruct l as [|y l]; [left; reflexivity|].
  right. apply IH. discriminate.
Qed.

Lemma ptr_at_source (l : list nat) (iter source : nat) :
  ptr_at l iter source = true -> nth_error l iter = Some source.
Proof.
  unfold ptr_at. destruct (nth_error l iter) as [p|]; [|discriminate].
  intros H. apply Z.eqb_eq in H. apply addr_injective in H. now subst.
Qed.

Lemma createSource_pool_ok (c : ALContext) :
  pool_ok c -> pool_ok (state_after (createSource c)).
Proof.
  intros (Hsorted & Hused & Hfree).
  destruct (isCurrent c) eqn:Hcur.
  2:{ unfold createSource. unfold_m. rewrite Hcur. simpl.
      repeat split; assumption. }
  rewrite (createSource_run c Hcur). unfold state_after, pool_ok. simpl.
  set (source := match mFreeSources c with
                 | [] => List.length (mAllSources c)
                 | _ :: _ => last (mFreeSources c) 0
                 end).
  set (all := match mFreeSources c with
              | [] => mAllSources c ++ [ALSource_new]
              | _ :: _ => mAllSources c
              end).
  assert (Hall : List.length (mAllSources c) <= List.length all).
  { unfold all. destruct (mFreeSources c); [rewrite length_app; simpl|]; lia. }
  assert (Hsrc : source < List.length all).
  { unfold source, all. destruct (mFreeSources c) as [|p rest] eqn:Hf.
    - rewrite length_app. simpl. lia.
    - apply Hfree. rewrite <- Hf. apply last_In. rewrite Hf. discriminate. }
  split; [|split].
  - destruct (ptr_at _ _ source) eqn:Hat; [assumption|].
    rewrite lower_bound_used in * by assumption.
    apply strictly_sorted_vec_insert; [assumption|].
    intros y Hy Heq. unfold ptr_at in Hat. rewrite Hy in Hat.
    apply Z.eqb_neq in Hat. contradiction.
  - intros p Hp.
    destruct (ptr_at _ _ source).
    + specialize (Hused _ Hp). lia.
    + apply In_vec_insert in Hp. destruct Hp as [->|Hp]; [assumption|].
      specialize (Hused _ Hp). lia.
  - intros p Hp.
    assert (In p (mFreeSources c)).
    { destruct (mFreeSources c); [contradiction|]. right. exact Hp. }
    specialize (Hfree _ H). lia.
Qed.

Lemma freeSource_pool_ok (source : nat) (c : ALContext) :
  source < List.length (mAllSources c) ->
  pool_ok c -> pool_ok (state_after (freeSource source c)).
Proof.
  intros Hsrc (Hsorted & Hused & Hfree).
  rewrite freeSource_run. unfold state_after, pool_ok. simpl.
  split; [|split].
  - destruct (ptr_at _ _ _); [|assumption].
    apply StronglySorted_vec_erase. assumption.
  - intros p Hp. apply Hused.
    destruct (ptr_at _ _ _); [|assumption].
    eapply In_vec_erase; eassumption.
  - intros p Hp. apply in_app_iff in Hp.
    destruct Hp as [Hp|[<-|[]]]; auto.
Qed.

Lemma run_sources_pool_ok (ops : list SourceOp) :
  forall c, pool_ok c -> valid_source_ops ops c -> pool_ok (run_sources ops c).
Proof.
  unfold run_sources.
  induction ops as [|op ops IH]; intros c Hok Hvalid; simpl; [assumption|].
  destruct Hvalid as [Hop Hrest].
  apply IH; [|assumption].
  destruct op; simpl.
  - apply createSource_pool_ok. assumption.
  - apply freeSource_pool_ok; assumption.
Qed.

Lemma run_sources_isCurrent (ops : list SourceOp) :
  forall c, isCurrent (run_sources ops c) = isCurrent c.
Proof.
  unfold run_sources.
  induction ops as [|op ops IH]; intros c; simpl; [reflexivity|].
  rewrite IH. destruct op; simpl.
  - destruct (isCurrent c) eqn:Hcur.
    + rewrite (createSource_run c Hcur). simpl. assumption.
    + unfold createSource. unfold_m. rewrite Hcur. simpl. assumption.
  - rewrite freeSource_run. reflexivity.
Qed.

(** No more sources are in use than the context owns. *)
Lemma pool_ok_live_bound (c : ALContext) :
  pool_ok c -> List.length (mUsedSources c) <= List.length (mAllSources c).
Proof.
  intros (Hsorted & Hused & _).
  rewrite <- (length_seq (List.length (mAllSources c)) 0).
  apply NoDup_incl_length.
  - eapply strictly_sorted_NoDup; eassumption.
  - intros p Hp. apply in_seq. specialize (Hused _ Hp). lia.
Qed.
End SourcePool.

(** What does hold of the pool. For every sequence of [createSource] and
    [freeSource] calls on a current context (releasing only sources of
    the context): the number of sources in the used-source index never
    exceeds the number of source objects allocated; [createSource] allocates a new object
    exactly when the free list is empty, and otherwise returns a source of
    the free list and allocates nothing; [freeSource] removes the source
    from the used-source index, and the source just released is the one
    the next [createSource] returns, without any allocation. *)
Theorem source_free_list_reuse {P : Platform}
    (ops : list SourceOp) (c : ALContext) (source : nat) :
  (forall i j, addr i = addr j -> i = j) ->
  isCurrent c = true ->
  pool_ok c ->
  valid_source_ops ops c ->
  let c1 := run_sources ops c in
  List.length (mUsedSources c1) <= List.length (mAllSources c1)
  /\
  (exists s c2,
      createSource c1 = (Returns s, c2, []) /\
      In s (mUsedSources c2) /\
      match mFreeSources c1 with
      | [] => s = List.length (mAllSources c1) /\
              mAllSources c2 = mAllSources c1 ++ [ALSource_new]
      | _ :: _ => In s (mFreeSources c1) /\ mAllSources c2 = mAllSources c1
      end)
  /\
  (source < List.length (mAllSources c1) ->
   let c2 := state_after (freeSource source c1) in
   ~ In source (mUsedSources c2) /\
   exists c3,
     createSource c2 = (Returns source, c3, []) /\
     mAllSources c3 = mAllSources c1 /\
     In source (mUsedSources c3)).
Proof.
  intros Hinj Hcur Hok Hvalid c1.
  assert (Hok1 : pool_ok c1) by (apply run_sources_pool_ok; assumption).
  assert (Hcur1 : isCurrent c1 = true)
    by (unfold c1; rewrite run_sources_isCurrent; assumption).
  assert (Hin_new : forall c0 s c' t, isCurrent c0 = true -> pool_ok c0 ->
            createSource c0 = (Returns s, c', t) -> In s (mUsedSources c')).
  { intros c0 s c' t Hc0 (Hs0 & _ & _) Hout.
    rewrite (createSource_run c0 Hc0) in Hout.
    inversion Hout as [[Hs Hc' Ht]]. simpl. rewrite Hs.
    destruct (ptr_at _ _ s) eqn:Hat.
    - apply (ptr_at_In Hinj s Hs0). exact Hat.
    - apply In_vec_insert. left. reflexivity. }
  split; [|split].
  - apply pool_ok_live_bound. assumption.
  - pose proof (createSource_run c1 Hcur1) as Hrun. simpl in Hrun.
    eexists. eexists. split; [exact Hrun|]. split.
    + eapply Hin_new; [exact Hcur1|exact Hok1|exact Hrun].
    + simpl. destruct (mFreeSources c1) as [|p rest] eqn:Hf.
      * split; reflexivity.
      * split; [|reflexivity]. apply last_In. discriminate.
  - intros Hsrc c2.
    destruct Hok1 as (Hs1 & Hu1 & Hf1).
    assert (Hok2 : pool_ok c2).
    { apply freeSource_pool_ok; [assumption|]. repeat split; assumption. }
    assert (Hc2 : c2 = set_sources c1 (mAllSources c1) (mFreeSources c1 ++ [source])
                     (if ptr_at (mUsedSources c1)
                           (lower_bound (ptr_less source) (mUsedSources c1)) source
                      then vec_erase (lower_bound (ptr_less source) (mUsedSources c1))
                                     (mUsedSources c1)
                      else mUsedSources c1)).
    { unfold c2. rewrite freeSource_run. reflexivity. }
    split.
    + rewrite Hc2. simpl.
      destruct (ptr_at _ _ source) eqn:Hat.
      * apply not_In_vec_erase.
        -- eapply strictly_sorted_NoDup; eassumption.
        -- apply (ptr_at_source Hinj). assumption.
      * intros Hin. apply (ptr_at_In Hinj source Hs1) in Hin. congruence.
    + assert (Hcur2 : isCurrent c2 = true) by (rewrite Hc2; assumption).
      pose proof (createSource_run c2 Hcur2) as Hrun. simpl in Hrun.
      assert (Hfree2 : mFreeSources c2 = mFreeSources c1 ++ [source])
        by (rewrite Hc2; reflexivity).
      assert (Hall2 : mAllSources c2 = mAllSources c1)
        by (rewrite Hc2; reflexivity).
      assert (Hlast : last (mFreeSources c2) 0 = source)
        by (rewrite Hfree2; apply last_last).
      destruct (mFreeSources c2) as [|p rest] eqn:Hf2.
      { destruct (mFreeSources c1); discriminate. }
      rewrite Hlast in Hrun.
      eexists. split; [exact Hrun|]. split; [simpl; assumption|].
      eapply Hin_new; [exact Hcur2|exact Hok2|exact Hrun].
Qed.

(** ** Stealing a voice *)

Section VoiceStealing.
Context {P : Platform}.

Lemma lowest_step_extends (all : list ALSource) (scanned : list nat)
    (acc : option (nat * ALuint)) (q : nat) :
  lowest_of all scanned acc ->
  lowest_of all (scanned ++ [q]) (lowest_step all acc q).
Proof.
  intros Hacc. unfold lowest_step.
  destruct (nth_error all q) as [s|] eqn:Hq.
  - destruct (src_id s =? 0)%Z eqn:Hid; simpl.
    + (* q holds no voice *)
      apply Z.eqb_eq in Hid.
      destruct acc as [[p prio]|]; simpl in *.
      * destruct Hacc as (sp & before & after & -> & Hp & Hpid & Hprio & Hb & Ha).
        exists sp, before, (after ++ [q]). rewrite <- app_assoc. simpl.
        repeat split; auto.
        intros q' sq Hin Hn Hne. apply in_app_iff in Hin.
        destruct Hin as [Hin|[<-|[]]]; [eauto|]. congruence.
      * intros q' sq Hin Hn. apply in_app_iff in Hin.
        destruct Hin as [Hin|[<-|[]]]; [eauto|]. congruence.
    + apply Z.eqb_neq in Hid.
      destruct acc as [[p prio]|]; simpl in *.
      * destruct Hacc as (sp & before & after & -> & Hp & Hpid & Hprio & Hb & Ha).
        destruct (src_priority s <? prio)%Z eqn:Hlt.
        -- (* q is strictly lower: it becomes the lowest *)
           apply Z.ltb_lt in Hlt.
           exists s, (before ++ p :: after), []. repeat split; auto.
           ++ intros q' sq Hin Hn Hne. apply in_app_iff in Hin.
              destruct Hin as [Hin|[<-|Hin]].
              ** specialize (Hb _ _ Hin Hn Hne). lia.
              ** assert (sq = sp) by congruence. subst. lia.
              ** specialize (Ha _ _ Hin Hn Hne). lia.
           ++ intros q' sq [].
        -- apply Z.ltb_ge in Hlt.
           exists sp, before, (after ++ [q]). rewrite <- app_assoc. simpl.
           repeat split; auto.
           intros q' sq Hin Hn Hne. apply in_app_iff in Hin.
           destruct Hin as [Hin|[<-|[]]]; [eauto|].
           assert (sq = s) by congruence. subst. lia.
      * exists s, scanned, []. repeat split; auto.
        -- intros q' sq Hin Hn Hne. specialize (Hacc _ _ Hin Hn). congruence.
        -- intros q' sq [].
  - destruct acc as [[p prio]|]; simpl in *.
    + destruct Hacc as (sp & before & after & -> & Hp & Hpid & Hprio & Hb & Ha).
      exists sp, before, (after ++ [q]). rewrite <- app_assoc. simpl.
      repeat split; auto.
      intros q' sq Hin Hn Hne. apply in_app_iff in Hin.
      destruct Hin as [Hin|[<-|[]]]; [eauto|]. congruence.
    + intros q' sq Hin Hn. apply in_app_iff in Hin.
      destruct Hin as [Hin|[<-|[]]]; [eauto|]. congruence.
Qed.

Lemma fold_lowest (all : list ALSource) (l : list nat) :
  forall scanned acc,
    lowest_of all scanned acc ->
    lowest_of all (scanned ++ l) (fold_left (lowest_step all) l acc).
Proof.
  induction l as [|q l IH]; intros scanned acc Hacc; simpl.
  - rewrite app_nil_r. assumption.
  - replace (scanned ++ q :: l) with ((scanned ++ [q]) ++ l)
      by (rewrite <- app_assoc; reflexivity).
    apply IH. apply lowest_step_extends. assumption.
Qed.

(** The scan of [getSourceId] finds the first source of lowest priority
    among the used sources that hold a voice. *)
Lemma find_lowest_spec (c : ALContext) :
  lowest_of (mAllSources c) (mUsedSources c) (find_lowest c).
Proof.
  unfold find_lowest.
  apply (fold_lowest (mAllSources c) (mUsedSources c) [] None).
  intros q sq [].
Qed.

Lemma getSourceId_no_steal (makeStopped : nat -> M unit) (w : Env)
    (maxprio : ALuint) (c : ALContext) :
  isCurrent c = true -> mSourceIds c = [] -> al_gen w = None ->
  match find_lowest c with
  | Some (_, prio) => (maxprio <= prio)%Z
  | None => True
  end ->
  getSourceId makeStopped w maxprio c
  = (Throws NoAvailableSources, c, [EvAlGenSources]).
Proof.
  intros Hcur Hempty Hgen Hlow. unfold getSourceId, take_source_id. unfold_m.
  rewrite Hcur. simpl. rewrite Hempty, Hgen. simpl.
  destruct (find_lowest c) as [[lowest prio]|]; simpl.
  - apply Z.ltb_ge in Hlow. rewrite Hlow. simpl. rewrite Hempty. reflexivity.
  - rewrite Hempty. reflexivity.
Qed.

Lemma getSourceId_steal (makeStopped : nat -> M unit) (w : Env)
    (maxprio : ALuint) (c : ALContext) (lowest : nat) (prio : ALuint)
    (c1 : ALContext) (t1 : list Event) :
  isCurrent c = true -> mSourceIds c = [] -> al_gen w = None ->
  find_lowest c = Some (lowest, prio) ->
  (prio < maxprio)%Z ->
  makeStopped lowest c = (Returns tt, c1, t1) ->
  getSourceId makeStopped w maxprio c
  = (match mSourceIds c1 with
     | [] => Throws NoAvailableSources
     | id :: _ => Returns id
     end,
     match mSourceIds c1 with
     | [] => c1
     | _ :: rest => set_mSourceIds c1 rest
     end,
     EvAlGenSources
       :: t1 ++ (if non_null (mMessage c1) then [EvSourceStopped lowest true] else [])).
Proof.
  intros Hcur Hempty Hgen Hlow Hlt Hstop.
  unfold getSourceId, take_source_id. unfold_m.
  rewrite Hcur. simpl. rewrite Hempty, Hgen. simpl. rewrite Hlow.
  apply Z.ltb_lt in Hlt. rewrite Hlt. rewrite Hstop. simpl.
  destruct (non_null (mMessage c1)); simpl;
    destruct (mSourceIds c1); simpl; rewrite ?app_nil_r; reflexivity.
Qed.
End VoiceStealing.

(** C2. When no voice is free and [alGenSources] fails, the
    scan finds, among the used sources that hold a voice, the first one of
    lowest priority. That source is forcibly stopped ([makeStopped]) if
    and only if its priority is strictly lower than the priority
    requested, and then, if a message handler is installed, and only
    then, [sourceStopped] is called on it with [wasForced = true]; with no
    handler installed the source is stopped without any notification. If
    afterwards the stack of free voices is still empty the call throws
    "No available sources" ([ResourceExhausted]); in particular a request
    over a full pool whose sources all have the priority requested fails
    in that way, with no source stopped. *)
Theorem getSourceId_steals_lowest
    (makeStopped : nat -> M unit) (w : Env) (maxprio : ALuint) (c : ALContext) :
  isCurrent c = true ->
  mSourceIds c = [] ->
  al_gen w = None ->
  lowest_of (mAllSources c) (mUsedSources c) (find_lowest c)
  /\
  match find_lowest c with
  | Some (lowest, prio) =>
      ((prio < maxprio)%Z ->
       forall c1 t1,
         makeStopped lowest c = (Returns tt, c1, t1) ->
         getSourceId makeStopped w maxprio c
         = (match mSourceIds c1 with
            | [] => Throws NoAvailableSources
            | id :: _ => Returns id
            end,
            match mSourceIds c1 with
            | [] => c1
            | _ :: rest => set_mSourceIds c1 rest
            end,
            EvAlGenSources
              :: t1 ++ (if non_null (mMessage c1)
                        then [EvSourceStopped lowest true] else [])))
      /\
      ((maxprio <= prio)%Z ->
       getSourceId makeStopped w maxprio c
       = (Throws NoAvailableSources, c, [EvAlGenSources]))
  | None =>
      getSourceId makeStopped w maxprio c
      = (Throws NoAvailableSources, c, [EvAlGenSources])
  end
  /\
  error_kind NoAvailableSources = Some ResourceExhausted
  /\
  ((forall q sq, In q (mUsedSources c) -> nth_error (mAllSources c) q = Some sq ->
                 src_priority sq = maxprio) ->
   getSourceId makeStopped w maxprio c
   = (Throws NoAvailableSources, c, [EvAlGenSources])).
Proof.
  intros Hcur Hempty Hgen.
  pose proof (find_lowest_spec c) as Hspec.
  split; [assumption|]. split; [|split; [reflexivity|]].
  - destruct (find_lowest c) as [[lowest prio]|] eqn:Hlow.
    + split.
      * intros Hlt c1 t1 Hstop.
        eapply getSourceId_steal; eassumption.
      * intros Hge. apply getSourceId_no_steal; auto. rewrite Hlow. assumption.
    + apply getSourceId_no_steal; auto. rewrite Hlow. exact I.
  - intros Hequal. apply getSourceId_no_steal; auto.
    destruct (find_lowest c) as [[lowest prio]|]; [|exact I].
    simpl in Hspec.
    destruct Hspec as (s & before & after & Hused & Hn & _ & Hprio & _).
    rewrite <- Hprio. rewrite (Hequal lowest s); [lia| |assumption].
    rewrite Hused. apply in_app_iff. right. left. reflexivity.
Qed.

(** ** Destroying a context *)

(** C8. [destroy] throws "Context is in use" when the
    reference count is not zero and "Trying to destroy a context with
    buffers" when the registry is not empty (both [InvalidOperation]), and
    then leaves the context as it was. With no reference and an empty
    registry it succeeds and clears the hardware context; the worker is
    signalled and joined only if its thread was started: when the thread
    is joinable the quit flag is set, the worker is woken and joined, in
    that order, before [alcDestroyContext]; when it is not, the context is
    torn down at once and the quit flag is left as it was. *)
Theorem destroy_guards (c : ALContext) :
  (mRefs c <> 0%Z -> destroy c = (Throws ContextInUse, c, []))
  /\
  (mRefs c = 0%Z -> mBuffers c <> [] -> destroy c = (Throws ContextHasBuffers, c, []))
  /\
  error_kind ContextInUse = Some InvalidOperation
  /\
  error_kind ContextHasBuffers = Some InvalidOperation
  /\
  (mRefs c = 0%Z -> mBuffers c = [] ->
   (mThread_joinable c = true ->
    destroy c
    = (Returns tt, set_mContext (set_thread c false true) None,
       [EvQuitThread; EvNotifyAll; EvThreadJoin; EvAlcDestroyContext; EvRemoveContext]))
   /\
   (mThread_joinable c = false ->
    destroy c
    = (Returns tt, set_mContext c None, [EvAlcDestroyContext; EvRemoveContext]))).
Proof.
  unfold destroy. unfold_m.
  split; [|split; [|split; [reflexivity|split; [reflexivity|]]]].
  - intros Hrefs. apply Z.eqb_neq in Hrefs. rewrite Hrefs. reflexivity.
  - intros Hrefs Hbuf. rewrite Hrefs. simpl.
    destruct (mBuffers c); [congruence|reflexivity].
  - intros Hrefs Hbuf. rewrite Hrefs, Hbuf. simpl.
    split; intros Hthr; rewrite Hthr; reflexivity.
Qed.

(** ** Decoder selection *)

Section DecoderSelection.
Context {P : Platform}.

Lemma ltb_trans (a b c : string) :
  String.ltb a b = true -> String.ltb b c = true -> String.ltb a c = true.
Proof.
  unfold String.ltb.
  destruct (String.compare a b) eqn:Hab; try discriminate.
  destruct (String.compare b c) eqn:Hbc; try discriminate.
  intros _ _.
  apply OrderedTypeEx.String_as_OT.cmp_lt in Hab, Hbc.
  pose proof (@OrderedTypeEx.String_as_OT.lt_trans a b c Hab Hbc) as Hac.
  apply OrderedTypeEx.String_as_OT.cmp_lt in Hac.
  unfold OrderedTypeEx.String_as_OT.cmp in Hac. now rewrite Hac.
Qed.

Lemma ltb_total (a b : string) :
  String.ltb a b = false -> String.eqb b a = false -> String.ltb b a = true.
Proof.
  unfold String.ltb. rewrite (String.compare_antisym b a).
  destruct (String.compare a b) eqn:Hab; simpl.
  - apply String.compare_eq_iff in Hab. subst. rewrite String.eqb_refl.
    discriminate.
  - discriminate.
  - reflexivity.
Qed.

Lemma In_map_insert {V} (name : string) (v : V) (m : list (string * V)) :
  forall e, In e (map_insert name v m) -> e = (name, v) \/ In e m.
Proof.
  induction m as [|[k x] m IH]; simpl; intros e He.
  - destruct He as [<-|[]]. auto.
  - destruct (String.ltb name k).
    + destruct He as [<-|He]; auto.
    + destruct (String.eqb k name); [auto|].
      destruct He as [<-|He]; auto.
      destruct (IH _ He); auto.
Qed.

Lemma map_insert_sorted {V} (name : string) (v : V) (m : list (string * V)) :
  map_sorted m -> map_sorted (map_insert name v m).
Proof.
  unfold map_sorted.
  induction 1 as [|[k x] m Hs IH Hall]; simpl.
  - repeat constructor.
  - destruct (String.ltb name k) eqn:Hlt.
    + constructor; [constructor; assumption|].
      constructor; [assumption|].
      eapply Forall_impl; [|exact Hall]. simpl. intros e He.
      eapply ltb_trans; eassumption.
    + destruct (String.eqb k name) eqn:Heq; [constructor; assumption|].
      constructor; [assumption|].
      apply Forall_forall. intros e He. apply In_map_insert in He.
      destruct He as [->|He].
      * simpl. apply ltb_total; assumption.
      * rewrite Forall_forall in Hall. auto.
Qed.

Lemma RegisterDecoder_sorted (name : string) (factory : DecoderFactory) (g : Globals) :
  map_sorted (sDecoders g) ->
  map_sorted (sDecoders (snd (RegisterDecoder name factory g))).
Proof.
  intros Hs. unfold RegisterDecoder.
  destruct (map_find name (sDecoders g)); simpl; [assumption|].
  apply map_insert_sorted. assumption.
Qed.

Lemma register_all_sorted (regs : list (string * DecoderFactory)) :
  forall g, map_sorted (sDecoders g) -> map_sorted (sDecoders (register_all regs g)).
Proof.
  unfold register_all.
  induction regs as [|r regs IH]; intros g Hs; simpl; [assumption|].
  apply IH. apply RegisterDecoder_sorted. assumption.
Qed.

(** A range is tried from left to right; a second range continues where
    the first one ended. *)
Lemma GetDecoder_range_app (l1 l2 : list (string * DecoderFactory)) :
  forall file,
    GetDecoder_range file (l1 ++ l2)
    = match GetDecoder_range file l1 with
      | (NotFound file1, t1) =>
          let '(r, t2) := GetDecoder_range file1 l2 in (r, t1 ++ t2)
      | other => other
      end.
Proof.
  induction l1 as [|[fname factory] l1 IH]; intros file; simpl.
  - destruct (GetDecoder_range file l2); reflexivity.
  - destruct (factory file) as [[d|] [file1|]]; try reflexivity.
    destruct (is_good (istream_seekg0 (istream_clear file1))); [|reflexivity].
    rewrite IH.
    destruct (GetDecoder_range (istream_seekg0 (istream_clear file1)) l1)
      as [[d|file2|] t1]; try reflexivity.
    destruct (GetDecoder_range file2 l2) as [r t2]. reflexivity.
Qed.

Lemma GetDecoder_as_one_range (g : Globals) (name : string) (file : istream) :
  GetDecoder g name file
  = match GetDecoder_range file (sDecoders g ++ sDefaultDecoders) with
    | (Found decoder, t) => (Returns decoder, t)
    | (RewindFailed, t) => (Throws (FailedToRewind name), t)
    | (NotFound _, t) => (Throws (NoDecoderFor name), t)
    end.
Proof.
  unfold GetDecoder. rewrite GetDecoder_range_app.
  destruct (GetDecoder_range file (sDecoders g)) as [[d|file1|] t1]; try reflexivity.
  destruct (GetDecoder_range file1 sDefaultDecoders) as [[d|file2|] t2]; reflexivity.
Qed.

Lemma istream_rewound (file : istream) :
  is_good (istream_seekg0 (istream_clear file)) = true ->
  is_pos (istream_seekg0 (istream_clear file)) = 0%Z.
Proof.
  unfold istream_seekg0, istream_clear. simpl.
  destruct (is_seekable file); simpl; [reflexivity|discriminate].
Qed.

(** After the rejections of [before], the rest of the range is tried on
    the rewound stream. *)
Lemma GetDecoder_range_rejected (before rest : list (string * DecoderFactory)) :
  forall file file',
    all_reject file before = Some file' ->
    GetDecoder_range file (before ++ rest)
    = (let '(r, t) := GetDecoder_range file' rest in
       (r, rejection_trace (is_pos file) before ++ t))
    /\ (before <> [] -> is_pos file' = 0%Z /\ is_good file' = true).
Proof.
  induction before as [|[fname factory] before IH]; intros file file' Hrej; simpl in *.
  - inversion Hrej; subst. split; [|congruence].
    destruct (GetDecoder_range file' rest); reflexivity.
  - destruct (factory file) as [[d|] [file1|]]; try discriminate.
    destruct (is_good (istream_seekg0 (istream_clear file1))) eqn:Hgood;
      [|discriminate].
    destruct (IH _ _ Hrej) as [Hrun Hpos]. rewrite Hrun.
    rewrite (istream_rewound _ Hgood).
    split.
    + destruct (GetDecoder_range file' rest); reflexivity.
    + intros _. destruct before as [|b before'].
      * simpl in Hrej. inversion Hrej; subst.
        split; [apply istream_rewound|]; assumption.
      * apply Hpos. discriminate.
Qed.

Lemma count_rewinds_rejection_trace (pos : Z) (range : list (string * DecoderFactory)) :
  count_rewinds (rejection_trace pos range ) = List.length range.
Proof.
  revert pos. unfold count_rewinds.
  induction range as [|[fname factory] range IH]; intros pos; simpl; [reflexivity|].
  f_equal. apply IH.
Qed.
End DecoderSelection.

(** C5 (as amended). Decoder resolution tries the registered factories in
    ascending order of the names they were registered under (the order in
    which the [std::map] is traversed, whatever the order of the
    [RegisterDecoder] calls), then the built-in factories in the order of
    the [sDefaultDecoders] table (wave, vorbis, flac, opus, sndfile,
    mpg123, as far as compiled in). After every factory that rejects the
    stream, the stream is cleared and rewound to offset 0 before the next
    factory is tried, so every attempt after the first starts at offset 0;
    a rewind that fails, or a stream that the rejecting factory has taken
    away, ends the resolution with "Failed to rewind" ([IOError]). When
    the factories of a prefix of that order reject and the next one
    accepts, the decoder is the one of that factory and the stream was
    rewound once for each factory of the prefix (twice for the third
    factory). *)
Theorem GetDecoder_tries_in_map_order {P : Platform}
    (regs : list (string * DecoderFactory)) (g0 : Globals) (name : string)
    (file file' : istream)
    (before rest : list (string * DecoderFactory))
    (fname : string) (factory : DecoderFactory) :
  sDecoders g0 = [] ->
  sDecoders (register_all regs g0) ++ sDefaultDecoders
    = before ++ (fname, factory) :: rest ->
  all_reject file before = Some file' ->
  map_sorted (sDecoders (register_all regs g0))
  /\
  (exists others,
      sDefaultDecoders = ("_alure_int_wave"%string, WaveDecoderFactory) :: others)
  /\
  (HAVE_VORBISFILE = true -> HAVE_LIBFLAC = true -> HAVE_OPUSFILE = true ->
   HAVE_LIBSNDFILE = true -> HAVE_MPG123 = true ->
   map fst sDefaultDecoders
   = ["_alure_int_wave"; "_alure_int_vorbis"; "_alure_int_flac"; "_alure_int_opus";
      "_alure_int_sndfile"; "_alure_int_mpg123"]%string)
  /\
  (before <> [] -> is_pos file' = 0%Z /\ is_good file' = true)
  /\
  (forall decoder left,
      factory file' = (Some decoder, left) ->
      GetDecoder (register_all regs g0) name file
      = (Returns decoder,
         rejection_trace (is_pos file) before ++ [EvCreateDecoder fname (is_pos file')])
      /\
      count_rewinds (rejection_trace (is_pos file) before
                       ++ [EvCreateDecoder fname (is_pos file')])
      = List.length before)
  /\
  ((factory file' = (None, None)
    \/ exists file1, factory file' = (None, Some file1) /\
                     is_good (istream_seekg0 (istream_clear file1)) = false) ->
   GetDecoder (register_all regs g0) name file
   = (Throws (FailedToRewind name),
      rejection_trace (is_pos file) before ++ [EvCreateDecoder fname (is_pos file')])
   /\ error_kind (FailedToRewind name) = Some IOError).
Proof.
  intros Hempty Hsplit Hrej.
  destruct (@GetDecoder_range_rejected before ((fname, factory) :: rest)
              file file' Hrej) as [Hrun Hpos].
  split; [|split; [|split; [|split; [|split]]]].
  - apply register_all_sorted. rewrite Hempty. constructor.
  - eexists. unfold sDefaultDecoders. simpl. reflexivity.
  - intros H1 H2 H3 H4 H5. unfold sDefaultDecoders.
    rewrite H1, H2, H3, H4, H5. reflexivity.
  - exact Hpos.
  - intros decoder left Haccept. split.
    + rewrite GetDecoder_as_one_range, Hsplit, Hrun. simpl.
      rewrite Haccept. reflexivity.
    + unfold count_rewinds. rewrite filter_app, length_app. simpl.
      fold (count_rewinds (rejection_trace (is_pos file) before)).
      rewrite count_rewinds_rejection_trace. lia.
  - intros Hfail. split; [|reflexivity].
    rewrite GetDecoder_as_one_range, Hsplit, Hrun. simpl.
    destruct Hfail as [Hfail|[file1 [Hfail Hbad]]]; rewrite Hfail;
      [|rewrite Hbad]; reflexivity.
Qed.

(** ** Loop points *)

(** C6. On a freshly decoded buffer of [frames] frames, a pair of loop
    points with [start >= end] is replaced by [(0, frames)]; otherwise
    [end] becomes [min(end, frames)] and [start] becomes
    [min(start, end - 1)] for that new [end], so the result satisfies
    [0 <= start < end <= frames]. On a 100-frame buffer [(5,3)] becomes
    [(0,100)] and [(10,500)] becomes [(10,100)]. *)
Theorem loop_points_normalized (first second frames : Z) :
  (0 <= first < 2 ^ 64)%Z ->
  (0 <= second < 2 ^ 64)%Z ->
  (0 < frames < 2 ^ 32)%Z ->
  normalize_loop_points (first, second) frames
  = (if (first >=? second)%Z then (0%Z, frames)
     else (Z.min first (Z.min second frames - 1), Z.min second frames))
  /\
  (0 <= fst (normalize_loop_points (first, second) frames)
     < snd (normalize_loop_points (first, second) frames))%Z
  /\
  (snd (normalize_loop_points (first, second) frames) <= frames)%Z
  /\
  normalize_loop_points (5, 3)%Z 100%Z = (0, 100)%Z
  /\
  normalize_loop_points (10, 500)%Z 100%Z = (10, 100)%Z.
Proof.
  intros Hfirst Hsecond Hframes.
  assert (Hnorm : normalize_loop_points (first, second) frames
                  = (if (first >=? second)%Z then (0%Z, frames)
                     else (Z.min first (Z.min second frames - 1),
                           Z.min second frames))).
  { unfold normalize_loop_points, wrap64. rewrite Z.geb_leb.
    destruct (second <=? first)%Z eqn:Hcmp; [reflexivity|].
    apply Z.leb_gt in Hcmp.
    rewrite Z.mod_small by lia. reflexivity. }
  split; [exact Hnorm|].
  split; [|split; [|split; reflexivity]]; rewrite Hnorm, Z.geb_leb;
    destruct (second <=? first)%Z eqn:Hcmp; simpl; try lia;
    apply Z.leb_gt in Hcmp; lia.
Qed.

(** ** The file factory *)

(** C10. [FileIOFactory::get] always yields a factory: the user factory
    when one is installed, and otherwise, in particular after
    [FileIOFactory::set] has installed none, the built-in default
    factory, which opens the named file as a binary stream at offset 0
    and returns no stream exactly when the file cannot be opened.
    [FileIOFactory::set] returns the user factory that was installed
    before the call, none when the default was active. *)
Theorem FileIOFactory_get_never_null
    (g : Globals) (factory : option FileIOFactory) (name : string) :
  FileIOFactory_get (snd (FileIOFactory_set None g))
  = DefaultFileIOFactory_openFile (files g)
  /\
  FileIOFactory_get (snd (FileIOFactory_set factory g))
  = match factory with
    | Some user => user
    | None => DefaultFileIOFactory_openFile (files g)
    end
  /\
  (DefaultFileIOFactory_openFile (files g) name = None <-> files g name = None)
  /\
  (forall data,
      files g name = Some data ->
      DefaultFileIOFactory_openFile (files g) name
      = Some {| is_data := data; is_pos := 0%Z; is_good := true; is_seekable := true |})
  /\
  fst (FileIOFactory_set factory g) = sFileFactory g
  /\
  fst (FileIOFactory_set None (snd (FileIOFactory_set factory g))) = factory
  /\
  (sFileFactory g = None ->
   fst (FileIOFactory_set factory g) = None /\
   FileIOFactory_get g = DefaultFileIOFactory_openFile (files g)).
Proof.
  unfold FileIOFactory_get, FileIOFactory_set, DefaultFileIOFactory_openFile. simpl.
  repeat split.
  - destruct (files g name); [discriminate|reflexivity].
  - intros H. rewrite H. reflexivity.
  - intros data H. rewrite H. reflexivity.
  - assumption.
  - rewrite H. reflexivity.
Qed.

(** ** More on the registry: what a fetch calls, and round trips *)

Section FetchRuns.
Context {P : Platform}.

Lemma set_mBuffers_same (c : ALContext) : set_mBuffers c (mBuffers c) = c.
Proof. destruct c; reflexivity. Qed.

Lemma set_mBuffers_twice (c : ALContext) (l1 l2 : list ALBuffer) :
  set_mBuffers (set_mBuffers c l1) l2 = set_mBuffers c l2.
Proof. reflexivity. Qed.

Lemma replace_at_same {A} (l : list A) :
  forall i x, nth_error l i = Some x -> replace_at i x l = l.
Proof.
  unfold replace_at. induction l as [|y l IH]; intros i x Hn.
  - destruct i; discriminate.
  - destruct i as [|i]; simpl in *.
    + inversion Hn; reflexivity.
    + f_equal. apply IH. assumption.
Qed.

Lemma vec_erase_insert {A} (l : list A) :
  forall i x, i <= List.length l -> vec_erase i (vec_insert i x l) = l.
Proof.
  induction l as [|y l IH]; intros i x Hi; simpl in Hi.
  - assert (i = 0) by lia. subst. reflexivity.
  - destruct i as [|i]; [reflexivity|].
    rewrite vec_insert_cons, vec_erase_cons. f_equal. apply IH. lia.
Qed.

Lemma partition_point_insert {A} (comp : A -> bool) (x : A) (l : list A) :
  comp x = false ->
  partition_point comp (vec_insert (partition_point comp l) x l)
  = partition_point comp l.
Proof.
  intros Hx. induction l as [|y l IH]; simpl.
  - unfold vec_insert. simpl. now rewrite Hx.
  - destruct (comp y) eqn:Hy.
    + rewrite vec_insert_cons. simpl. rewrite Hy. f_equal. exact IH.
    + unfold vec_insert. simpl. now rewrite Hx.
Qed.

Lemma hash_less_irrefl (name : string) (b : ALBuffer) :
  getName b = name -> hash_less name b = false.
Proof. intros <-. unfold hash_less. apply Z.ltb_irrefl. Qed.

(** Right after an insertion the search for the name ends on the entry
    inserted. *)
Lemma lookup_after_insert (name : string) (b : ALBuffer) (l : list ALBuffer) :
  registry_sorted l -> getName b = name ->
  let l' := vec_insert (lower_bound (hash_less name) l) b l in
  lower_bound (hash_less name) l' = lower_bound (hash_less name) l
  /\ buffer_at l' (lower_bound (hash_less name) l') name = Some b.
Proof.
  intros Hs Hb l'.
  assert (Hs' : registry_sorted l') by (apply registry_sorted_insert; assumption).
  assert (Hiter : lower_bound (hash_less name) l' = lower_bound (hash_less name) l).
  { rewrite (lower_bound_registry name Hs'). unfold l'.
    rewrite (lower_bound_registry name Hs).
    apply partition_point_insert. apply hash_less_irrefl. assumption. }
  split; [exact Hiter|]. rewrite Hiter. unfold buffer_at, l'.
  rewrite nth_error_vec_insert by apply lower_bound_le_length.
  rewrite Hb, String.eqb_refl. reflexivity.
Qed.

Lemma GetDecoder_range_trace (range : list (string * DecoderFactory)) :
  forall file, Forall resolution_event (snd (GetDecoder_range file range)).
Proof.
  induction range as [|[fname factory] range IH]; intros file; simpl.
  - constructor.
  - destruct (factory file) as [[d|] [file1|]]; simpl;
      try (repeat constructor; fail).
    destruct (is_good (istream_seekg0 (istream_clear file1))); simpl;
      [|repeat constructor].
    specialize (IH (istream_seekg0 (istream_clear file1))).
    destruct (GetDecoder_range (istream_seekg0 (istream_clear file1)) range).
    simpl in *. repeat constructor. assumption.
Qed.

Lemma GetDecoder_trace (g : Globals) (name : string) (file : istream) :
  Forall resolution_event (snd (GetDecoder g name file)).
Proof.
  unfold GetDecoder. generalize sDefaultDecoders as defaults. intros defaults.
  pose proof (GetDecoder_range_trace (sDecoders g) file) as H1.
  destruct (GetDecoder_range file (sDecoders g)) as [[d|file1|] t1]; simpl in *;
    try assumption.
  pose proof (GetDecoder_range_trace defaults file1) as H2.
  destruct (GetDecoder_range file1 defaults) as [[d|file2|] t2]; simpl in *;
    apply Forall_app; split; assumption.
Qed.

Lemma find_substitute_trace (g : Globals) (h : MessageHandler) :
  forall fuel name c, Forall resolution_event (trace_of (find_substitute fuel g h name c)).
Proof.
  induction fuel as [|fuel IH]; intros name c; simpl; [constructor|].
  unfold_m. simpl.
  destruct (String.eqb (resourceNotFound h name) EmptyString);
    [repeat constructor|].
  destruct (FileIOFactory_get g (resourceNotFound h name)); [repeat constructor|].
  specialize (IH (resourceNotFound h name) c).
  destruct (find_substitute fuel g h (resourceNotFound h name) c) as [[r c1] t1].
  simpl in *. constructor; [exact I|assumption].
Qed.

Lemma createDecoder_trace (fuel : nat) (g : Globals) (name : string) (c : ALContext) :
  Forall resolution_event (trace_of (createDecoder fuel g name c)).
Proof.
  unfold createDecoder.
  destruct (FileIOFactory_get g name) as [file|].
  - unfold lift, trace_of. simpl. apply GetDecoder_trace.
  - unfold_m. simpl. destruct (mMessage c) as [h|]; [|constructor].
    pose proof (find_substitute_trace g h fuel name c) as Hf. unfold trace_of in Hf.
    destruct (find_substitute fuel g h name c) as [[[found|e|] c1] t1]; simpl in *;
      try assumption.
    apply Forall_app. split; [assumption|]. apply GetDecoder_trace.
Qed.



(** The run of [getBuffer] once the decoder is there. *)
Lemma getBuffer_absent_run (fuel : nat) (g : Globals) (w : Env) (name : string)
    (c : ALContext) (decoder : Decoder) (t1 : list Event) :
  isCurrent c = true ->
  buffer_at (mBuffers c) (lower_bound (hash_less name) (mBuffers c)) name = None ->
  createDecoder fuel g name c = (Returns decoder, c, t1) ->
  getBuffer fuel g w name c
  = if (dec_read decoder (dec_length decoder) =? 0)%Z
    then (Throws NoSamples, c, t1)
    else if (GetFormat (dec_channels decoder) (dec_sampleType decoder) =? AL_NONE)%Z
    then (Throws FormatNotSupported, c, t1)
    else if upload_fails c w
    then (Throws FailedToBufferData, c,
          t1 ++ loading_notification c name decoder ++ upload_calls c w decoder
             ++ [EvAlDeleteBuffers (match al_gen w with Some id => id | None => 0%Z end)])
    else
      let buffer :=
        ALBuffer_new (match al_gen w with Some id => id | None => 0%Z end)
                     (dec_frequency decoder) (dec_channels decoder)
                     (dec_sampleType decoder) true name in
      (Returns buffer,
       set_mBuffers c (vec_insert (lower_bound (hash_less name) (mBuffers c))
                                  buffer (mBuffers c)),
       t1 ++ loading_notification c name decoder ++ upload_calls c w decoder).
Proof.
  intros Hcur Hat Hdec. unfold getBuffer. unfold_m. rewrite Hcur. simpl.
  rewrite Hat, Hdec. simpl.
  unfold loading_notification, upload_calls, upload_fails.
  destruct (dec_read decoder (dec_length decoder) =? 0)%Z; simpl;
    [rewrite app_nil_r; reflexivity|].
  destruct (GetFormat (dec_channels decoder) (dec_sampleType decoder) =? AL_NONE)%Z;
    simpl; [rewrite app_nil_r; reflexivity|].
  destruct (non_null (mMessage c)); destruct (al_gen w) as [id|];
    destruct (al_data_ok w); destruct (SOFT_loop_points c);
    destruct (al_loop_ok w); simpl; rewrite <- ?app_assoc; reflexivity.
Qed.

Lemma wait_write_space_run (w : Env) :
  forall fuel k c,
    wait_write_space fuel w k c
    = (if full_reads fuel w k <? fuel then Returns tt else OutOfFuel, c,
       repeat EvYield (full_reads fuel w k)).
Proof.
  induction fuel as [|fuel IH]; intros k c; simpl; [reflexivity|].
  destruct (write_space w k =? 0)%Z; [|reflexivity].
  unfold_m. rewrite IH.
  change (S (full_reads fuel w (S k)) <? S fuel)
    with (full_reads fuel w (S k) <? fuel).
  destruct (full_reads fuel w (S k) <? fuel); reflexivity.
Qed.

(** The run of [getBufferAsync] once the decoder is there. *)
Lemma getBufferAsync_absent_run (fuel : nat) (g : Globals) (w : Env) (name : string)
    (c : ALContext) (decoder : Decoder) (t1 : list Event) (bid : ALuint) :
  isCurrent c = true ->
  buffer_at (mBuffers c) (lower_bound (hash_less name) (mBuffers c)) name = None ->
  createDecoder fuel g name c = (Returns decoder, c, t1) ->
  dec_length decoder <> 0%Z ->
  GetFormat (dec_channels decoder) (dec_sampleType decoder) <> AL_NONE ->
  al_gen w = Some bid ->
  let buffer := ALBuffer_new bid (dec_frequency decoder) (dec_channels decoder)
                             (dec_sampleType decoder) false name in
  let started := set_thread c true (mQuitThread c) in
  let t2 := t1 ++ [EvAlGenBuffers bid]
               ++ (if mThread_joinable c then [] else [EvThreadStart])
               ++ repeat EvYield (full_reads fuel w 0) in
  getBufferAsync fuel g w name c
  = if full_reads fuel w 0 <? fuel
    then (Returns buffer,
          set_mBuffers started
            (vec_insert (lower_bound (hash_less name) (mBuffers c)) buffer (mBuffers c)),
          t2 ++ [EvEnqueue {| pb_name := name; pb_buffer := bid; pb_decoder := decoder;
                              pb_format := GetFormat (dec_channels decoder)
                                                     (dec_sampleType decoder);
                              pb_frames := dec_length decoder |};
                 EvNotifyAll])
    else (OutOfFuel, started, t2).
Proof.
  intros Hcur Hat Hdec Hlen Hfmt Hgen buffer started t2.
  unfold getBufferAsync. unfold_m. rewrite Hcur. simpl.
  rewrite Hat, Hdec. simpl.
  apply Z.eqb_neq in Hlen, Hfmt. rewrite Hlen, Hfmt, Hgen. simpl.
  unfold t2, started.
  destruct (mThread_joinable c) eqn:Hthr; simpl.
  - rewrite wait_write_space_run.
    replace (set_thread c true (mQuitThread c)) with c
      by (destruct c; simpl in *; subst; reflexivity).
    destruct (full_reads fuel w 0 <? fuel); simpl;
      rewrite <- ?app_assoc; simpl; rewrite <- ?app_assoc; reflexivity.
  - rewrite wait_write_space_run.
    destruct (full_reads fuel w 0 <? fuel); simpl;
      rewrite <- ?app_assoc; simpl; rewrite <- ?app_assoc; reflexivity.
Qed.
End FetchRuns.

(** ** What [getBuffer] returns *)



(** ** Extras on the registry *)

Section RegistryExtras.
Context {P : Platform}.

Lemma partition_point_map {A} (comp : A -> bool) (l1 : list A) :
  forall l2, map comp l1 = map comp l2 ->
             partition_point comp l1 = partition_point comp l2.
Proof.
  induction l1 as [|x l1 IH]; intros [|y l2] Hmap; simpl in *;
    try discriminate; [reflexivity|].
  inversion Hmap as [[Hxy Hrest]]. rewrite Hxy.
  destruct (comp y); [f_equal; apply IH; assumption|reflexivity].
Qed.

Lemma In_vec_erase_other {A} (l : list A) :
  forall i x y, nth_error l i = Some y -> In x l -> x <> y -> In x (vec_erase i l).
Proof.
  induction l as [|z l IH]; intros i x y Hn Hin Hne; [contradiction|].
  destruct i as [|i]; simpl in Hn.
  - inversion Hn; subst. destruct Hin as [->|Hin]; [congruence|exact Hin].
  - rewrite vec_erase_cons. destruct Hin as [->|Hin]; [left; reflexivity|].
    right. eapply IH; eassumption.
Qed.

Lemma length_vec_erase {A} (l : list A) :
  forall i x, nth_error l i = Some x -> S (List.length (vec_erase i l)) = List.length l.
Proof.
  induction l as [|z l IH]; intros i x Hn.
  - destruct i; discriminate.
  - destruct i as [|i]; simpl in Hn; [reflexivity|].
    rewrite vec_erase_cons. simpl. f_equal. eapply IH; eassumption.
Qed.

Lemma map_vec_erase {A B} (f : A -> B) (l : list A) :
  forall i, map f (vec_erase i l) = vec_erase i (map f l).
Proof.
  unfold vec_erase. intros i.
  rewrite map_app, firstn_map, skipn_map. reflexivity.
Qed.

Lemma removeBuffer_found (name : string) (c : ALContext) (b : ALBuffer) :
  isCurrent c = true ->
  buffer_at (mBuffers c) (lower_bound (hash_less name) (mBuffers c)) name = Some b ->
  removeBuffer name c
  = (Returns tt,
     set_mBuffers c (vec_erase (lower_bound (hash_less name) (mBuffers c)) (mBuffers c)),
     [EvCleanup (mId b)]).
Proof.
  intros Hcur Hat. unfold removeBuffer. unfold_m. rewrite Hcur. simpl.
  rewrite Hat. reflexivity.
Qed.
End RegistryExtras.

(** X1. Insert, then look up. After any [getBuffer] call that returned a
    buffer from a registry in hash order, a fetch of the same name on
    either path returns that same buffer at once: it calls neither the
    decoders, nor OpenAL, nor the handler, and leaves the context as it
    is. (No condition on colliding hashes is needed: the entry just
    returned is the one the search ends on.) *)
Theorem fetch_after_getBuffer_hits {P : Platform}
    (fuel fuel' : nat) (g g' : Globals) (w w' : Env) (name : string)
    (c c' : ALContext) (b : ALBuffer) (t : list Event) :
  registry_sorted (mBuffers c) ->
  getBuffer fuel g w name c = (Returns b, c', t) ->
  getBufferAsync fuel' g' w' name c' = (Returns b, c', [])
  /\ getBuffer (S fuel') g' w' name c' = (Returns b, c', []).
Proof.
  intros Hs Hrun.
  pose proof (getBuffer_cases fuel g w name c) as Hc. rewrite Hrun in Hc.
  pose proof (@getBuffer_sorted _ fuel g w name c Hs) as Hs'.
  unfold state_after in Hs'. rewrite Hrun in Hs'. simpl in Hs'.
  destruct Hc as [Hcur Hc].
  assert (Hfound : isCurrent c' = true /\ mLoadStatus b = BufferLoad_Ready /\
                   buffer_at (mBuffers c') (lower_bound (hash_less name) (mBuffers c'))
                             name = Some b).
  { destruct Hc as [[buffer [Hat [Hw ->]]]|[Hat [decoder [t1 Hc]]]].
    - apply buffer_at_Some in Hat. destruct Hat as [Hn Hname].
      apply wait_until_loaded_Returns in Hw. destruct Hw as (Hst & Hnm & _).
      split; [exact Hcur|]. split; [exact Hst|]. simpl in *.
      assert (Hb : getName b = name) by (unfold getName in *; congruence).
      assert (Hmap : map (hash_less name)
                       (replace_at (lower_bound (hash_less name) (mBuffers c)) b
                                   (mBuffers c))
                     = map (hash_less name) (mBuffers c)).
      { eapply map_replace_at; [eassumption|].
        rewrite !hash_less_irrefl by assumption. reflexivity. }
      rewrite (lower_bound_registry name Hs').
      rewrite (partition_point_map _ _ _ Hmap).
      rewrite <- (lower_bound_registry name Hs).
      unfold buffer_at. rewrite nth_error_replace_at.
      + rewrite Hb, String.eqb_refl. reflexivity.
      + apply nth_error_Some. congruence.
    - destruct Hc as (_ & _ & _ & _ & _ & _ & Hb & ->). simpl.
      split; [exact Hcur|]. split; [subst b; reflexivity|].
      apply lookup_after_insert; [assumption|subst b; reflexivity]. }
  destruct Hfound as (Hcur' & Hready & Hat').
  split.
  - apply getBufferAsync_found; assumption.
  - rewrite (@getBuffer_found _ (S fuel') g' w' name c' b Hcur' Hat').
    rewrite wait_until_loaded_ready by assumption.
    apply buffer_at_Some in Hat'. destruct Hat' as [Hn _].
    rewrite (replace_at_same _ _ Hn), set_mBuffers_same. reflexivity.
Qed.

(** X2. Insert, then remove. [removeBuffer] of the name that a [getBuffer]
    call has just inserted into a registry in hash order calls [cleanup]
    on that buffer and gives back the context as it was before the
    insertion. *)
Theorem removeBuffer_undoes_getBuffer {P : Platform}
    (fuel : nat) (g : Globals) (w : Env) (name : string)
    (c c' : ALContext) (b : ALBuffer) (t : list Event) :
  registry_sorted (mBuffers c) ->
  buffer_at (mBuffers c) (lower_bound (hash_less name) (mBuffers c)) name = None ->
  getBuffer fuel g w name c = (Returns b, c', t) ->
  removeBuffer name c' = (Returns tt, c, [EvCleanup (mId b)]).
Proof.
  intros Hs Habsent Hrun.
  pose proof (getBuffer_cases fuel g w name c) as Hc. rewrite Hrun in Hc.
  destruct Hc as [Hcur [[buffer [Hat _]]|[_ [decoder [t1 Hc]]]]]; [congruence|].
  destruct Hc as (_ & _ & _ & _ & _ & _ & Hb & ->).
  assert (Hname : getName b = name) by (subst b; reflexivity).
  destruct (@lookup_after_insert _ name b (mBuffers c) Hs Hname) as [Hiter Hat'].
  rewrite (@removeBuffer_found _ name _ b); [|exact Hcur|exact Hat'].
  simpl. rewrite Hiter, vec_erase_insert by apply lower_bound_le_length.
  rewrite set_mBuffers_twice, set_mBuffers_same. reflexivity.
Qed.

(** X3. Removing a name that is not registered is a silent no-op: on a
    current context [removeBuffer] returns without calling [cleanup] and
    leaves the context unchanged; on a context that is not current it
    throws "Called context is not current", also without any change. *)
Theorem removeBuffer_missing_name {P : Platform} (name : string) (c : ALContext) :
  (forall b, In b (mBuffers c) -> getName b <> name) ->
  removeBuffer name c
  = (if isCurrent c then Returns tt else Throws ContextNotCurrent, c, []).
Proof.
  intros Hmissing. unfold removeBuffer. unfold_m.
  destruct (isCurrent c); simpl; [|reflexivity].
  destruct (buffer_at (mBuffers c) _ name) as [b|] eqn:Hat; [|reflexivity].
  apply buffer_at_Some in Hat. destruct Hat as [Hn Hname].
  exfalso. apply (Hmissing b); [eapply nth_error_In; eassumption|assumption].
Qed.

(** X4. Removing a registered name. On a current context whose registry
    is in hash order and holds each name once, with no other name of the
    hash of [name], [removeBuffer] calls [cleanup] on the buffer of that
    name and erases it: the name is no longer registered, every other
    buffer is kept, the registry is one entry shorter and still in hash
    order. *)
Theorem removeBuffer_removes_name {P : Platform}
    (name : string) (c : ALContext) (b0 : ALBuffer) :
  isCurrent c = true ->
  registry_sorted (mBuffers c) ->
  NoDup (map getName (mBuffers c)) ->
  In b0 (mBuffers c) ->
  getName b0 = name ->
  no_collision name (mBuffers c) ->
  exists c',
    removeBuffer name c = (Returns tt, c', [EvCleanup (mId b0)]) /\
    ~ In name (map getName (mBuffers c')) /\
    (forall x, In x (mBuffers c) -> x <> b0 -> In x (mBuffers c')) /\
    S (List.length (mBuffers c')) = List.length (mBuffers c) /\
    registry_sorted (mBuffers c').
Proof.
  intros Hcur Hs Hnd Hin Hname Hnc.
  destruct (@lookup_finds _ name (mBuffers c) b0 Hs Hin Hname Hnc) as [b Hat].
  destruct (@buffer_at_Some _ _ _ _ Hat) as [Hn Hb].
  assert (b = b0).
  { (* one buffer per name *)
    apply In_nth_error in Hin. destruct Hin as [j Hj].
    assert (Hnames : forall i x, nth_error (mBuffers c) i = Some x ->
                       nth_error (map getName (mBuffers c)) i = Some (getName x)).
    { intros i x Hx. rewrite nth_error_map, Hx. reflexivity. }
    pose proof (Hnames _ _ Hn) as H1. pose proof (Hnames _ _ Hj) as H2.
    rewrite Hb in H1. rewrite Hname in H2.
    assert (Hlt : lower_bound (hash_less name) (mBuffers c)
                  < List.length (map getName (mBuffers c))).
    { apply nth_error_Some. congruence. }
    pose proof (proj1 (NoDup_nth_error (map getName (mBuffers c))) Hnd
                  (lower_bound (hash_less name) (mBuffers c)) j Hlt) as Hinj.
    rewrite H1, H2 in Hinj. specialize (Hinj eq_refl). subst j. congruence. }
  subst b.
  eexists. split; [apply removeBuffer_found; assumption|]. simpl.
  split; [|split; [|split]].
  - rewrite map_vec_erase.
    apply not_In_vec_erase; [assumption|].
    rewrite nth_error_map, Hn. simpl. now rewrite Hname.
  - intros x Hx Hne. eapply In_vec_erase_other; eassumption.
  - eapply length_vec_erase; eassumption.
  - apply StronglySorted_vec_erase. assumption.
Qed.

Section FetchPhases.
Context {P : Platform}.

Lemma getBuffer_no_decoder (fuel : nat) (g : Globals) (w : Env) (name : string)
    (c c1 : ALContext) (t1 : list Event) :
  isCurrent c = true ->
  buffer_at (mBuffers c) (lower_bound (hash_less name) (mBuffers c)) name = None ->
  (forall e, createDecoder fuel g name c = (Throws e, c1, t1) ->
             getBuffer fuel g w name c = (Throws e, c1, t1))
  /\ (createDecoder fuel g name c = (OutOfFuel, c1, t1) ->
      getBuffer fuel g w name c = (OutOfFuel, c1, t1)).
Proof.
  intros Hcur Hat. unfold getBuffer. unfold_m. rewrite Hcur. simpl. rewrite Hat.
  split; [intros e Hdec|intros Hdec]; rewrite Hdec; reflexivity.
Qed.

Lemma getBufferAsync_no_decoder (fuel : nat) (g : Globals) (w : Env) (name : string)
    (c c1 : ALContext) (t1 : list Event) :
  isCurrent c = true ->
  buffer_at (mBuffers c) (lower_bound (hash_less name) (mBuffers c)) name = None ->
  (forall e, createDecoder fuel g name c = (Throws e, c1, t1) ->
             getBufferAsync fuel g w name c = (Throws e, c1, t1))
  /\ (createDecoder fuel g name c = (OutOfFuel, c1, t1) ->
      getBufferAsync fuel g w name c = (OutOfFuel, c1, t1)).
Proof.
  intros Hcur Hat. unfold getBufferAsync. unfold_m. rewrite Hcur. simpl. rewrite Hat.
  split; [intros e Hdec|intros Hdec]; rewrite Hdec; reflexivity.
Qed.

Lemma getBufferAsync_rejects (fuel : nat) (g : Globals) (w : Env) (name : string)
    (c : ALContext) (decoder : Decoder) (t1 : list Event) :
  isCurrent c = true ->
  buffer_at (mBuffers c) (lower_bound (hash_less name) (mBuffers c)) name = None ->
  createDecoder fuel g name c = (Returns decoder, c, t1) ->
  (dec_length decoder = 0%Z ->
   getBufferAsync fuel g w name c = (Throws NoSamples, c, t1))
  /\
  (dec_length decoder <> 0%Z ->
   GetFormat (dec_channels decoder) (dec_sampleType decoder) = AL_NONE ->
   getBufferAsync fuel g w name c = (Throws FormatNotSupported, c, t1))
  /\
  (dec_length decoder <> 0%Z ->
   GetFormat (dec_channels decoder) (dec_sampleType decoder) <> AL_NONE ->
   al_gen w = None ->
   getBufferAsync fuel g w name c
   = (Throws FailedToBufferData, c, t1 ++ [EvAlGenBuffers 0%Z])).
Proof.
  intros Hcur Hat Hdec. unfold getBufferAsync. unfold_m. rewrite Hcur. simpl.
  rewrite Hat, Hdec. simpl. split; [|split].
  - intros ->. simpl. rewrite app_nil_r. reflexivity.
  - intros Hlen Hfmt. apply Z.eqb_neq in Hlen. rewrite Hlen, Hfmt. simpl.
    rewrite app_nil_r. reflexivity.
  - intros Hlen Hfmt Hgen. apply Z.eqb_neq in Hlen, Hfmt.
    rewrite Hlen, Hfmt, Hgen. simpl. reflexivity.
Qed.

Lemma resolution_counts (t : list Event) :
  Forall resolution_event t ->
  count_yields t = 0 /\ count_enqueues t = 0 /\ ~ In EvThreadStart t.
Proof.
  unfold count_yields, count_enqueues.
  induction 1 as [|ev t Hev Hall IH]; simpl; [auto|].
  destruct IH as (Hy & He & Hs).
  destruct ev; simpl in *; try contradiction;
    (split; [assumption|]; split; [assumption|]; intros [H|H];
     [discriminate|contradiction]).
Qed.

Lemma count_yields_app (t1 t2 : list Event) :
  count_yields (t1 ++ t2) = count_yields t1 + count_yields t2.
Proof. unfold count_yields. rewrite filter_app, length_app. reflexivity. Qed.

Lemma count_enqueues_app (t1 t2 : list Event) :
  count_enqueues (t1 ++ t2) = count_enqueues t1 + count_enqueues t2.
Proof. unfold count_enqueues. rewrite filter_app, length_app. reflexivity. Qed.

Lemma count_yields_repeat (n : nat) : count_yields (repeat EvYield n) = n.
Proof.
  unfold count_yields. induction n as [|n IH]; simpl; [reflexivity|]. now rewrite IH.
Qed.

Lemma count_enqueues_repeat (n : nat) : count_enqueues (repeat EvYield n) = 0.
Proof.
  unfold count_enqueues. induction n as [|n IH]; simpl; [reflexivity|]. exact IH.
Qed.

Lemma full_reads_exact (w : Env) :
  forall n fuel k,
    (forall i, k <= i < k + n -> write_space w i = 0%Z) ->
    write_space w (k + n) <> 0%Z ->
    n < fuel ->
    full_reads fuel w k = n.
Proof.
  induction n as [|n IH]; intros fuel k Hfull Hroom Hfuel;
    (destruct fuel as [|fuel]; [lia|]); simpl.
  - rewrite Nat.add_0_r in Hroom. apply Z.eqb_neq in Hroom. now rewrite Hroom.
  - rewrite (Hfull k) by lia. simpl. f_equal. apply IH.
    + intros i Hi. apply Hfull. lia.
    + replace (S k + n) with (k + S n) by lia. assumption.
    + lia.
Qed.

Lemma full_reads_all (w : Env) :
  forall fuel k,
    (forall i, k <= i < k + fuel -> write_space w i = 0%Z) ->
    full_reads fuel w k = fuel.
Proof.
  induction fuel as [|fuel IH]; intros k Hfull; simpl; [reflexivity|].
  rewrite (Hfull k) by lia. simpl. f_equal. apply IH.
  intros i Hi. apply Hfull. lia.
Qed.
End FetchPhases.





(** X6. The order of the calls of a synchronous load. [getBuffer] asks
    the decoder for the low 32 bits of its 64-bit length, and the frames
    it works with are those that this read delivers. When [getBuffer]
    does not find the name and a decoder is created: if the read
    delivers no frame the call throws "No samples for buffer" after the
    decoder resolution, with nothing else called. If it delivers frames
    and the format is accepted, the trace is, in this order: the decoder
    resolution; one [bufferLoading] call with the name, the layout, the
    rate and the byte size of the frames read, if and only if a handler
    is installed; [alGenBuffers] and [alBufferData]; [alBufferiv] with
    the normalized loop points, if and only if [AL_SOFT_loop_points] is
    present; and, if and only if OpenAL reported an error,
    [alDeleteBuffers] on the generated name, in which case the call
    throws and the context is unchanged. Otherwise the buffer is
    inserted, ready, at the position the search ended on. *)
Theorem getBuffer_call_sequence {P : Platform}
    (fuel : nat) (g : Globals) (w : Env) (name : string) (c : ALContext)
    (decoder : Decoder) (t1 : list Event) :
  isCurrent c = true ->
  buffer_at (mBuffers c) (lower_bound (hash_less name) (mBuffers c)) name = None ->
  createDecoder fuel g name c = (Returns decoder, c, t1) ->
  GetFormat (dec_channels decoder) (dec_sampleType decoder) <> AL_NONE ->
  let frames := dec_read decoder (wrap32 (dec_getLength decoder)) in
  let bid := match al_gen w with Some id => id | None => 0%Z end in
  let buffer := ALBuffer_new bid (dec_frequency decoder) (dec_channels decoder)
                             (dec_sampleType decoder) true name in
  Forall resolution_event t1 /\
  (frames = 0%Z ->
   getBuffer fuel g w name c = (Throws NoSamples, c, t1))
  /\
  (frames <> 0%Z ->
   In (EvAlBufferData bid
         (GetFormat (dec_channels decoder) (dec_sampleType decoder))
         (FramesToBytes frames (dec_channels decoder) (dec_sampleType decoder))
         (dec_frequency decoder))
      (upload_calls c w decoder))
  /\
  (frames <> 0%Z -> upload_fails c w = false ->
   getBuffer fuel g w name c
   = (Returns buffer,
      set_mBuffers c (vec_insert (lower_bound (hash_less name) (mBuffers c))
                                 buffer (mBuffers c)),
      t1 ++ loading_notification c name decoder ++ upload_calls c w decoder))
  /\
  (frames <> 0%Z -> upload_fails c w = true ->
   getBuffer fuel g w name c
   = (Throws FailedToBufferData, c,
      t1 ++ loading_notification c name decoder ++ upload_calls c w decoder
         ++ [EvAlDeleteBuffers bid])).
Proof.
  intros Hcur Hat Hdec Hfmt frames bid buffer.
  pose proof (createDecoder_trace fuel g name c) as Htr.
  unfold trace_of in Htr. rewrite Hdec in Htr. simpl in Htr.
  split; [exact Htr|].
  rewrite (@getBuffer_absent_run _ fuel g w name c decoder t1 Hcur Hat Hdec).
  change (dec_read decoder (dec_length decoder)) with frames.
  apply Z.eqb_neq in Hfmt. rewrite Hfmt.
  split; [intros Hzero; rewrite Hzero; reflexivity|].
  split; [intros _; unfold upload_calls; right; left; reflexivity|].
  split; intros Hframes Hup; apply Z.eqb_neq in Hframes; rewrite Hframes, Hup;
    reflexivity.
Qed.


(** X8. Back-pressure on the queue. The frame count of an asynchronous
    insertion is the low 32 bits of the decoder's 64-bit length; when it
    is zero the call throws "No samples for buffer" after the decoder
    resolution and never waits. When it is not zero and the other checks
    pass, the call yields once for every read of [write_space()] that
    finds the queue full and goes on at the first read that finds room:
    with [n] full reads it returns after exactly [n] yields, having
    queued that frame count. As long as the queue stays full it is still
    waiting, with the worker started but nothing queued and nothing
    inserted. *)
Theorem getBufferAsync_waits_for_room {P : Platform}
    (fuel : nat) (g : Globals) (w : Env) (name : string) (c : ALContext)
    (decoder : Decoder) (t1 : list Event) (bid : ALuint) (n : nat) :
  isCurrent c = true ->
  buffer_at (mBuffers c) (lower_bound (hash_less name) (mBuffers c)) name = None ->
  createDecoder fuel g name c = (Returns decoder, c, t1) ->
  GetFormat (dec_channels decoder) (dec_sampleType decoder) <> AL_NONE ->
  al_gen w = Some bid ->
  let frames := wrap32 (dec_getLength decoder) in
  (frames = 0%Z ->
   getBufferAsync fuel g w name c = (Throws NoSamples, c, t1)
   /\ count_yields t1 = 0)
  /\
  (frames <> 0%Z ->
   (forall i, i < n -> write_space w i = 0%Z) ->
   write_space w n <> 0%Z ->
   n < fuel ->
   exists b c',
     getBufferAsync fuel g w name c
     = (Returns b, c',
        t1 ++ [EvAlGenBuffers bid]
           ++ (if mThread_joinable c then [] else [EvThreadStart])
           ++ repeat EvYield n
           ++ [EvEnqueue {| pb_name := name; pb_buffer := bid; pb_decoder := decoder;
                            pb_format := GetFormat (dec_channels decoder)
                                                   (dec_sampleType decoder);
                            pb_frames := frames |};
               EvNotifyAll])
     /\ count_yields (trace_of (getBufferAsync fuel g w name c)) = n)
  /\
  (frames <> 0%Z ->
   (forall i, i < fuel -> write_space w i = 0%Z) ->
   exists c' t,
     getBufferAsync fuel g w name c = (OutOfFuel, c', t) /\
     mBuffers c' = mBuffers c /\ mThread_joinable c' = true /\
     count_enqueues t = 0 /\ count_yields t = fuel).
Proof.
  intros Hcur Hat Hdec Hfmt Hgen frames.
  pose proof (createDecoder_trace fuel g name c) as Htr.
  unfold trace_of in Htr. rewrite Hdec in Htr. simpl in Htr.
  destruct (resolution_counts Htr) as (Hy1 & Hq1 & _).
  split.
  { intros Hzero. split; [|exact Hy1].
    exact (proj1 (@getBufferAsync_rejects _ fuel g w name c decoder t1
                    Hcur Hat Hdec) Hzero). }
  assert (Hrun : frames <> 0%Z ->
            getBufferAsync fuel g w name c
            = if full_reads fuel w 0 <? fuel
              then (Returns
                      (ALBuffer_new bid (dec_frequency decoder) (dec_channels decoder)
                                    (dec_sampleType decoder) false name),
                    set_mBuffers (set_thread c true (mQuitThread c))
                      (vec_insert (lower_bound (hash_less name) (mBuffers c))
                         (ALBuffer_new bid (dec_frequency decoder)
                            (dec_channels decoder) (dec_sampleType decoder)
                            false name)
                         (mBuffers c)),
                    (t1 ++ [EvAlGenBuffers bid]
                        ++ (if mThread_joinable c then [] else [EvThreadStart])
                        ++ repeat EvYield (full_reads fuel w 0))
                    ++ [EvEnqueue {| pb_name := name; pb_buffer := bid;
                                     pb_decoder := decoder;
                                     pb_format := GetFormat (dec_channels decoder)
                                                            (dec_sampleType decoder);
                                     pb_frames := frames |};
                        EvNotifyAll])
              else (OutOfFuel, set_thread c true (mQuitThread c),
                    t1 ++ [EvAlGenBuffers bid]
                       ++ (if mThread_joinable c then [] else [EvThreadStart])
                       ++ repeat EvYield (full_reads fuel w 0))).
  { intros Hlen.
    exact (@getBufferAsync_absent_run _ fuel g w name c decoder t1 bid
             Hcur Hat Hdec Hlen Hfmt Hgen). }
  assert (Hstart_y : count_yields (if mThread_joinable c then [] else [EvThreadStart]) = 0)
    by (destruct (mThread_joinable c); reflexivity).
  assert (Hstart_q : count_enqueues (if mThread_joinable c then [] else [EvThreadStart]) = 0)
    by (destruct (mThread_joinable c); reflexivity).
  split.
  - intros Hlen Hfull Hroom Hfuel. pose proof (Hrun Hlen) as Heq.
    assert (Hn : full_reads fuel w 0 = n).
    { apply full_reads_exact; [|assumption|assumption].
      intros i Hi. apply Hfull. lia. }
    rewrite Hn in Heq. apply Nat.ltb_lt in Hfuel. rewrite Hfuel in Heq.
    eexists. eexists. split.
    + rewrite Heq. rewrite <- !app_assoc. reflexivity.
    + unfold trace_of. rewrite Heq. cbn [snd].
      rewrite !count_yields_app, Hy1, Hstart_y, count_yields_repeat.
      unfold count_yields. simpl. lia.
  - intros Hlen Hfull. pose proof (Hrun Hlen) as Heq.
    assert (Hn : full_reads fuel w 0 = fuel).
    { apply full_reads_all. intros i Hi. apply Hfull. lia. }
    rewrite Hn, Nat.ltb_irrefl in Heq.
    eexists. eexists. split; [exact Heq|]. cbn [mBuffers mThread_joinable set_thread].
    split; [reflexivity|]. split; [reflexivity|].
    rewrite !count_enqueues_app, !count_yields_app, Hy1, Hq1, Hstart_y, Hstart_q,
            count_yields_repeat, count_enqueues_repeat.
    unfold count_yields, count_enqueues. simpl. lia.
Qed.

(** ** Extras on the decoder table and on [createDecoder] *)

Section DecoderTable.
Context {V : Type}.

Lemma map_find_insert (name : string) (v : V) (m : list (string * V)) :
  map_find name m = None -> map_find name (map_insert name v m) = Some v.
Proof.
  induction m as [|[k x] m IH]; simpl; intros Hfind.
  - now rewrite String.eqb_refl.
  - destruct (String.eqb k name) eqn:Hk; [discriminate|].
    destruct (String.ltb name k); simpl.
    + now rewrite String.eqb_refl.
    + rewrite Hk. auto.
Qed.

Lemma map_find_insert_other (name other : string) (v : V) (m : list (string * V)) :
  other <> name -> map_find other (map_insert name v m) = map_find other m.
Proof.
  intros Hne. induction m as [|[k x] m IH]; simpl.
  - destruct (String.eqb name other) eqn:E; [|reflexivity].
    apply String.eqb_eq in E. congruence.
  - destruct (String.ltb name k); simpl.
    + destruct (String.eqb name other) eqn:E; [|reflexivity].
      apply String.eqb_eq in E. congruence.
    + destruct (String.eqb k name); simpl; [reflexivity|].
      destruct (String.eqb k other); [reflexivity|exact IH].
Qed.

Lemma map_erase_insert (name : string) (v : V) (m : list (string * V)) :
  map_find name m = None -> map_erase name (map_insert name v m) = m.
Proof.
  induction m as [|[k x] m IH]; simpl; intros Hfind.
  - now rewrite String.eqb_refl.
  - destruct (String.eqb k name) eqn:Hk; [discriminate|].
    destruct (String.ltb name k); simpl.
    + now rewrite String.eqb_refl.
    + rewrite Hk. f_equal. auto.
Qed.

Lemma In_map_erase (name : string) (m : list (string * V)) :
  forall e, In e (map_erase name m) -> In e m.
Proof.
  induction m as [|[k x] m IH]; simpl; intros e He; [contradiction|].
  destruct (String.eqb k name); [auto|].
  destruct He as [<-|He]; auto.
Qed.

Lemma map_erase_sorted (name : string) (m : list (string * V)) :
  map_sorted m -> map_sorted (map_erase name m).
Proof.
  unfold map_sorted. induction 1 as [|[k x] m Hs IH Hall]; simpl; [constructor|].
  destruct (String.eqb k name); [assumption|].
  constructor; [assumption|].
  apply Forall_forall. intros e He. apply In_map_erase in He.
  rewrite Forall_forall in Hall. auto.
Qed.

Lemma map_find_erase (name : string) (m : list (string * V)) :
  map_sorted m -> map_find name (map_erase name m) = None.
Proof.
  unfold map_sorted. induction 1 as [|[k x] m Hs IH Hall]; simpl; [reflexivity|].
  destruct (String.eqb k name) eqn:Hk; simpl.
  - apply String.eqb_eq in Hk. subst k.
    (* every later key is above name *)
    clear IH. induction m as [|[k' x'] m IHm]; simpl; [reflexivity|].
    inversion Hall as [|? ? Hlt Hrest]; subst. simpl in Hlt.
    destruct (String.eqb k' name) eqn:Hk'.
    + apply String.eqb_eq in Hk'. subst k'. exfalso.
      unfold String.ltb in Hlt.
      pose proof (String.compare_antisym name name) as Hanti.
      destruct (String.compare name name); discriminate.
    + inversion Hs; subst. apply IHm; assumption.
  - rewrite Hk. exact IH.
Qed.
End DecoderTable.

Lemma set_sDecoders_same (g : Globals) : set_sDecoders g (sDecoders g) = g.
Proof. destruct g; reflexivity. Qed.

(** X9. Register, then unregister. Registering a factory under a name
    that is not in the table succeeds, and unregistering that name right
    after returns the very factory and gives back the table and the other
    statics as they were. Unregistering a name that is not in the table
    returns null and changes nothing. *)
Theorem UnregisterDecoder_undoes_RegisterDecoder
    (name : string) (factory : DecoderFactory) (g : Globals) :
  map_find name (sDecoders g) = None ->
  fst (RegisterDecoder name factory g) = Returns tt /\
  UnregisterDecoder name (snd (RegisterDecoder name factory g)) = (Some factory, g) /\
  UnregisterDecoder name g = (None, g).
Proof.
  intros Hfind. unfold RegisterDecoder, UnregisterDecoder. rewrite Hfind. simpl.
  rewrite map_find_insert by assumption.
  rewrite map_erase_insert by assumption.
  unfold set_sDecoders at 1. simpl.
  destruct g; auto.
Qed.

(** X10. The first registration of a name wins. After a successful
    [RegisterDecoder name factory], the table maps [name] to [factory] and
    every other name to what it mapped to before; registering [name] again,
    with any factory, throws "already registered" and leaves the table as
    it is. Under any sequence of [RegisterDecoder] and [UnregisterDecoder]
    calls starting from the empty table the names stay in strictly
    ascending order, and a name that has just been unregistered is no
    longer found. *)
Theorem RegisterDecoder_first_wins
    (name other : string) (factory factory' : DecoderFactory) (g0 : Globals)
    (ops : list DecoderOp) :
  sDecoders g0 = [] ->
  let g := run_decoder_ops ops g0 in
  map_sorted (sDecoders g) /\
  map_find name (sDecoders (snd (UnregisterDecoder name g))) = None /\
  (map_find name (sDecoders g) = None ->
   let g' := snd (RegisterDecoder name factory g) in
   map_find name (sDecoders g') = Some factory /\
   (other <> name -> map_find other (sDecoders g') = map_find other (sDecoders g)) /\
   RegisterDecoder name factory' g' = (Throws (AlreadyRegistered name), g')).
Proof.
  intros Hempty g.
  assert (Hs : map_sorted (sDecoders g)).
  { unfold g, run_decoder_ops.
    assert (Hgen : forall ops g1, map_sorted (sDecoders g1) ->
                     map_sorted (sDecoders (fold_left run_decoder_op ops g1))).
    { clear. induction ops as [|op ops IH]; intros g1 Hs1; simpl; [assumption|].
      apply IH. destruct op as [n f|n]; simpl.
      - apply RegisterDecoder_sorted. assumption.
      - unfold UnregisterDecoder. destruct (map_find n (sDecoders g1)); simpl;
          [apply map_erase_sorted|]; assumption. }
    apply Hgen. rewrite Hempty. constructor. }
  split; [exact Hs|]. split.
  - unfold UnregisterDecoder.
    destruct (map_find name (sDecoders g)) eqn:Hf; simpl; [|exact Hf].
    apply map_find_erase. assumption.
  - intros Hfind g'. unfold g', RegisterDecoder. rewrite Hfind. simpl.
    rewrite map_find_insert by assumption.
    split; [reflexivity|]. split; [|reflexivity].
    intros Hne. apply map_find_insert_other. assumption.
Qed.

(** X11. No decoder. When every registered and every built-in factory
    rejects the stream and every rewind succeeds, [GetDecoder] throws "No
    decoder" after having tried each factory once, in order, and rewound
    the stream after each of them, the last one included; at least the
    wave factory has been tried. *)
Theorem GetDecoder_all_reject {P : Platform}
    (g : Globals) (name : string) (file file' : istream) :
  all_reject file (sDecoders g ++ sDefaultDecoders) = Some file' ->
  GetDecoder g name file
  = (Throws (NoDecoderFor name),
     rejection_trace (is_pos file) (sDecoders g ++ sDefaultDecoders))
  /\
  count_rewinds (rejection_trace (is_pos file) (sDecoders g ++ sDefaultDecoders))
  = List.length (sDecoders g) + List.length sDefaultDecoders
  /\
  0 < List.length sDefaultDecoders
  /\
  is_pos file' = 0%Z.
Proof.
  intros Hrej.
  destruct (@GetDecoder_range_rejected (sDecoders g ++ sDefaultDecoders) []
              file file' Hrej) as [Hrun Hpos].
  rewrite app_nil_r in Hrun. simpl in Hrun. rewrite app_nil_r in Hrun.
  split; [|split; [|split]].
  - rewrite GetDecoder_as_one_range, Hrun. reflexivity.
  - rewrite count_rewinds_rejection_trace, length_app. reflexivity.
  - unfold sDefaultDecoders. simpl. lia.
  - apply Hpos. unfold sDefaultDecoders. simpl.
    destruct (sDecoders g); discriminate.
Qed.

Section Substitution.
Context {P : Platform}.

Lemma asked_S (h : MessageHandler) (name : string) (k : nat) :
  asked h name (S k)
  = EvResourceNotFound name :: asked h (resourceNotFound h name) k.
Proof.
  unfold asked. simpl. f_equal. rewrite <- seq_shift, map_map. reflexivity.
Qed.

Lemma find_substitute_chain (g : Globals) (h : MessageHandler) (c : ALContext) :
  forall k name fuel,
    k < fuel ->
    (forall i, 0 < i <= k ->
               substitute h name i <> EmptyString /\
               FileIOFactory_get g (substitute h name i) = None) ->
    (substitute h name (S k) = EmptyString ->
     find_substitute fuel g h name c
     = (Throws (FailedToOpen (substitute h name k)), c, asked h name (S k)))
    /\
    (forall file,
        substitute h name (S k) <> EmptyString ->
        FileIOFactory_get g (substitute h name (S k)) = Some file ->
        find_substitute fuel g h name c
        = (Returns (substitute h name (S k), file), c, asked h name (S k))).
Proof.
  induction k as [|k IH]; intros name fuel Hfuel Hfail;
    (destruct fuel as [|fuel]; [lia|]); simpl find_substitute; unfold_m; simpl.
  - split.
    + intros Hempty. simpl in Hempty. rewrite Hempty. reflexivity.
    + intros file Hne Hopen. simpl in Hne, Hopen.
      apply String.eqb_neq in Hne. rewrite Hne, Hopen. reflexivity.
  - destruct (Hfail 1) as [Hne1 Hopen1]; [lia|]. simpl in Hne1, Hopen1.
    apply String.eqb_neq in Hne1. rewrite Hne1, Hopen1.
    destruct (IH (resourceNotFound h name) fuel) as [Hthrow Hfound]; [lia| |].
    { intros i Hi. apply (Hfail (S i)). lia. }
    split.
    + intros Hempty. rewrite (Hthrow Hempty). rewrite (asked_S h name (S k)).
      reflexivity.
    + intros file Hne Hopen. rewrite (Hfound file Hne Hopen).
      rewrite (asked_S h name (S k)). reflexivity.
Qed.
End Substitution.

(** X12. Substitute names. [createDecoder] consults the handler only when
    the name does not open: a name that opens is resolved at once, with no
    [resourceNotFound] call; with no handler installed a name that does
    not open throws "Failed to open" for that name. With a handler, the
    names it proposes are tried in turn, each being asked about once: if
    the first [k] proposals do not open and the next one is empty, the
    call throws "Failed to open" for the last name tried; if the next one
    opens, the decoder is resolved on that stream under that name. *)
Theorem createDecoder_substitutes {P : Platform}
    (fuel : nat) (g : Globals) (name : string) (c : ALContext)
    (h : MessageHandler) (k : nat) :
  (forall file,
      FileIOFactory_get g name = Some file ->
      createDecoder fuel g name c
      = (fst (GetDecoder g name file), c, snd (GetDecoder g name file)))
  /\
  (FileIOFactory_get g name = None -> mMessage c = None ->
   createDecoder fuel g name c = (Throws (FailedToOpen name), c, []))
  /\
  (FileIOFactory_get g name = None -> mMessage c = Some h ->
   k < fuel ->
   (forall i, 0 < i <= k ->
              substitute h name i <> EmptyString /\
              FileIOFactory_get g (substitute h name i) = None) ->
   (substitute h name (S k) = EmptyString ->
    createDecoder fuel g name c
    = (Throws (FailedToOpen (substitute h name k)), c, asked h name (S k)))
   /\
   (forall file,
       substitute h name (S k) <> EmptyString ->
       FileIOFactory_get g (substitute h name (S k)) = Some file ->
       createDecoder fuel g name c
       = (fst (GetDecoder g (substitute h name (S k)) file), c,
          asked h name (S k) ++ snd (GetDecoder g (substitute h name (S k)) file)))).
Proof.
  unfold createDecoder. split; [|split].
  - intros file Hopen. rewrite Hopen. reflexivity.
  - intros Hopen Hnone. rewrite Hopen. unfold_m. simpl. rewrite Hnone. reflexivity.
  - intros Hopen Hh Hfuel Hfail. rewrite Hopen. unfold_m. simpl. rewrite Hh.
    destruct (@find_substitute_chain g h c k name fuel Hfuel Hfail)
      as [Hthrow Hfound].
    split.
    + intros Hempty. rewrite (Hthrow Hempty). reflexivity.
    + intros file Hne Hfile. rewrite (Hfound file Hne Hfile). simpl.
      destruct (GetDecoder g (substitute h name (S k)) file); reflexivity.
Qed.

(** ** Extras on the source pool *)

Section PoolExtras.
Context {P : Platform}.

Lemma createSource_not_current (c : ALContext) :
  isCurrent c = false -> createSource c = (Throws ContextNotCurrent, c, []).
Proof. intros Hcur. unfold createSource. unfold_m. rewrite Hcur. reflexivity. Qed.

Lemma run_source_op_frame (c : ALContext) (op : SourceOp) :
  let c' := run_source_op c op in
  mBuffers c' = mBuffers c /\ mSourceIds c' = mSourceIds c /\
  mRefs c' = mRefs c /\ mContext c' = mContext c /\
  exists k, mAllSources c' = mAllSources c ++ repeat ALSource_new k /\
            k <= match op with OpCreateSource => 1 | OpFreeSource _ => 0 end.
Proof.
  destruct op as [|source]; simpl.
  - destruct (isCurrent c) eqn:Hcur.
    + rewrite (createSource_run c Hcur). unfold state_after. simpl.
      repeat (split; [reflexivity|]).
      destruct (mFreeSources c).
      * exists 1. split; [reflexivity|lia].
      * exists 0. split; [simpl; now rewrite app_nil_r|lia].
    + rewrite (createSource_not_current c Hcur). unfold state_after. simpl.
      repeat (split; [reflexivity|]).
      exists 0. split; [simpl; now rewrite app_nil_r|lia].
  - rewrite freeSource_run. unfold state_after. simpl.
    repeat (split; [reflexivity|]).
    exists 0. split; [simpl; now rewrite app_nil_r|lia].
Qed.

Lemma run_sources_frame (ops : list SourceOp) :
  forall c,
    let c' := run_sources ops c in
    mBuffers c' = mBuffers c /\ mSourceIds c' = mSourceIds c /\
    mRefs c' = mRefs c /\ mContext c' = mContext c /\
    exists k, mAllSources c' = mAllSources c ++ repeat ALSource_new k /\
              k <= count_creates ops.
Proof.
  unfold run_sources, count_creates.
  induction ops as [|op ops IH]; intros c; simpl.
  - repeat (split; [reflexivity|]). exists 0. split; [simpl; now rewrite app_nil_r|lia].
  - destruct (run_source_op_frame c op) as (Hb & Hi & Hr & Hc & k1 & Hall1 & Hk1).
    destruct (IH (run_source_op c op)) as (Hb' & Hi' & Hr' & Hc' & k2 & Hall2 & Hk2).
    split; [congruence|]. split; [congruence|]. split; [congruence|].
    split; [congruence|].
    exists (k1 + k2). split.
    + rewrite Hall2, Hall1, <- app_assoc, repeat_app. reflexivity.
    + destruct op; simpl in *; lia.
Qed.
End PoolExtras.

(** X13. A request never evicts while a voice is available. On a current
    context, when the stack of free voices is not empty [getSourceId]
    returns its top and pops it, without asking OpenAL for a voice; when
    the stack is empty and [alGenSources] succeeds it returns the new
    voice and leaves the context as it is. In both cases no source is
    stopped and nothing is notified, whatever the priorities and whatever
    [makeStopped] would do. *)
Theorem getSourceId_prefers_free_voice
    (makeStopped : nat -> M unit) (w : Env) (maxprio : ALuint) (c : ALContext) :
  isCurrent c = true ->
  (forall id rest,
      mSourceIds c = id :: rest ->
      getSourceId makeStopped w maxprio c = (Returns id, set_mSourceIds c rest, []))
  /\
  (forall id,
      mSourceIds c = [] -> al_gen w = Some id ->
      getSourceId makeStopped w maxprio c = (Returns id, c, [EvAlGenSources])).
Proof.
  intros Hcur. unfold getSourceId, take_source_id. unfold_m. rewrite Hcur. simpl.
  split.
  - intros id rest Hstack. rewrite Hstack. simpl. rewrite Hstack. reflexivity.
  - intros id Hstack Hgen. rewrite Hstack, Hgen. reflexivity.
Qed.

(** X14. The free list hands out its newest entry and drops its oldest.
    On a current context whose free list holds at least two sources,
    [createSource] returns the source released last and allocates
    nothing, but the entry it removes from the free list is the one
    released first: the source returned is still in the free list
    afterwards, and is in the used-source index as well. *)
Theorem createSource_returns_back_drops_front {P : Platform}
    (c : ALContext) (front second : nat) (rest : list nat) :
  (forall i j, addr i = addr j -> i = j) ->
  isCurrent c = true ->
  pool_ok c ->
  mFreeSources c = front :: second :: rest ->
  exists c',
    createSource c = (Returns (last (second :: rest) front), c', []) /\
    mFreeSources c' = second :: rest /\
    In (last (second :: rest) front) (mFreeSources c') /\
    In (last (second :: rest) front) (mUsedSources c') /\
    mAllSources c' = mAllSources c.
Proof.
  intros Hinj Hcur (Hsorted & _ & _) Hfree.
  pose proof (createSource_run c Hcur) as Hrun. simpl in Hrun.
  rewrite Hfree in Hrun.
  assert (Hlast : last (front :: second :: rest) 0 = last (second :: rest) front).
  { change (last (front :: second :: rest) 0) with (last (second :: rest) 0).
    generalize second. clear. induction rest as [|r rest IH]; intros second.
    - reflexivity.
    - change (last (second :: r :: rest) 0) with (last (r :: rest) 0).
      change (last (second :: r :: rest) front) with (last (r :: rest) front).
      apply IH. }
  rewrite Hlast in Hrun.
  eexists. split; [exact Hrun|].
  cbn [mFreeSources mUsedSources mAllSources set_sources tl].
  split; [reflexivity|]. split; [|split; [|reflexivity]].
  - apply last_In. discriminate.
  - destruct (ptr_at _ _ _) eqn:Hat.
    + apply (ptr_at_In Hinj _ Hsorted). exact Hat.
    + apply In_vec_insert. left. reflexivity.
Qed.

(** X15. What the pool keeps. Along any sequence of [createSource] and
    [freeSource] calls that releases only sources of the context, the
    used-source index stays in strictly ascending address order, hence
    without duplicates, and it and the free list only point to sources
    the context owns; source objects are never destroyed or moved: the
    sources owned afterwards are the ones owned before followed by newly
    constructed ones, at most one for each [createSource] call; and the
    registry, the voice stack, the reference count and the hardware
    handle are not touched. *)
Theorem source_pool_invariants {P : Platform} (ops : list SourceOp) (c : ALContext) :
  pool_ok c ->
  valid_source_ops ops c ->
  strictly_sorted_by addr (mUsedSources (run_sources ops c)) /\
  NoDup (mUsedSources (run_sources ops c)) /\
  (forall p, In p (mUsedSources (run_sources ops c))
             \/ In p (mFreeSources (run_sources ops c)) ->
             p < List.length (mAllSources (run_sources ops c))) /\
  (exists k, mAllSources (run_sources ops c) = mAllSources c ++ repeat ALSource_new k
             /\ k <= count_creates ops) /\
  mBuffers (run_sources ops c) = mBuffers c /\
  mSourceIds (run_sources ops c) = mSourceIds c /\
  mRefs (run_sources ops c) = mRefs c /\
  mContext (run_sources ops c) = mContext c.
Proof.
  intros Hok Hvalid.
  destruct (run_sources_pool_ok ops Hok Hvalid) as (Hs & Hu & Hf).
  destruct (run_sources_frame ops c) as (Hb & Hi & Hr & Hc & Hgrow).
  split; [exact Hs|]. split; [eapply strictly_sorted_NoDup; exact Hs|].
  split; [intros p [Hp|Hp]; auto|].
  split; [exact Hgrow|]. auto.
Qed.

(** ** Extras on source groups *)

Section SourceGroups.

Lemma ltb_irrefl (a : string) : String.ltb a a = false.
Proof.
  unfold String.ltb. pose proof (String.compare_antisym a a) as Hanti.
  destruct (String.compare a a); try reflexivity; discriminate.
Qed.

Lemma name_less_partitioned (name : string) (l : list ALSourceGroup) :
  groups_sorted l -> partitioned (name_less name) l.
Proof.
  unfold partitioned, name_less.
  induction 1 as [|y l Hs IH Hall]; simpl; intros x Hin; [contradiction|].
  destruct (String.ltb (sg_name y) name) eqn:Hy.
  - apply IH. exact Hin.
  - rewrite skipn_O in Hin. destruct Hin as [<-|Hin]; [assumption|].
    rewrite Forall_forall in Hall. specialize (Hall _ Hin).
    destruct (String.ltb (sg_name x) name) eqn:Hx; [|reflexivity].
    rewrite (ltb_trans _ _ _ Hall Hx) in Hy. discriminate.
Qed.

Lemma lower_bound_groups (name : string) (l : list ALSourceGroup) :
  groups_sorted l ->
  lower_bound (name_less name) l = partition_point (name_less name) l.
Proof.
  intros Hs. apply lower_bound_partition_point.
  apply name_less_partitioned. assumption.
Qed.

(** In a vector of groups with ascending names the search for a name
    that is there ends on its group. *)
Lemma group_found (name : string) (l : list ALSourceGroup) (gp : ALSourceGroup) :
  groups_sorted l -> In gp l -> sg_name gp = name ->
  nth_error l (partition_point (name_less name) l) = Some gp.
Proof.
  unfold name_less.
  induction 1 as [|y l Hs IH Hall]; simpl; intros Hin Hname; [contradiction|].
  destruct (String.ltb (sg_name y) name) eqn:Hy.
  - destruct Hin as [->|Hin].
    + rewrite Hname, ltb_irrefl in Hy. discriminate.
    + simpl. apply IH; assumption.
  - simpl. destruct Hin as [->|Hin]; [reflexivity|].
    rewrite Forall_forall in Hall. specialize (Hall _ Hin).
    rewrite Hname in Hall. congruence.
Qed.

Lemma group_at_Some (l : list ALSourceGroup) (iter : nat) (name : string)
    (gp : ALSourceGroup) :
  group_at l iter name = Some gp ->
  nth_error l iter = Some gp /\ sg_name gp = name.
Proof.
  unfold group_at. destruct (nth_error l iter) as [x|]; [|discriminate].
  destruct (String.eqb (sg_name x) name) eqn:E; [|discriminate].
  intros H; inversion H; subst. apply String.eqb_eq in E. auto.
Qed.

Lemma group_lookup (name : string) (l : list ALSourceGroup) :
  groups_sorted l ->
  forall gp,
    group_at l (lower_bound (name_less name) l) name = Some gp
    <-> In gp l /\ sg_name gp = name.
Proof.
  intros Hs gp. rewrite lower_bound_groups by assumption. split.
  - intros Hat. apply group_at_Some in Hat. destruct Hat as [Hn Hname].
    split; [eapply nth_error_In; eassumption|assumption].
  - intros [Hin Hname]. unfold group_at.
    rewrite (@group_found name l gp Hs Hin Hname), Hname, String.eqb_refl. reflexivity.
Qed.

Lemma groups_sorted_insert (gp : ALSourceGroup) (l : list ALSourceGroup) :
  groups_sorted l ->
  (forall y, nth_error l (partition_point (name_less (sg_name gp)) l) = Some y ->
             sg_name y <> sg_name gp) ->
  groups_sorted (vec_insert (partition_point (name_less (sg_name gp)) l) gp l).
Proof.
  unfold groups_sorted, name_less.
  induction 1 as [|y l Hs IH Hall]; simpl; intros Hne.
  - repeat constructor.
  - destruct (String.ltb (sg_name y) (sg_name gp)) eqn:Hy.
    + rewrite vec_insert_cons. constructor; [apply IH; exact Hne|].
      apply Forall_forall. intros z Hz. apply In_vec_insert in Hz.
      destruct Hz as [->|Hz]; [assumption|].
      rewrite Forall_forall in Hall. auto.
    + specialize (Hne y eq_refl).
      assert (Hgt : String.ltb (sg_name gp) (sg_name y) = true).
      { apply ltb_total; [assumption|].
        apply String.eqb_neq. congruence. }
      unfold vec_insert. simpl.
      constructor; [constructor; assumption|].
      constructor; [assumption|].
      apply Forall_forall. intros z Hz.
      rewrite Forall_forall in Hall. specialize (Hall _ Hz).
      eapply ltb_trans; eassumption.
Qed.

Lemma groups_sorted_names (l : list ALSourceGroup) :
  groups_sorted l -> NoDup (map sg_name l).
Proof.
  induction 1 as [|y l Hs IH Hall]; simpl; constructor; [|assumption].
  intros Hin. apply in_map_iff in Hin. destruct Hin as [x [Hname Hx]].
  rewrite Forall_forall in Hall. specialize (Hall _ Hx).
  rewrite Hname, ltb_irrefl in Hall. discriminate.
Qed.

Lemma createSourceGroup_sorted (fresh : nat) (name : string) (l : list ALSourceGroup) :
  groups_sorted l -> groups_sorted (snd (createSourceGroup fresh name l)).
Proof.
  intros Hs. unfold createSourceGroup.
  destruct (group_at l (lower_bound (name_less name) l) name) as [gp|] eqn:Hat;
    simpl; [assumption|].
  rewrite lower_bound_groups in * by assumption.
  apply (groups_sorted_insert {| sg_ptr := fresh; sg_name := name |} Hs).
  simpl. intros y Hy Hname. unfold group_at in Hat. rewrite Hy in Hat.
  rewrite Hname, String.eqb_refl in Hat. discriminate.
Qed.

Lemma freeSourceGroup_sorted (group : ALSourceGroup) (l : list ALSourceGroup) :
  groups_sorted l -> groups_sorted (freeSourceGroup group l).
Proof.
  intros Hs. unfold freeSourceGroup.
  destruct (nth_error l _) as [gp|]; [|assumption].
  destruct (Nat.eqb (sg_ptr gp) (sg_ptr group)); [|assumption].
  apply StronglySorted_vec_erase. assumption.
Qed.
End SourceGroups.

(** X16. Source group names are unique. Starting from no group, after any
    sequence of [createSourceGroup] and [freeSourceGroup] calls the vector
    of groups is in strictly ascending order of names, so no two groups
    have the same name; and [createSourceGroup] for the name of a group
    that is in the vector throws "Duplicate source group name" and leaves
    the vector as it is. *)
Theorem source_group_names_unique
    (ops : list GroupOp) (fresh : nat) (gp : ALSourceGroup) :
  groups_sorted (run_group_ops ops []) /\
  NoDup (map sg_name (run_group_ops ops [])) /\
  (In gp (run_group_ops ops []) ->
   createSourceGroup fresh (sg_name gp) (run_group_ops ops [])
   = (Raised DuplicateSourceGroupName, run_group_ops ops [])).
Proof.
  assert (Hs : groups_sorted (run_group_ops ops [])).
  { unfold run_group_ops.
    assert (Hgen : forall ops l, groups_sorted l ->
                                 groups_sorted (fold_left run_group_op ops l)).
    { clear. induction ops as [|op ops IH]; intros l Hl; simpl; [assumption|].
      apply IH. destruct op; simpl.
      - apply createSourceGroup_sorted. assumption.
      - apply freeSourceGroup_sorted. assumption. }
    apply Hgen. constructor. }
  split; [exact Hs|]. split; [apply groups_sorted_names; exact Hs|].
  intros Hin. unfold createSourceGroup.
  rewrite (proj2 (@group_lookup (sg_name gp) _ Hs gp) (conj Hin eq_refl)).
  reflexivity.
Qed.

(** X17. Create, look up, free. In a vector of groups with ascending
    names that has no group named [name]: [getSourceGroup name] throws
    "Source group not found"; [createSourceGroup name] inserts a new group
    and returns it; [getSourceGroup name] then returns that very group,
    and the lookup of every other name is as before; [freeSourceGroup] of
    the group gives back the vector as it was, while [freeSourceGroup] of
    another object of the same name erases nothing. *)
Theorem getSourceGroup_after_createSourceGroup
    (fresh stale : nat) (name other : string) (groups : list ALSourceGroup) :
  groups_sorted groups ->
  (forall gp, In gp groups -> sg_name gp <> name) ->
  let created := {| sg_ptr := fresh; sg_name := name |} in
  let groups' := snd (createSourceGroup fresh name groups) in
  getSourceGroup name groups = Raised SourceGroupNotFound /\
  fst (createSourceGroup fresh name groups) = Done created /\
  getSourceGroup name groups' = Done created /\
  (other <> name -> getSourceGroup other groups' = getSourceGroup other groups) /\
  freeSourceGroup created groups' = groups /\
  (stale <> fresh ->
   freeSourceGroup {| sg_ptr := stale; sg_name := name |} groups' = groups').
Proof.
  intros Hs Hmissing created groups'.
  assert (Hat : group_at groups (lower_bound (name_less name) groups) name = None).
  { destruct (group_at groups _ name) as [gp|] eqn:Hat; [|reflexivity].
    apply (group_lookup name Hs) in Hat. destruct Hat as [Hin Hname].
    exfalso. eapply Hmissing; eassumption. }
  assert (Hgroups' : groups' = vec_insert (lower_bound (name_less name) groups)
                                          created groups).
  { unfold groups', createSourceGroup. rewrite Hat. reflexivity. }
  assert (Hs' : groups_sorted groups')
    by (apply createSourceGroup_sorted; assumption).
  assert (Hin' : forall gp, In gp groups' <-> gp = created \/ In gp groups).
  { intros gp. rewrite Hgroups'. apply In_vec_insert. }
  assert (Hiter : lower_bound (name_less name) groups'
                  = lower_bound (name_less name) groups).
  { rewrite (lower_bound_groups name Hs'), (lower_bound_groups name Hs), Hgroups'.
    rewrite (lower_bound_groups name Hs).
    apply partition_point_insert. apply ltb_irrefl. }
  assert (Hnth : nth_error groups' (lower_bound (name_less name) groups')
                 = Some created).
  { rewrite Hiter, Hgroups'. apply nth_error_vec_insert.
    apply lower_bound_le_length. }
  split; [unfold getSourceGroup; now rewrite Hat|].
  split; [unfold createSourceGroup; now rewrite Hat|].
  split; [|split; [|split]].
  - unfold getSourceGroup, group_at. rewrite Hnth. simpl.
    now rewrite String.eqb_refl.
  - intros Hne. unfold getSourceGroup.
    destruct (group_at groups (lower_bound (name_less other) groups) other)
      as [gp|] eqn:Hold.
    + apply (group_lookup other Hs) in Hold. destruct Hold as [Hin Hname].
      assert (Hnew : In gp groups' /\ sg_name gp = other)
        by (split; [apply Hin'; auto|assumption]).
      apply (group_lookup other Hs') in Hnew. now rewrite Hnew.
    + destruct (group_at groups' (lower_bound (name_less other) groups') other)
        as [gp|] eqn:Hnew; [|reflexivity].
      apply (group_lookup other Hs') in Hnew. destruct Hnew as [Hin Hname].
      apply Hin' in Hin. destruct Hin as [->|Hin]; [simpl in Hname; congruence|].
      assert (Hfound : In gp groups /\ sg_name gp = other) by auto.
      apply (group_lookup other Hs) in Hfound. congruence.
  - unfold freeSourceGroup. simpl sg_name. rewrite Hnth. simpl.
    rewrite Nat.eqb_refl, Hiter, Hgroups'.
    apply vec_erase_insert. apply lower_bound_le_length.
  - intros Hstale. unfold freeSourceGroup. simpl sg_name. rewrite Hnth. simpl.
    apply Nat.eqb_neq in Hstale. rewrite Nat.eqb_sym, Hstale. reflexivity.
Qed.

(** ** Extras on the streaming sources *)

Lemma skipn_nth_error {A} (l : list A) :
  forall i x, nth_error l i = Some x -> skipn i l = x :: skipn (S i) l.
Proof.
  induction l as [|y l IH]; intros i x Hn.
  - destruct i; discriminate.
  - destruct i as [|i]; simpl in *.
    + inversion Hn; reflexivity.
    + apply IH. assumption.
Qed.

Lemma firstn_S_nth_error {A} (l : list A) :
  forall i x, nth_error l i = Some x -> firstn (S i) l = firstn i l ++ [x].
Proof.
  induction l as [|y l IH]; intros i x Hn.
  - destruct i; discriminate.
  - destruct i as [|i]; simpl in *.
    + inversion Hn; reflexivity.
    + f_equal. apply IH. assumption.
Qed.

Lemma vec_erase_parts {A} (l : list A) :
  forall i, i < List.length l ->
    firstn i (vec_erase i l) = firstn i l /\
    skipn i (vec_erase i l) = skipn (S i) l /\
    S (List.length (vec_erase i l)) = List.length l.
Proof.
  induction l as [|y l IH]; intros i Hi; simpl in Hi; [lia|].
  destruct i as [|i].
  - unfold vec_erase. simpl. auto.
  - rewrite vec_erase_cons. simpl.
    destruct (IH i) as (H1 & H2 & H3); [lia|].
    rewrite H1, H2, H3. auto.
Qed.

(** The sweep, with its erasures in place, is a filter; every source is
    updated once, in the order of the vector. *)
Lemma sweep_streams_filter (updateAsync : nat -> bool) :
  forall fuel streams source,
    List.length streams - source <= fuel ->
    sweep_streams updateAsync fuel source streams
    = (firstn source streams ++ filter updateAsync (skipn source streams),
       skipn source streams).
Proof.
  induction fuel as [|fuel IH]; intros streams source Hfuel; simpl.
  - rewrite skipn_all2 by lia. rewrite firstn_all2 by lia.
    simpl. now rewrite app_nil_r.
  - destruct (nth_error streams source) as [s|] eqn:Hs.
    + assert (Hlt : source < List.length streams)
        by (apply nth_error_Some; congruence).
      rewrite (skipn_nth_error _ _ Hs). simpl.
      destruct (updateAsync s).
      * rewrite IH by lia. rewrite (firstn_S_nth_error _ _ Hs), <- app_assoc.
        reflexivity.
      * destruct (vec_erase_parts streams Hlt) as (H1 & H2 & H3).
        rewrite IH by lia. rewrite H1, H2. reflexivity.
    + apply nth_error_None in Hs.
      rewrite skipn_all2 by lia. rewrite firstn_all2 by lia.
      simpl. now rewrite app_nil_r.
Qed.

Lemma StronglySorted_filter {A} (R : A -> A -> Prop) (f : A -> bool) (l : list A) :
  StronglySorted R l -> StronglySorted R (filter f l).
Proof.
  induction 1 as [|x l Hs IH Hall]; simpl; [constructor|].
  destruct (f x); [|assumption].
  constructor; [assumption|].
  apply Forall_forall. intros y Hy. apply filter_In in Hy.
  rewrite Forall_forall in Hall. apply Hall. tauto.
Qed.

Section Streams.
Context {P : Platform}.
Hypothesis addr_injective : forall i j, addr i = addr j -> i = j.

Lemma stream_insert_sorted (source : nat) (l : list nat) :
  strictly_sorted_by addr l ->
  let iter := lower_bound (ptr_less source) l in
  strictly_sorted_by addr (if ptr_at l iter source then l
                           else vec_insert iter source l).
Proof.
  intros Hs iter. destruct (ptr_at l iter source) eqn:Hat; [assumption|].
  unfold iter in *. rewrite lower_bound_used in * by assumption.
  apply strictly_sorted_vec_insert; [assumption|].
  intros y Hy Heq. unfold ptr_at in Hat. rewrite Hy in Hat.
  apply Z.eqb_neq in Hat. contradiction.
Qed.

Lemma run_stream_op_sorted (sc : StreamingContext) (op : StreamOp) :
  strictly_sorted_by addr (mStreamingSources sc) ->
  strictly_sorted_by addr (mStreamingSources (run_stream_op sc op)).
Proof.
  intros Hs. destruct op as [source|source|updateAsync]; simpl.
  - apply stream_insert_sorted. assumption.
  - unfold removeStreamNoLock. destruct (ptr_at _ _ _); [|assumption].
    apply StronglySorted_vec_erase. assumption.
  - rewrite sweep_streams_filter by lia. simpl.
    apply StronglySorted_filter. assumption.
Qed.
End Streams.

(** X18. The set of streaming sources. Starting from any vector in
    strictly ascending address order, every sequence of [addStream],
    [removeStream] and worker sweeps keeps it so, hence without
    duplicates. [addStream] leaves the source in the set, is idempotent,
    and starts the worker thread exactly when it is not running, so that
    it runs afterwards; [removeStream] leaves the source out of the set,
    and undoes the [addStream] of a source that was not in it. *)
Theorem streaming_set_operations {P : Platform}
    (ops : list StreamOp) (sc0 : StreamingContext) (source : nat) :
  (forall i j, addr i = addr j -> i = j) ->
  strictly_sorted_by addr (mStreamingSources sc0) ->
  let sc := run_stream_ops ops sc0 in
  strictly_sorted_by addr (mStreamingSources sc) /\
  NoDup (mStreamingSources sc) /\
  In source (mStreamingSources (fst (addStream source sc))) /\
  fst (addStream source (fst (addStream source sc))) = fst (addStream source sc) /\
  mThread_joinable (sc_context (fst (addStream source sc))) = true /\
  (snd (addStream source sc)
   = if mThread_joinable (sc_context sc) then [] else [EvThreadStart]) /\
  ~ In source (mStreamingSources (removeStream source sc)) /\
  (~ In source (mStreamingSources sc) ->
   mStreamingSources (removeStream source (fst (addStream source sc)))
   = mStreamingSources sc).
Proof.
  intros Hinj Hs0 sc.
  assert (Hs : strictly_sorted_by addr (mStreamingSources sc)).
  { unfold sc, run_stream_ops. clear sc. revert sc0 Hs0.
    induction ops as [|op ops IH]; intros sc0 Hs0; simpl; [assumption|].
    apply IH. apply run_stream_op_sorted; assumption. }
  assert (Hadd : strictly_sorted_by addr (mStreamingSources (fst (addStream source sc)))).
  { change (fst (addStream source sc)) with (run_stream_op sc (OpAddStream source)).
    apply run_stream_op_sorted; assumption. }
  assert (Hin : In source (mStreamingSources (fst (addStream source sc)))).
  { unfold addStream. simpl. destruct (ptr_at _ _ source) eqn:Hat.
    - apply (ptr_at_In Hinj _ Hs). exact Hat.
    - apply In_vec_insert. left. reflexivity. }
  split; [exact Hs|]. split; [eapply strictly_sorted_NoDup; exact Hs|].
  split; [exact Hin|]. split; [|split; [|split; [|split]]].
  - apply (ptr_at_In Hinj _ Hadd) in Hin.
    assert (Hthr : mThread_joinable (sc_context (fst (addStream source sc))) = true).
    { unfold addStream. simpl.
      destruct (mThread_joinable (sc_context sc)) eqn:Hthr; simpl; auto. }
    remember (fst (addStream source sc)) as sc1 eqn:Hsc1. clear Hsc1.
    unfold addStream. cbv zeta. simpl fst. rewrite Hin, Hthr.
    destruct sc1; reflexivity.
  - unfold addStream. simpl.
    destruct (mThread_joinable (sc_context sc)) eqn:Hthr; simpl; auto.
  - reflexivity.
  - unfold removeStream, removeStreamNoLock. simpl.
    destruct (ptr_at _ _ source) eqn:Hat.
    + apply not_In_vec_erase.
      * eapply strictly_sorted_NoDup; eassumption.
      * apply (ptr_at_source Hinj). assumption.
    + intros Hin'. apply (ptr_at_In Hinj _ Hs) in Hin'. congruence.
  - intros Hnot.
    assert (Hat : ptr_at (mStreamingSources sc)
                    (lower_bound (ptr_less source) (mStreamingSources sc)) source
                  = false).
    { destruct (ptr_at _ _ source) eqn:Hat; [|reflexivity].
      apply (ptr_at_In Hinj _ Hs) in Hat. contradiction. }
    unfold removeStream, removeStreamNoLock, addStream. simpl. rewrite Hat.
    assert (Hiter : lower_bound (ptr_less source)
                      (vec_insert (lower_bound (ptr_less source) (mStreamingSources sc))
                                  source (mStreamingSources sc))
                    = lower_bound (ptr_less source) (mStreamingSources sc)).
    { pose proof Hadd as Hadd'. unfold addStream in Hadd'. simpl in Hadd'.
      rewrite Hat in Hadd'.
      rewrite (lower_bound_used _ Hadd'), (lower_bound_used _ Hs).
      apply partition_point_insert. apply Z.ltb_irrefl. }
    rewrite Hiter. unfold ptr_at.
    rewrite nth_error_vec_insert by apply lower_bound_le_length.
    rewrite Z.eqb_refl. apply vec_erase_insert. apply lower_bound_le_length.
Qed.

(** X19. The sweep of the worker. One pass of the loop that updates the
    streaming sources and erases, in place, those whose update reports
    the end calls [updateAsync] exactly once on every source of the
    vector, in the order of the vector, and leaves exactly the sources
    whose update succeeded, in their order. *)
Theorem worker_sweep_is_a_filter
    (updateAsync : nat -> bool) (streams : list nat) (fuel : nat) :
  List.length streams <= fuel ->
  sweep_streams updateAsync fuel 0 streams = (filter updateAsync streams, streams).
Proof.
  intros Hfuel. apply (sweep_streams_filter updateAsync). lia.
Qed.

(** ** Extras on the current context of the process *)

Section CurrentContext.

Lemma ctx_eqb_eq (a b : option nat) : ctx_eqb a b = true <-> a = b.
Proof.
  destruct a as [x|], b as [y|]; simpl; split; intros H;
    try discriminate; try reflexivity.
  - apply Nat.eqb_eq in H. now subst.
  - inversion H. apply Nat.eqb_refl.
Qed.

Lemma holders_nonneg (f : nat -> option nat) (c : nat) (l : list nat) :
  (0 <= holders f c l)%Z.
Proof.
  induction l as [|t l IH]; simpl; [lia|].
  destruct (ctx_eqb (f t) (Some c)); lia.
Qed.

Lemma holders_In (f : nat -> option nat) (c t : nat) (l : list nat) :
  In t l -> f t = Some c -> (1 <= holders f c l)%Z.
Proof.
  induction l as [|x l IH]; simpl; intros Hin Hf; [contradiction|].
  pose proof (holders_nonneg f c l).
  destruct Hin as [->|Hin].
  - rewrite Hf. simpl. rewrite Nat.eqb_refl. lia.
  - specialize (IH Hin Hf). destruct (ctx_eqb (f x) (Some c)); lia.
Qed.

Lemma holders_upd_out (f : nat -> option nat) (t c : nat) (v : option nat)
    (l : list nat) :
  ~ In t l -> holders (upd f t v) c l = holders f c l.
Proof.
  induction l as [|x l IH]; simpl; intros Hnot; [reflexivity|].
  rewrite IH by tauto. unfold upd at 1.
  destruct (Nat.eqb_spec x t); [subst; tauto|reflexivity].
Qed.

Lemma holders_upd_in (f : nat -> option nat) (t c : nat) (v : option nat)
    (l : list nat) :
  NoDup l -> In t l ->
  holders (upd f t v) c l
  = (holders f c l - (if ctx_eqb (f t) (Some c) then 1 else 0)
     + (if ctx_eqb v (Some c) then 1 else 0))%Z.
Proof.
  induction 1 as [|x l Hx Hnd IH]; simpl; intros Hin; [contradiction|].
  destruct Hin as [->|Hin].
  - rewrite holders_upd_out by assumption. unfold upd at 1.
    rewrite Nat.eqb_refl. lia.
  - rewrite IH by assumption. unfold upd at 1.
    destruct (Nat.eqb_spec x t); [subst; contradiction|]. lia.
Qed.

Lemma holders_thread (f : nat -> option nat) (thread c N : nat)
    (v : option nat) :
  thread < N ->
  holders (upd f thread v) c (seq 0 N)
  = (holders f c (seq 0 N) - (if ctx_eqb (f thread) (Some c) then 1 else 0)
     + (if ctx_eqb v (Some c) then 1 else 0))%Z.
Proof.
  intros Hlt. apply holders_upd_in; [apply seq_NoDup|].
  apply in_seq. lia.
Qed.

Lemma MakeCurrent_fields (thread : nat) (context : option nat) (p : Process) :
  let '(result, p', trace) := MakeCurrent thread true context p in
  result = Done tt /\
  sCurrentCtx p' = context /\
  sThreadCurrentCtx p' = upd (sThreadCurrentCtx p) thread None /\
  (forall c, mRefs_of p' c
             = (mRefs_of p c
                + (if ctx_eqb context (Some c) then 1 else 0)
                - (if ctx_eqb (sCurrentCtx p) (Some c) then 1 else 0)
                - (if ctx_eqb (sThreadCurrentCtx p thread) (Some c) then 1 else 0))%Z) /\
  (forall c, mSetExts p' c = mSetExts p c || ctx_eqb context (Some c)) /\
  (forall c, count_setups c trace
             = if ctx_eqb context (Some c) && negb (mSetExts p c) then 1 else 0) /\
  notified trace
  = match context with
    | Some c => if ctx_eqb (Some c) (sCurrentCtx p) then [] else [c]
    | None => []
    end.
Proof.
  unfold MakeCurrent, call_once_setupExts, addRef, decRef, set_mRefs_of,
    set_sCurrentCtx, set_sThreadCurrentCtx. simpl.
  destruct context as [ctx|]; simpl;
    [destruct (mSetExts p ctx) eqn:Hflag; simpl|];
    destruct (sCurrentCtx p) as [old|]; simpl;
    destruct (sThreadCurrentCtx p thread) as [mine|]; simpl;
    (split; [reflexivity|]); (split; [reflexivity|]); (split; [reflexivity|]);
    (split; [intros c; unfold upd; simpl;
             repeat match goal with
                    | |- context [Nat.eqb ?a ?b] => destruct (Nat.eqb_spec a b)
                    end; subst; try congruence; lia|]);
    (split; [intros c; unfold upd; simpl;
             repeat match goal with
                    | |- context [Nat.eqb ?a ?b] => destruct (Nat.eqb_spec a b)
                    end; subst; try congruence;
             rewrite ?Hflag, ?orb_false_r, ?orb_true_r; reflexivity|]);
    (split; [intros c; unfold count_setups; simpl;
             repeat match goal with
                    | |- context [Nat.eqb ?a ?b] => destruct (Nat.eqb_spec a b)
                    end; subst; try congruence; rewrite ?Hflag; simpl; try reflexivity;
             destruct (mSetExts p c); reflexivity|]);
    try reflexivity;
    destruct (Nat.eqb ctx old); reflexivity.
Qed.

Lemma MakeThreadCurrent_fields (thread : nat) (context : option nat) (p : Process) :
  let '(result, p', trace) := MakeThreadCurrent thread (Some true) context p in
  result = Done tt /\
  sCurrentCtx p' = sCurrentCtx p /\
  sThreadCurrentCtx p' = upd (sThreadCurrentCtx p) thread context /\
  (forall c, mRefs_of p' c
             = (mRefs_of p c
                + (if ctx_eqb context (Some c) then 1 else 0)
                - (if ctx_eqb (sThreadCurrentCtx p thread) (Some c) then 1 else 0))%Z) /\
  (forall c, mSetExts p' c = mSetExts p c || ctx_eqb context (Some c)) /\
  (forall c, count_setups c trace
             = if ctx_eqb context (Some c) && negb (mSetExts p c) then 1 else 0) /\
  notified trace = [].
Proof.
  unfold MakeThreadCurrent, call_once_setupExts, addRef, decRef, set_mRefs_of,
    set_sThreadCurrentCtx. simpl.
  destruct context as [ctx|]; simpl;
    [destruct (mSetExts p ctx) eqn:Hflag; simpl|];
    destruct (sThreadCurrentCtx p thread) as [mine|]; simpl;
    (split; [reflexivity|]); (split; [reflexivity|]); (split; [reflexivity|]);
    (split; [intros c; unfold upd; simpl;
             repeat match goal with
                    | |- context [Nat.eqb ?a ?b] => destruct (Nat.eqb_spec a b)
                    end; subst; try congruence; lia|]);
    (split; [intros c; unfold upd; simpl;
             repeat match goal with
                    | |- context [Nat.eqb ?a ?b] => destruct (Nat.eqb_spec a b)
                    end; subst; try congruence;
             rewrite ?Hflag, ?orb_false_r, ?orb_true_r; reflexivity|]);
    (split; [intros c; unfold count_setups; simpl;
             repeat match goal with
                    | |- context [Nat.eqb ?a ?b] => destruct (Nat.eqb_spec a b)
                    end; subst; try congruence; rewrite ?Hflag; simpl; try reflexivity;
             destruct (mSetExts p c); reflexivity|]);
    reflexivity.
Qed.

(** What every call keeps: threads that made no call have no current
    context of their own, every reference of a context is a binding, and a
    context that is bound has had its extensions set up. *)
Lemma process_step (N : nat) (p : Process) (trace : list ProcessEvent)
    (op : ProcessOp) :
  op_thread op < N ->
  ((forall t, N <= t -> sThreadCurrentCtx p t = None) /\
   (forall c, mRefs_of p c
              = ((if ctx_eqb (sCurrentCtx p) (Some c) then 1 else 0)
                 + holders (sThreadCurrentCtx p) c (seq 0 N))%Z) /\
   (forall c, count_setups c trace = if mSetExts p c then 1 else 0) /\
   (forall c, sCurrentCtx p = Some c -> mSetExts p c = true) /\
   (forall t c, sThreadCurrentCtx p t = Some c -> mSetExts p c = true)) ->
  let p' := fst (run_process_op (p, trace) op) in
  let trace' := snd (run_process_op (p, trace) op) in
  (forall t, N <= t -> sThreadCurrentCtx p' t = None) /\
  (forall c, mRefs_of p' c
             = ((if ctx_eqb (sCurrentCtx p') (Some c) then 1 else 0)
                + holders (sThreadCurrentCtx p') c (seq 0 N))%Z) /\
  (forall c, count_setups c trace' = if mSetExts p' c then 1 else 0) /\
  (forall c, sCurrentCtx p' = Some c -> mSetExts p' c = true) /\
  (forall t c, sThreadCurrentCtx p' t = Some c -> mSetExts p' c = true).
Proof.
  intros Hlt (Hout & Hrefs & Hsetups & Hcur & Hthr).
  assert (Hcount : forall c e, count_setups c (trace ++ e)
                               = count_setups c trace + count_setups c e).
  { intros c e. unfold count_setups. now rewrite filter_app, length_app. }
  assert (Hsame : forall e, (forall c, count_setups c e = 0) ->
            (forall t, N <= t -> sThreadCurrentCtx p t = None) /\
            (forall c, mRefs_of p c
                       = ((if ctx_eqb (sCurrentCtx p) (Some c) then 1 else 0)
                          + holders (sThreadCurrentCtx p) c (seq 0 N))%Z) /\
            (forall c, count_setups c (trace ++ e) = if mSetExts p c then 1 else 0) /\
            (forall c, sCurrentCtx p = Some c -> mSetExts p c = true) /\
            (forall t c, sThreadCurrentCtx p t = Some c -> mSetExts p c = true)).
  { intros e He. repeat split; auto. intros c. rewrite Hcount, He, Hsetups. lia. }
  destruct op as [thread alc_ok context|thread stc context]; simpl in Hlt.
  - (* MakeCurrent *)
    destruct alc_ok; [|apply Hsame; intros c; reflexivity].
    unfold run_process_op.
    pose proof (MakeCurrent_fields thread context p) as Hf.
    destruct (MakeCurrent thread true context p) as [[result p'] e]. simpl.
    destruct Hf as (_ & Hc & Ht & Hr & Hs & Hn & _).
    split; [|split; [|split; [|split]]].
    + intros t Hge. rewrite Ht. unfold upd.
      destruct (Nat.eqb_spec t thread); [reflexivity|apply Hout; assumption].
    + intros c. rewrite Hr, Hc, Ht, holders_thread, Hrefs by assumption.
      simpl ctx_eqb.
      repeat match goal with
             | |- context [if ?b then _ else _] => destruct b
             end; lia.
    + intros c. rewrite Hcount, Hsetups, Hn, Hs.
      destruct (mSetExts p c), (ctx_eqb context (Some c)); reflexivity.
    + intros c Hc'. rewrite Hs, <- Hc, Hc'.
      unfold ctx_eqb. rewrite Nat.eqb_refl. apply orb_true_r.
    + intros t c. rewrite Ht, Hs. unfold upd.
      destruct (Nat.eqb_spec t thread); [discriminate|].
      intros Hb. now rewrite (Hthr t c Hb).
  - (* MakeThreadCurrent *)
    destruct stc as [[|]|];
      [|apply Hsame; intros c; reflexivity|apply Hsame; intros c; reflexivity].
    unfold run_process_op.
    pose proof (MakeThreadCurrent_fields thread context p) as Hf.
    destruct (MakeThreadCurrent thread (Some true) context p) as [[result p'] e].
    simpl. destruct Hf as (_ & Hc & Ht & Hr & Hs & Hn & _).
    split; [|split; [|split; [|split]]].
    + intros t Hge. rewrite Ht. unfold upd.
      destruct (Nat.eqb_spec t thread); [lia|apply Hout; assumption].
    + intros c. rewrite Hr, Hc, Ht, holders_thread, Hrefs by assumption.
      repeat match goal with
             | |- context [if ?b then _ else _] => destruct b
             end; lia.
    + intros c. rewrite Hcount, Hsetups, Hn, Hs.
      destruct (mSetExts p c), (ctx_eqb context (Some c)); reflexivity.
    + intros c Hc'. rewrite Hs. rewrite Hc in Hc'. now rewrite (Hcur c Hc').
    + intros t c. rewrite Ht, Hs. unfold upd.
      destruct (Nat.eqb_spec t thread).
      * intros ->. unfold ctx_eqb. rewrite Nat.eqb_refl. apply orb_true_r.
      * intros Hb. now rewrite (Hthr t c Hb).
Qed.

Lemma process_invariant (N : nat) (ops : list ProcessOp) :
  Forall (fun op => op_thread op < N) ops ->
  let p := fst (run_process_ops ops process_start) in
  let trace := snd (run_process_ops ops process_start) in
  (forall t, N <= t -> sThreadCurrentCtx p t = None) /\
  (forall c, mRefs_of p c
             = ((if ctx_eqb (sCurrentCtx p) (Some c) then 1 else 0)
                + holders (sThreadCurrentCtx p) c (seq 0 N))%Z) /\
  (forall c, count_setups c trace = if mSetExts p c then 1 else 0) /\
  (forall c, sCurrentCtx p = Some c -> mSetExts p c = true) /\
  (forall t c, sThreadCurrentCtx p t = Some c -> mSetExts p c = true).
Proof.
  intros Hops. unfold run_process_ops.
  assert (Hstart :
            (forall t, N <= t -> sThreadCurrentCtx process_start t = None) /\
            (forall c, mRefs_of process_start c
                       = ((if ctx_eqb (sCurrentCtx process_start) (Some c) then 1 else 0)
                          + holders (sThreadCurrentCtx process_start) c (seq 0 N))%Z) /\
            (forall c, count_setups c []
                       = if mSetExts process_start c then 1 else 0) /\
            (forall c, sCurrentCtx process_start = Some c ->
                       mSetExts process_start c = true) /\
            (forall t c, sThreadCurrentCtx process_start t = Some c ->
                         mSetExts process_start c = true)).
  { simpl. repeat split; try discriminate; auto.
    intros c. induction (seq 0 N) as [|x l IH]; simpl; [reflexivity|].
    rewrite <- IH. reflexivity. }
  revert Hstart. generalize process_start as p. generalize (@nil ProcessEvent) as trace.
  induction Hops as [|op ops Hop Hops IH]; intros trace p Hinv; [exact Hinv|].
  cbn [fold_left].
  pose proof (@process_step N p trace op Hop Hinv) as Hstep. cbv zeta in Hstep.
  destruct (run_process_op (p, trace) op) as [p' trace'].
  apply IH. exact Hstep.
Qed.
End CurrentContext.

(** X20. Reference counts count bindings. After any sequence of
    [MakeCurrent] and [MakeThreadCurrent] calls by any threads, successful
    or not, the reference count of every context is the number of its
    bindings: one if it is the current context of the process, plus one
    for every thread whose own current context it is. A thread that
    made no call has no current context of its own. *)
Theorem mRefs_counts_bindings (N : nat) (ops : list ProcessOp) (c : nat) :
  Forall (fun op => op_thread op < N) ops ->
  let p := fst (run_process_ops ops process_start) in
  mRefs_of p c
  = ((if ctx_eqb (sCurrentCtx p) (Some c) then 1 else 0)
     + holders (sThreadCurrentCtx p) c (seq 0 N))%Z /\
  (forall t, N <= t -> sThreadCurrentCtx p t = None).
Proof.
  intros Hops. destruct (process_invariant Hops) as (Hout & Hrefs & _).
  split; [apply Hrefs|exact Hout].
Qed.

(** X21. A bound context cannot be destroyed. After any sequence of
    [MakeCurrent] and [MakeThreadCurrent] calls, a context that is the
    current context of the process or of some thread has a positive
    reference count, so that [destroy] on it throws "Context is in use",
    changes nothing and calls nothing, whatever else the context holds. *)
Theorem bound_context_is_not_destroyed
    (N : nat) (ops : list ProcessOp) (c : nat) (ctx : ALContext) :
  Forall (fun op => op_thread op < N) ops ->
  let p := fst (run_process_ops ops process_start) in
  sCurrentCtx p = Some c \/ (exists t, sThreadCurrentCtx p t = Some c) ->
  mRefs ctx = mRefs_of p c ->
  (0 < mRefs ctx)%Z /\ destroy ctx = (Throws ContextInUse, ctx, []).
Proof.
  intros Hops p Hbound Hrefs.
  destruct (process_invariant Hops) as (Hout & Hcount & _).
  fold p in Hout, Hcount. specialize (Hcount c).
  pose proof (holders_nonneg (sThreadCurrentCtx p) c (seq 0 N)) as Hnn.
  assert (Hpos : (0 < mRefs ctx)%Z).
  { rewrite Hrefs, Hcount. destruct Hbound as [Hcur|[t Ht]].
    - rewrite Hcur. simpl. rewrite Nat.eqb_refl. lia.
    - assert (Hin : In t (seq 0 N)).
      { apply in_seq. destruct (Nat.lt_ge_cases t N) as [Hlt|Hge]; [lia|].
        rewrite (Hout t Hge) in Ht. discriminate. }
      pose proof (@holders_In (sThreadCurrentCtx p) c t (seq 0 N) Hin Ht).
      destruct (ctx_eqb (sCurrentCtx p) (Some c)); lia. }
  split; [exact Hpos|].
  unfold destroy, bind, get, throw.
  destruct (Z.eqb_spec (mRefs ctx) 0); [lia|reflexivity].
Qed.

(** X22. Extensions are set up once, and before use. Over any sequence
    of [MakeCurrent] and [MakeThreadCurrent] calls, [setupExts] runs at
    most once for a context: exactly once if its flag is set and never
    otherwise; and a context that is the current context of the process
    or of a thread has had it run. *)
Theorem setupExts_runs_once (N : nat) (ops : list ProcessOp) (c : nat) :
  Forall (fun op => op_thread op < N) ops ->
  let p := fst (run_process_ops ops process_start) in
  let trace := snd (run_process_ops ops process_start) in
  count_setups c trace <= 1 /\
  (count_setups c trace = 1 <-> mSetExts p c = true) /\
  (sCurrentCtx p = Some c \/ (exists t, sThreadCurrentCtx p t = Some c) ->
   count_setups c trace = 1).
Proof.
  intros Hops p trace.
  destruct (process_invariant Hops) as (_ & _ & Hsetups & Hcur & Hthr).
  fold p in Hsetups, Hcur, Hthr. fold trace in Hsetups.
  specialize (Hsetups c).
  split; [rewrite Hsetups; destruct (mSetExts p c); lia|].
  split.
  - rewrite Hsetups. destruct (mSetExts p c); split; intros; congruence.
  - intros [Hc|[t Ht]]; rewrite Hsetups.
    + now rewrite (Hcur c Hc).
    + now rewrite (Hthr t c Ht).
Qed.

(** X23. What one call of [MakeCurrent] does. A call that fails throws
    and leaves the process as it was. A call that succeeds makes
    [context] the current context of the process, clears the current
    context of the calling thread and of no other thread, and notifies
    the waiters of the new current context, and of no other, exactly when
    there is a new current context and it is not the old one. *)
Theorem MakeCurrent_effect
    (thread : nat) (alc_ok : bool) (context : option nat) (p : Process) :
  let '(result, p', trace) := MakeCurrent thread alc_ok context p in
  (alc_ok = false ->
   result = Raised MakeContextCurrentFailed /\ p' = p /\ notified trace = []) /\
  (alc_ok = true ->
   result = Done tt /\
   sCurrentCtx p' = context /\
   sThreadCurrentCtx p' thread = None /\
   (forall t, t <> thread -> sThreadCurrentCtx p' t = sThreadCurrentCtx p t) /\
   notified trace
   = match context with
     | Some c => if ctx_eqb (Some c) (sCurrentCtx p) then [] else [c]
     | None => []
     end).
Proof.
  destruct alc_ok.
  - pose proof (MakeCurrent_fields thread context p) as Hf.
    destruct (MakeCurrent thread true context p) as [[result p'] trace].
    destruct Hf as (Hres & Hc & Ht & _ & _ & _ & Hn).
    split; [discriminate|]. intros _.
    split; [assumption|]. split; [assumption|].
    split; [rewrite Ht; unfold upd; now rewrite Nat.eqb_refl|].
    split; [|assumption].
    intros t Hne. rewrite Ht. unfold upd.
    destruct (Nat.eqb_spec t thread); [contradiction|reflexivity].
  - simpl. split; [auto|discriminate].
Qed.

(** X24. What one call of [MakeThreadCurrent] does. Without the
    thread-context function of the driver the call throws "Thread-local
    contexts unsupported" before it calls anything; if the driver refuses,
    it throws after that one call; either way the process is as it was.
    A call that succeeds makes [context] the current context of the
    calling thread only: the current context of the process and of every
    other thread stay, and nobody is notified. *)
Theorem MakeThreadCurrent_effect
    (thread : nat) (SetThreadContext : option bool) (context : option nat)
    (p : Process) :
  let '(result, p', trace) := MakeThreadCurrent thread SetThreadContext context p in
  (SetThreadContext = None ->
   result = Raised ThreadContextUnsupported /\ p' = p /\ trace = []) /\
  (SetThreadContext = Some false ->
   result = Raised SetThreadContextFailed /\ p' = p /\
   trace = [PeSetThreadContext thread context]) /\
  (SetThreadContext = Some true ->
   result = Done tt /\
   sThreadCurrentCtx p' thread = context /\
   sCurrentCtx p' = sCurrentCtx p /\
   (forall t, t <> thread -> sThreadCurrentCtx p' t = sThreadCurrentCtx p t) /\
   notified trace = []).
Proof.
  destruct SetThreadContext as [[|]|].
  - pose proof (MakeThreadCurrent_fields thread context p) as Hf.
    destruct (MakeThreadCurrent thread (Some true) context p) as [[result p'] trace].
    destruct Hf as (Hres & Hc & Ht & _ & _ & _ & Hn).
    split; [discriminate|]. split; [discriminate|]. intros _.
    split; [assumption|].
    split; [rewrite Ht; unfold upd; now rewrite Nat.eqb_refl|].
    split; [assumption|]. split; [|assumption].
    intros t Hne. rewrite Ht. unfold upd.
    destruct (Nat.eqb_spec t thread); [contradiction|reflexivity].
  - simpl. split; [discriminate|]. split; [auto|discriminate].
  - simpl. split; [auto|]. split; discriminate.
Qed.

(** ** Extras on [update] *)

Section Disconnect.

Lemma count_disconnects_app (a b : list UpdateEvent) :
  count_disconnects (a ++ b) = count_disconnects a + count_disconnects b.
Proof. unfold count_disconnects. now rewrite filter_app, length_app. Qed.

Lemma count_queries_app (a b : list UpdateEvent) :
  count_queries (a ++ b) = count_queries a + count_queries b.
Proof. unfold count_queries. now rewrite filter_app, length_app. Qed.

Lemma count_disconnects_sources (l : list nat) :
  count_disconnects (map UeUpdateSource l) = 0.
Proof. induction l; simpl; auto. Qed.

Lemma count_queries_sources (l : list nat) :
  count_queries (map UeUpdateSource l) = 0.
Proof. induction l; simpl; auto. Qed.

(** One call of [update]: it asks the driver only while the context is
    taken to be connected, tells the handler only with the answer that
    ends that, and never takes a context to be connected again. *)
Lemma update_step (connected : Z) (cc : ConnectedContext) :
  let '(_, cc', trace) := update connected cc in
  EXT_disconnect cc' = EXT_disconnect cc /\
  (mIsConnected cc = false ->
   mIsConnected cc' = false /\ count_disconnects trace = 0 /\ count_queries trace = 0) /\
  count_disconnects trace <= 1 /\
  (count_disconnects trace = 1 -> mIsConnected cc' = false) /\
  (EXT_disconnect cc = false ->
   mIsConnected cc' = mIsConnected cc /\
   count_disconnects trace = 0 /\ count_queries trace = 0).
Proof.
  unfold update, CheckContext, bind, get, ret, throw. simpl.
  destruct (isCurrent (cc_context cc)); simpl;
    [|repeat split; intros; unfold count_disconnects, count_queries in *;
         simpl in *; auto; try congruence; try discriminate; lia].
  destruct (EXT_disconnect cc) eqn:Hext, (mIsConnected cc) eqn:Hconn; simpl;
    rewrite ?count_disconnects_app, ?count_queries_app,
            ?count_disconnects_sources, ?count_queries_sources;
    try (destruct (mWakeInterval cc =? 0)%Z; simpl;
         repeat split; intros; unfold count_disconnects, count_queries in *;
         simpl in *; auto; try congruence; try discriminate; lia).
  destruct (mWakeInterval cc =? 0)%Z, (connected =? 0)%Z,
           (non_null (mMessage (cc_context cc))); simpl;
    repeat split; intros; unfold count_disconnects, count_queries in *;
         simpl in *; auto; try congruence; try discriminate; lia.
Qed.

Lemma connected_step (st : ConnectedContext * list UpdateEvent) (op : ConnectedOp) :
  let st' := run_connected_op st op in
  EXT_disconnect (fst st') = EXT_disconnect (fst st) /\
  (mIsConnected (fst st) = false ->
   mIsConnected (fst st') = false /\
   count_disconnects (snd st') = count_disconnects (snd st) /\
   count_queries (snd st') = count_queries (snd st)) /\
  count_disconnects (snd st') <= count_disconnects (snd st) + 1 /\
  (count_disconnects (snd st') = count_disconnects (snd st) + 1 ->
   mIsConnected (fst st') = false) /\
  count_disconnects (snd st) <= count_disconnects (snd st') /\
  (EXT_disconnect (fst st) = false ->
   mIsConnected (fst st') = mIsConnected (fst st) /\
   count_disconnects (snd st') = count_disconnects (snd st) /\
   count_queries (snd st') = count_queries (snd st)).
Proof.
  destruct st as [cc trace]. destruct op as [connected|handler|msec]; simpl.
  - pose proof (update_step connected cc) as Hstep.
    destruct (update connected cc) as [[result cc'] t]. simpl.
    destruct Hstep as (Hext & Hoff & Hle & Hone & Hno).
    rewrite count_disconnects_app, count_queries_app.
    split; [assumption|]. split; [intros H; destruct (Hoff H) as (? & ? & ?); repeat split; auto; lia|].
    split; [lia|]. split; [intros H; apply Hone; lia|]. split; [lia|].
    intros H; destruct (Hno H) as (? & ? & ?). repeat split; auto; lia.
  - repeat split; auto; lia.
  - rewrite count_disconnects_app, count_queries_app.
    unfold count_disconnects, count_queries. simpl.
    repeat split; auto; lia.
Qed.

Lemma connected_run (ops : list ConnectedOp) :
  forall st : ConnectedContext * list UpdateEvent,
    let st' := fold_left run_connected_op ops st in
    EXT_disconnect (fst st') = EXT_disconnect (fst st) /\
    (mIsConnected (fst st) = false ->
     mIsConnected (fst st') = false /\
     count_disconnects (snd st') = count_disconnects (snd st) /\
     count_queries (snd st') = count_queries (snd st)) /\
    count_disconnects (snd st') <= count_disconnects (snd st) + 1 /\
    (count_disconnects (snd st') = count_disconnects (snd st) + 1 ->
     mIsConnected (fst st') = false) /\
    (EXT_disconnect (fst st) = false ->
     mIsConnected (fst st') = mIsConnected (fst st) /\
     count_disconnects (snd st') = count_disconnects (snd st) /\
     count_queries (snd st') = count_queries (snd st)).
Proof.
  induction ops as [|op ops IH]; intros st; simpl.
  - repeat split; auto; lia.
  - pose proof (connected_step st op) as Hstep. simpl in Hstep.
    specialize (IH (run_connected_op st op)). simpl in IH.
    destruct Hstep as (Hext & Hoff & Hle & Hone & Hmono & Hno).
    destruct IH as (Hext' & Hoff' & Hle' & Hone' & Hno').
    split; [congruence|].
    split.
    { intros H. destruct (Hoff H) as (H1 & H2 & H3).
      destruct (Hoff' H1) as (? & ? & ?). repeat split; auto; lia. }
    split.
    { destruct (Nat.eq_dec (count_disconnects (snd (run_connected_op st op)))
                           (count_disconnects (snd st))) as [Heq|Hne]; [lia|].
      assert (Hfalse : mIsConnected (fst (run_connected_op st op)) = false)
        by (apply Hone; lia).
      destruct (Hoff' Hfalse) as (_ & ? & _). lia. }
    split.
    { intros H.
      destruct (Nat.eq_dec (count_disconnects (snd (run_connected_op st op)))
                           (count_disconnects (snd st))) as [Heq|Hne].
      - apply Hone'. lia.
      - assert (Hfalse : mIsConnected (fst (run_connected_op st op)) = false)
          by (apply Hone; lia).
        destruct (Hoff' Hfalse) as (? & _ & _). assumption. }
    intros H. destruct (Hno H) as (H1 & H2 & H3).
    rewrite Hext in Hext'. destruct (Hno' (eq_trans Hext H)) as (? & ? & ?).
    repeat split; congruence.
Qed.
End Disconnect.

(** X25. The disconnection of the device is reported at most once. Over
    any sequence of [update], [setMessageHandler] and
    [setAsyncWakeInterval] calls, whatever the driver answers,
    [deviceDisconnected] is called at most once, and if it was called the
    context is taken to be disconnected. From a context that is taken to
    be disconnected on, the driver is not asked and no handler is told
    again, also not a handler that is set later; and a context without
    the disconnect extension never asks and never tells. *)
Theorem deviceDisconnected_at_most_once
    (ops : list ConnectedOp) (cc : ConnectedContext) :
  let cc' := fst (run_connected_ops ops cc) in
  let trace := snd (run_connected_ops ops cc) in
  count_disconnects trace <= 1 /\
  (count_disconnects trace = 1 -> mIsConnected cc' = false) /\
  (mIsConnected cc = false ->
   mIsConnected cc' = false /\ count_disconnects trace = 0 /\ count_queries trace = 0) /\
  (EXT_disconnect cc = false ->
   mIsConnected cc' = mIsConnected cc /\
   count_disconnects trace = 0 /\ count_queries trace = 0).
Proof.
  unfold run_connected_ops.
  destruct (connected_run ops (cc, [])) as (_ & Hoff & Hle & Hone & Hno).
  simpl in *. split; [lia|]. split; [intros H; apply Hone; lia|].
  split; assumption.
Qed.

(** ** Extras on [isSupported] *)

(** X26. Only supported formats are loaded. A buffer that [getBuffer] or
    [getBufferAsync] creates for a name that was not registered has a
    channel configuration and sample type for which [isSupported] answers
    true; the buffer has the name asked for and is in the registry
    afterwards. So where [isSupported] is false for the format of a file,
    neither call registers a buffer for it. *)
Theorem created_buffer_isSupported {P : Platform}
    (fuel : nat) (g : Globals) (w : Env) (name : string)
    (c c' : ALContext) (b : ALBuffer) (t : list Event) :
  buffer_at (mBuffers c) (lower_bound (hash_less name) (mBuffers c)) name = None ->
  getBuffer fuel g w name c = (Returns b, c', t) \/
  getBufferAsync fuel g w name c = (Returns b, c', t) ->
  isSupported (mChannelConfig b) (mSampleType b) = true /\
  getName b = name /\
  In b (mBuffers c').
Proof.
  intros Hat Hrun.
  assert (Hcur : isCurrent c = true).
  { destruct (isCurrent c) eqn:Hcur; [reflexivity|].
    destruct Hrun as [Hrun|Hrun]; revert Hrun;
      [unfold getBuffer|unfold getBufferAsync]; unfold_m; rewrite Hcur; simpl;
      discriminate. }
  pose proof (createDecoder_state fuel g name c) as Hstate.
  destruct (createDecoder fuel g name c) as [[[decoder|e|] c1] t1] eqn:Hdec;
    unfold state_after in Hstate; simpl in Hstate; subst c1.
  - destruct Hrun as [Hrun|Hrun].
    + rewrite (@getBuffer_absent_run P fuel g w name c decoder t1 Hcur Hat Hdec) in Hrun.
      destruct (dec_read decoder (dec_length decoder) =? 0)%Z; [discriminate|].
      destruct (GetFormat (dec_channels decoder) (dec_sampleType decoder) =? AL_NONE)%Z
        eqn:Hfmt; [discriminate|].
      destruct (upload_fails c w); [discriminate|].
      cbv zeta in Hrun. inversion Hrun; subst. simpl.
      split; [unfold isSupported; now rewrite Hfmt|]. split; [reflexivity|].
      apply In_vec_insert. left. reflexivity.
    + destruct (@getBufferAsync_rejects P fuel g w name c decoder t1 Hcur Hat Hdec) as (Hlen0 & Hfmt0 & Hgen0).
      destruct (Z.eq_dec (dec_length decoder) 0) as [Hlen|Hlen];
        [rewrite (Hlen0 Hlen) in Hrun; discriminate|].
      destruct (Z.eq_dec (GetFormat (dec_channels decoder) (dec_sampleType decoder))
                         AL_NONE) as [Hfmt|Hfmt];
        [rewrite (Hfmt0 Hlen Hfmt) in Hrun; discriminate|].
      destruct (al_gen w) as [bid|] eqn:Hgen;
        [|rewrite (Hgen0 Hlen Hfmt eq_refl) in Hrun; discriminate].
      rewrite (@getBufferAsync_absent_run P fuel g w name c decoder t1 bid Hcur Hat Hdec Hlen Hfmt Hgen) in Hrun.
      destruct (full_reads fuel w 0 <? fuel); [|discriminate].
      inversion Hrun; subst. simpl.
      split; [unfold isSupported; apply Z.eqb_neq in Hfmt; now rewrite Hfmt|].
      split; [reflexivity|].
      apply In_vec_insert. left. reflexivity.
  - destruct Hrun as [Hrun|Hrun].
    + rewrite (proj1 (@getBuffer_no_decoder P fuel g w name c c t1 Hcur Hat) e Hdec) in Hrun. discriminate.
    + rewrite (proj1 (@getBufferAsync_no_decoder P fuel g w name c c t1 Hcur Hat) e Hdec) in Hrun.
      discriminate.
  - destruct Hrun as [Hrun|Hrun].
    + rewrite (proj2 (@getBuffer_no_decoder P fuel g w name c c t1 Hcur Hat) Hdec) in Hrun. discriminate.
    + rewrite (proj2 (@getBufferAsync_no_decoder P fuel g w name c c t1 Hcur Hat) Hdec) in Hrun.
      discriminate.
Qed.

(** * The properties at concrete inputs *)

Local Open Scope string_scope.
Local Open Scope Z_scope.

(** ** C1 *)


(** ** C3 *)

Lemma registry_sorted_by_name_hash_witness :
  mBuffers example_context = [] /\
  registry_sorted (P := example_platform)
    (mBuffers (run_registry (P := example_platform) three_inserts example_context)) /\
  forall name,
    lower_bound (hash_less (P := example_platform) name)
      (mBuffers (run_registry (P := example_platform) three_inserts example_context))
    = partition_point (hash_less (P := example_platform) name)
        (mBuffers (run_registry (P := example_platform) three_inserts example_context)).
Proof.
  split; [reflexivity|].
  apply (registry_sorted_by_name_hash (P := example_platform)
           three_inserts example_context).
  reflexivity.
Defined.

(** With the FNV-1a hash the buffers "b", "a", "c" are enumerated as
    "a", "c", "b": in the order of their hashes, which is not the order of
    their names. *)
Lemma registry_not_in_name_order :
  map getName
      (mBuffers (run_registry (P := example_platform) three_inserts example_context))
  = ["a"; "c"; "b"]
  /\
  map getName
      (mBuffers (run_registry (P := example_platform) three_inserts example_context))
  <> ["a"; "b"; "c"]
  /\
  (fnv1a_64 "a" < fnv1a_64 "c" < fnv1a_64 "b")%Z.
Proof.
  split; [vm_compute; reflexivity|].
  split; [vm_compute; discriminate|].
  vm_compute. split; reflexivity.
Qed.

(** ** C4 *)



(** The hypothesis on the hashes cannot be dropped. "liquid" and
    "costarring" have the same 32-bit FNV-1a hash; once both are
    registered, the search for "liquid" ends on "costarring", the name is
    taken to be absent and a second entry "liquid" is inserted. *)
Remark colliding_hash_hides_registered_name :
  fnv1a_32 "liquid" = fnv1a_32 "costarring"
  /\
  map getName
      (mBuffers
         (run_registry (P := example_platform32)
            [OpGetBuffer 1 example_globals (example_env 1) "liquid";
             OpGetBuffer 1 example_globals (example_env 2) "costarring";
             OpGetBuffer 1 example_globals (example_env 3) "liquid"]
            example_context))
  = ["liquid"; "costarring"; "liquid"].
Proof. split; vm_compute; reflexivity. Qed.

(** ** C9 *)

Lemma failed_fetch_leaves_registry_witness :
  exists t0 t1,
    getBuffer (P := example_platform) 1 example_globals failing_env "b"
              (context_with ready_a)
    = (Throws FailedToBufferData, context_with ready_a,
       (t0 ++ EvAlGenBuffers 9 :: t1 ++ [EvAlDeleteBuffers 9])%list).
Proof.
  pose proof (failed_fetch_leaves_registry (P := example_platform) 1 example_globals
                failing_env "b" (context_with ready_a)) as [Hsync _].
  assert (Hrun : exists t,
             getBuffer (P := example_platform) 1 example_globals failing_env "b"
                       (context_with ready_a)
             = (Throws FailedToBufferData, context_with ready_a, t)).
  { eexists. vm_compute. reflexivity. }
  destruct Hrun as [t Hrun]. rewrite Hrun in Hsync.
  destruct Hsync as [_ Htrace].
  destruct (Htrace eq_refl) as (t0 & t1 & ->).
  exists t0, t1. exact Hrun.
Defined.

(** ** C7 *)

(** Two sources are created and the first one is released; the source
    released next is the second one, and [createSource] gives it back. *)
Lemma source_free_list_reuse_witness :
  (forall i j, addr (Platform := example_platform) i
               = addr (Platform := example_platform) j -> i = j) /\
  isCurrent example_context = true /\
  pool_ok (P := example_platform) example_context /\
  valid_source_ops (P := example_platform)
    [OpCreateSource; OpCreateSource; OpFreeSource 0] example_context /\
  exists c3,
    createSource (P := example_platform)
      (state_after
         (freeSource (P := example_platform) 1
            (run_sources (P := example_platform)
               [OpCreateSource; OpCreateSource; OpFreeSource 0] example_context)))
    = (Returns 1%nat, c3, []) /\
    List.length (mAllSources c3) = 2%nat.
Proof.
  assert (Hinj : forall i j, addr (Platform := example_platform) i
                             = addr (Platform := example_platform) j -> i = j).
  { intros i j H. change (64 * Z.of_nat i = 64 * Z.of_nat j) in H. lia. }
  assert (Hok : pool_ok (P := example_platform) example_context).
  { split; [constructor|]. split; intros p []. }
  assert (Hvalid : valid_source_ops (P := example_platform)
                     [OpCreateSource; OpCreateSource; OpFreeSource 0] example_context).
  { cbn [valid_source_ops]. repeat split. vm_compute. lia. }
  split; [exact Hinj|]. split; [reflexivity|]. split; [exact Hok|].
  split; [exact Hvalid|].
  destruct (@source_free_list_reuse example_platform
              [OpCreateSource; OpCreateSource; OpFreeSource 0] example_context 1%nat
              Hinj eq_refl Hok Hvalid) as (_ & _ & Hreuse).
  destruct Hreuse as (_ & c3 & Hrun & Hall & _).
  - vm_compute. lia.
  - exists c3. split; [exact Hrun|]. rewrite Hall. vm_compute. reflexivity.
Defined.

(** C7. A released source that is not reused. Two sources are created
    and released, source 0 first. The next [createSource] reads the back
    of the queue, source 1, and pops its front, source 0; the one after
    it returns source 1 again and empties the queue; the third finds the
    queue empty and allocates a third object. Source 0 was released and
    is never returned: it is in neither list afterwards. *)
Lemma released_source_is_not_reused :
  let released :=
    run_sources (P := example_platform)
      [OpCreateSource; OpCreateSource; OpFreeSource 0; OpFreeSource 1]
      example_context in
  let c1 := state_after (createSource (P := example_platform) released) in
  let c2 := state_after (createSource (P := example_platform) c1) in
  let c3 := state_after (createSource (P := example_platform) c2) in
  mFreeSources released = [0; 1]%nat /\
  mUsedSources released = [] /\
  List.length (mAllSources released) = 2%nat
  /\
  createSource (P := example_platform) released = (Returns 1%nat, c1, []) /\
  mFreeSources c1 = [1%nat] /\ mUsedSources c1 = [1%nat]
  /\
  createSource (P := example_platform) c1 = (Returns 1%nat, c2, []) /\
  mFreeSources c2 = [] /\ mUsedSources c2 = [1%nat]
  /\
  createSource (P := example_platform) c2 = (Returns 2%nat, c3, []) /\
  List.length (mAllSources c3) = 3%nat /\
  mUsedSources c3 = [1; 2]%nat /\ mFreeSources c3 = []
  /\
  ~ In 0%nat (mUsedSources c3) /\ ~ In 0%nat (mFreeSources c3).
Proof.
  vm_compute. repeat (split; [reflexivity|]).
  split; intuition discriminate.
Qed.

(** ** C2 *)

Lemma getSourceId_steals_lowest_witness :
  isCurrent full_pool_context = true /\
  mSourceIds full_pool_context = [] /\
  al_gen exhausted_env = None /\
  find_lowest full_pool_context = Some (1%nat, 1) /\
  getSourceId makeStopped_model exhausted_env 3 full_pool_context
  = (Returns 8,
     set_sources full_pool_context
       [{| src_id := 7; src_priority := 5 |}; {| src_id := 0; src_priority := 1 |}]
       [] [0%nat; 1%nat],
     [EvAlGenSources; EvSourceStopped 1 true]) /\
  getSourceId makeStopped_model exhausted_env 1 full_pool_context
  = (Throws NoAvailableSources, full_pool_context, [EvAlGenSources]).
Proof.
  do 4 (split; [reflexivity|]).
  destruct (getSourceId_steals_lowest makeStopped_model exhausted_env 3
              full_pool_context eq_refl eq_refl eq_refl) as (_ & Hsteal & _).
  destruct (getSourceId_steals_lowest makeStopped_model exhausted_env 1
              full_pool_context eq_refl eq_refl eq_refl) as (_ & Hkeep & _).
  change (find_lowest full_pool_context) with (Some (1%nat, 1)) in Hsteal, Hkeep.
  cbv beta iota in Hsteal, Hkeep.
  split.
  - rewrite (proj1 Hsteal eq_refl
               (state_after (makeStopped_model 1 full_pool_context)) []);
      reflexivity.
  - apply (proj2 Hkeep). discriminate.
Defined.

(** With no message handler installed, a request of priority 2 stops the
    source of priority 1 and takes its voice, and nothing is notified. *)
Lemma forced_stop_without_handler_is_silent :
  find_lowest busy_context = Some (0%nat, 1)
  /\
  makeStopped_model 0 busy_context
  = (Returns tt,
     set_sources (set_mSourceIds busy_context [7])
                 [{| src_id := 0; src_priority := 1 |}] [] [0%nat],
     [])
  /\
  getSourceId makeStopped_model exhausted_env 2 busy_context
  = (Returns 7,
     set_sources busy_context [{| src_id := 0; src_priority := 1 |}] [] [0%nat],
     [EvAlGenSources])
  /\
  ~ In (EvSourceStopped 0 true)
       (trace_of (getSourceId makeStopped_model exhausted_env 2 busy_context)).
Proof.
  split; [reflexivity|]. split; [reflexivity|]. split; [reflexivity|].
  vm_compute. intros [H|[]]. discriminate.
Qed.

(** ** C8 *)

Lemma destroy_guards_witness :
  mRefs context_with_worker = 0 /\
  mBuffers context_with_worker = [] /\
  mThread_joinable context_with_worker = true /\
  destroy context_with_worker
  = (Returns tt, set_mContext (set_thread context_with_worker false true) None,
     [EvQuitThread; EvNotifyAll; EvThreadJoin; EvAlcDestroyContext; EvRemoveContext]).
Proof.
  repeat (split; [reflexivity|]).
  destruct (destroy_guards context_with_worker) as (_ & _ & _ & _ & Hok).
  destruct (Hok eq_refl eq_refl) as [Hjoin _].
  exact (Hjoin eq_refl).
Defined.

(** A context that never started its worker is destroyed without the quit
    flag being set and without any wake-up or join. *)
Lemma destroy_without_worker_signals_nothing :
  mRefs example_context = 0 /\ mBuffers example_context = []
  /\
  destroy example_context
  = (Returns tt, set_mContext example_context None,
     [EvAlcDestroyContext; EvRemoveContext])
  /\
  mQuitThread (state_after (destroy example_context)) = false
  /\
  ~ In EvQuitThread (trace_of (destroy example_context))
  /\
  ~ In EvNotifyAll (trace_of (destroy example_context))
  /\
  ~ In EvThreadJoin (trace_of (destroy example_context)).
Proof.
  repeat (split; [reflexivity|]).
  repeat split; vm_compute; intros [H|[H|[]]]; discriminate.
Qed.

(** ** C5 *)

(** Three factories registered as "c", "a", "b", in that order; "a" and
    "b" reject a RIFF stream after reading four bytes and "c" accepts it.
    The decoder is the one of "c", tried third, after two rewinds. *)
Lemma GetDecoder_tries_in_map_order_witness :
  sDecoders example_globals = [] /\
  all_reject riff_stream
    [("a", magic_factory "OggS" decoder_A); ("b", magic_factory "fLaC" decoder_B)]
  = Some riff_stream /\
  GetDecoder (P := example_platform)
    (register_all [("c", magic_factory "RIFF" decoder_C);
                   ("a", magic_factory "OggS" decoder_A);
                   ("b", magic_factory "fLaC" decoder_B)] example_globals)
    "x.wav" riff_stream
  = (Returns decoder_C,
     [EvCreateDecoder "a" 0; EvRewind; EvCreateDecoder "b" 0; EvRewind;
      EvCreateDecoder "c" 0]).
Proof.
  split; [reflexivity|]. split; [reflexivity|].
  destruct (@GetDecoder_tries_in_map_order example_platform
              [("c", magic_factory "RIFF" decoder_C);
               ("a", magic_factory "OggS" decoder_A);
               ("b", magic_factory "fLaC" decoder_B)]
              example_globals "x.wav" riff_stream riff_stream
              [("a", magic_factory "OggS" decoder_A);
               ("b", magic_factory "fLaC" decoder_B)]
              (sDefaultDecoders (P := example_platform))
              "c" (magic_factory "RIFF" decoder_C)
              eq_refl eq_refl eq_refl) as (_ & _ & _ & _ & Haccept & _).
  destruct (Haccept decoder_C None eq_refl) as [Hrun _].
  exact Hrun.
Defined.

(** "b" is registered before "a" and both accept the stream: the decoder
    comes from "a", the factory registered last. *)
Lemma registration_order_is_not_followed :
  map fst (sDecoders (register_all [("b", magic_factory "RIFF" decoder_B);
                                    ("a", magic_factory "RIFF" decoder_A)]
                                   example_globals))
  = ["a"; "b"]
  /\
  GetDecoder (P := example_platform)
    (register_all [("b", magic_factory "RIFF" decoder_B);
                   ("a", magic_factory "RIFF" decoder_A)] example_globals)
    "x.wav" riff_stream
  = (Returns decoder_A, [EvCreateDecoder "a" 0])
  /\
  decoder_A <> decoder_B.
Proof.
  split; [reflexivity|]. split; [reflexivity|].
  intros H. apply (f_equal dec_length) in H. discriminate.
Qed.

(** ** C6 *)

Lemma loop_points_normalized_witness :
  0 <= 10 < 2 ^ 64 /\ 0 <= 500 < 2 ^ 64 /\ 0 < 100 < 2 ^ 32 /\
  normalize_loop_points (10, 500) 100 = (10, 100).
Proof.
  repeat (split; [lia|]).
  destruct (@loop_points_normalized 10 500 100)
    as (_ & _ & _ & _ & Hclamp); [lia|lia|lia|].
  exact Hclamp.
Defined.

(** ** C10 *)

Lemma FileIOFactory_get_never_null_witness :
  sFileFactory example_globals = None /\
  fst (FileIOFactory_set (Some (fun _ => None)) example_globals) = None /\
  FileIOFactory_get example_globals "x.wav" = Some riff_stream.
Proof.
  split; [reflexivity|].
  destruct (FileIOFactory_get_never_null example_globals (Some (fun _ => None)) "x.wav")
    as (_ & _ & _ & _ & _ & _ & Hdefault).
  destruct (Hdefault eq_refl) as [Hset Hget].
  split; [exact Hset|]. rewrite Hget. reflexivity.
Defined.

(** ** Insert, look up, remove *)

Lemma fetch_after_getBuffer_hits_witness :
  getBufferAsync (P := example_platform) 1 example_globals (example_env 2%Z) "a"
                 (context_with ready_a)
  = (Returns ready_a, context_with ready_a, [])
  /\
  getBuffer (P := example_platform) 2 example_globals (example_env 2%Z) "a"
            (context_with ready_a)
  = (Returns ready_a, context_with ready_a, []).
Proof.
  apply (@fetch_after_getBuffer_hits example_platform
           1%nat 1%nat example_globals example_globals
           (example_env 1%Z) (example_env 2%Z) "a"
           example_context (context_with ready_a) ready_a
           [EvCreateDecoder "_alure_int_wave" 0; EvAlGenBuffers 1;
            EvAlBufferData 1 4353 200 44100]).
  - constructor.
  - vm_compute. reflexivity.
Defined.

Lemma removeBuffer_undoes_getBuffer_witness :
  removeBuffer (P := example_platform) "a" (context_with ready_a)
  = (Returns tt, example_context, [EvCleanup (mId ready_a)]).
Proof.
  apply (@removeBuffer_undoes_getBuffer example_platform
           1%nat example_globals (example_env 1%Z) "a"
           example_context (context_with ready_a) ready_a
           [EvCreateDecoder "_alure_int_wave" 0; EvAlGenBuffers 1;
            EvAlBufferData 1 4353 200 44100]).
  - constructor.
  - vm_compute. reflexivity.
  - vm_compute. reflexivity.
Defined.

Lemma removeBuffer_missing_name_witness :
  removeBuffer (P := example_platform) "b" (context_with ready_a)
  = (Returns tt, context_with ready_a, []).
Proof.
  apply (@removeBuffer_missing_name example_platform "b" (context_with ready_a)).
  intros b [<-|[]]. vm_compute. discriminate.
Defined.

Lemma removeBuffer_removes_name_witness :
  exists c',
    removeBuffer (P := example_platform) "a" (context_with ready_a)
    = (Returns tt, c', [EvCleanup (mId ready_a)]) /\
    ~ In "a" (map getName (mBuffers c')) /\
    (forall x, In x (mBuffers (context_with ready_a)) -> x <> ready_a ->
               In x (mBuffers c')) /\
    S (List.length (mBuffers c')) = List.length (mBuffers (context_with ready_a)) /\
    registry_sorted (P := example_platform) (mBuffers c').
Proof.
  apply (@removeBuffer_removes_name example_platform "a" (context_with ready_a)
           ready_a).
  - reflexivity.
  - repeat constructor.
  - repeat constructor. intros [].
  - left. reflexivity.
  - reflexivity.
  - intros b [<-|[]] _. reflexivity.
Defined.

(** ** The calls of a load *)

Lemma getBuffer_call_sequence_witness :
  getBuffer (P := example_platform) 1 example_globals failing_env "a" example_context
  = (Throws FailedToBufferData, example_context,
     [EvCreateDecoder "_alure_int_wave" 0; EvAlGenBuffers 9;
      EvAlBufferData 9 4353 200 44100; EvAlDeleteBuffers 9])
  /\
  getBuffer (P := example_platform) 1 (globals_with_length (2 ^ 32))
            (example_env 1) "a" example_context
  = (Throws NoSamples, example_context, [EvCreateDecoder "long" 0]).
Proof.
  split.
  - destruct (@getBuffer_call_sequence example_platform
                1%nat example_globals failing_env "a" example_context
                (example_decoder 100 (0, 0))
                [EvCreateDecoder "_alure_int_wave" 0]) as (_ & _ & _ & _ & Hfail).
    + reflexivity.
    + vm_compute. reflexivity.
    + vm_compute. reflexivity.
    + vm_compute. discriminate.
    + rewrite Hfail; [|vm_compute; discriminate|vm_compute; reflexivity].
      vm_compute. reflexivity.
  - destruct (@getBuffer_call_sequence example_platform
                1%nat (globals_with_length (2 ^ 32)) (example_env 1) "a"
                example_context (example_decoder (2 ^ 32) (0, 0))
                [EvCreateDecoder "long" 0]) as (_ & Hzero & _).
    + reflexivity.
    + vm_compute. reflexivity.
    + vm_compute. reflexivity.
    + vm_compute. discriminate.
    + apply Hzero. vm_compute. reflexivity.
Defined.


(** A decoder of [2^32 + 5] frames queues a load of 5 frames, and one of
    [2^32] frames has no samples. *)
Remark length_is_truncated_to_32_bits :
  trace_of (getBufferAsync (P := example_platform) 1
              (globals_with_length (2 ^ 32 + 5)) (example_env 1%Z) "a"
              example_context)
  = [EvCreateDecoder "long" 0; EvAlGenBuffers 1; EvThreadStart;
     EvEnqueue {| pb_name := "a"; pb_buffer := 1;
                  pb_decoder := example_decoder (2 ^ 32 + 5) (0, 0);
                  pb_format := 4353; pb_frames := 5 |};
     EvNotifyAll]
  /\
  getBufferAsync (P := example_platform) 1 (globals_with_length (2 ^ 32))
                 (example_env 1%Z) "a" example_context
  = (Throws NoSamples, example_context, [EvCreateDecoder "long" 0])
  /\
  getBuffer (P := example_platform) 1 (globals_with_length (2 ^ 32 + 5))
            (example_env 1%Z) "a" example_context
  = (Returns ready_a, context_with ready_a,
     [EvCreateDecoder "long" 0; EvAlGenBuffers 1; EvAlBufferData 1 4353 10 44100]).
Proof.
  split; [vm_compute; reflexivity|]. split; vm_compute; reflexivity.
Qed.

Lemma getBufferAsync_waits_for_room_witness :
  count_yields
    (trace_of
       (getBufferAsync (P := example_platform) 5 example_globals
          {| al_gen := Some 1; al_data_ok := true; al_loop_ok := true;
             volatile_isLoaded := fun _ => true;
             write_space := fun k => if (k <? 2)%nat then 0 else 15 |}
          "a" example_context))
  = 2%nat
  /\
  getBufferAsync (P := example_platform) 5 (globals_with_length (2 ^ 32))
                 (example_env 1) "a" example_context
  = (Throws NoSamples, example_context, [EvCreateDecoder "long" 0]).
Proof.
  split.
  - destruct (@getBufferAsync_waits_for_room example_platform
                5%nat example_globals
                {| al_gen := Some 1; al_data_ok := true; al_loop_ok := true;
                   volatile_isLoaded := fun _ => true;
                   write_space := fun k => if (k <? 2)%nat then 0 else 15 |}
                "a" example_context (example_decoder 100 (0, 0))
                [EvCreateDecoder "_alure_int_wave" 0] 1 2%nat) as (_ & Hroom & _).
    + reflexivity.
    + vm_compute. reflexivity.
    + vm_compute. reflexivity.
    + vm_compute. discriminate.
    + reflexivity.
    + destruct Hroom as (b & c' & _ & Hcount).
      * vm_compute. discriminate.
      * intros i Hi. destruct i as [|[|i]]; [reflexivity|reflexivity|lia].
      * vm_compute. discriminate.
      * lia.
      * exact Hcount.
  - destruct (@getBufferAsync_waits_for_room example_platform
                5%nat (globals_with_length (2 ^ 32)) (example_env 1)
                "a" example_context (example_decoder (2 ^ 32) (0, 0))
                [EvCreateDecoder "long" 0] 1 0%nat) as (Hzero & _).
    + reflexivity.
    + vm_compute. reflexivity.
    + vm_compute. reflexivity.
    + vm_compute. discriminate.
    + reflexivity.
    + apply Hzero. vm_compute. reflexivity.
Defined.

(** ** The table of decoder factories *)

Lemma UnregisterDecoder_undoes_RegisterDecoder_witness :
  fst (RegisterDecoder "x" reject_factory example_globals) = Returns tt /\
  UnregisterDecoder "x" (snd (RegisterDecoder "x" reject_factory example_globals))
  = (Some reject_factory, example_globals) /\
  UnregisterDecoder "x" example_globals = (None, example_globals).
Proof.
  apply (@UnregisterDecoder_undoes_RegisterDecoder "x" reject_factory example_globals).
  reflexivity.
Defined.

Lemma RegisterDecoder_first_wins_witness :
  map_sorted
    (sDecoders (run_decoder_ops
                  [OpRegisterDecoder "b" reject_factory;
                   OpRegisterDecoder "a" reject_factory;
                   OpUnregisterDecoder "b"] example_globals)) /\
  RegisterDecoder "x" (magic_factory "RIFF" decoder_B)
    (snd (RegisterDecoder "x" (magic_factory "RIFF" decoder_A)
            (run_decoder_ops
               [OpRegisterDecoder "b" reject_factory;
                OpRegisterDecoder "a" reject_factory;
                OpUnregisterDecoder "b"] example_globals)))
  = (Throws (AlreadyRegistered "x"),
     snd (RegisterDecoder "x" (magic_factory "RIFF" decoder_A)
            (run_decoder_ops
               [OpRegisterDecoder "b" reject_factory;
                OpRegisterDecoder "a" reject_factory;
                OpUnregisterDecoder "b"] example_globals))).
Proof.
  destruct (@RegisterDecoder_first_wins "x" "a"
              (magic_factory "RIFF" decoder_A) (magic_factory "RIFF" decoder_B)
              example_globals
              [OpRegisterDecoder "b" reject_factory;
               OpRegisterDecoder "a" reject_factory;
               OpUnregisterDecoder "b"] eq_refl) as (Hsorted & _ & Hfirst).
  split; [exact Hsorted|].
  destruct Hfirst as (_ & _ & Hthrows); [vm_compute; reflexivity|].
  exact Hthrows.
Defined.

Lemma GetDecoder_all_reject_witness :
  fst (GetDecoder (P := example_platform) example_globals "a"
         {| is_data := "OggS...."; is_pos := 0; is_good := true; is_seekable := true |})
  = Throws (NoDecoderFor "a").
Proof.
  destruct (@GetDecoder_all_reject example_platform example_globals "a"
              {| is_data := "OggS...."; is_pos := 0; is_good := true;
                 is_seekable := true |}
              {| is_data := "OggS...."; is_pos := 0; is_good := true;
                 is_seekable := true |}) as (Hrun & _).
  - vm_compute. reflexivity.
  - rewrite Hrun. reflexivity.
Defined.

(** ** Sources *)

Lemma getSourceId_prefers_free_voice_witness :
  getSourceId (fun _ => ret tt) (example_env 7) 0 example_context
  = (Returns 7, example_context, [EvAlGenSources]).
Proof.
  apply (proj2 (@getSourceId_prefers_free_voice (fun _ => ret tt) (example_env 7) 0
                  example_context eq_refl) 7); reflexivity.
Defined.

Lemma createSource_returns_back_drops_front_witness :
  exists c',
    createSource (P := example_platform)
      (set_sources example_context [ALSource_new; ALSource_new] [0%nat; 1%nat] [])
    = (Returns 1%nat, c', []) /\
    mFreeSources c' = [1%nat] /\
    In 1%nat (mFreeSources c') /\
    In 1%nat (mUsedSources c') /\
    mAllSources c' = [ALSource_new; ALSource_new].
Proof.
  apply (@createSource_returns_back_drops_front example_platform
           (set_sources example_context [ALSource_new; ALSource_new]
                        [0%nat; 1%nat] [])
           0%nat 1%nat []).
  - intros i j H. change (64 * Z.of_nat i = 64 * Z.of_nat j) in H. lia.
  - reflexivity.
  - split; [constructor|]. split; [intros p []|].
    intros p [<-|[<-|[]]]; simpl; lia.
  - reflexivity.
Defined.

Lemma source_pool_invariants_witness :
  NoDup (mUsedSources
           (run_sources (P := example_platform)
              [OpCreateSource; OpCreateSource; OpFreeSource 0; OpCreateSource]
              example_context)) /\
  mBuffers (run_sources (P := example_platform)
              [OpCreateSource; OpCreateSource; OpFreeSource 0; OpCreateSource]
              example_context)
  = mBuffers example_context.
Proof.
  destruct (@source_pool_invariants example_platform
              [OpCreateSource; OpCreateSource; OpFreeSource 0; OpCreateSource]
              example_context) as (_ & Hnodup & _ & _ & Hbuffers & _).
  - split; [constructor|]. split; intros p [].
  - cbn [valid_source_ops]. repeat split. vm_compute. lia.
  - split; [exact Hnodup|exact Hbuffers].
Defined.

(** ** Source groups *)

Lemma getSourceGroup_after_createSourceGroup_witness :
  getSourceGroup "music" [{| sg_ptr := 1%nat; sg_name := "sfx" |}]
  = Raised SourceGroupNotFound /\
  getSourceGroup "music"
    (snd (createSourceGroup 2%nat "music" [{| sg_ptr := 1%nat; sg_name := "sfx" |}]))
  = Done {| sg_ptr := 2%nat; sg_name := "music" |} /\
  freeSourceGroup {| sg_ptr := 2%nat; sg_name := "music" |}
    (snd (createSourceGroup 2%nat "music" [{| sg_ptr := 1%nat; sg_name := "sfx" |}]))
  = [{| sg_ptr := 1%nat; sg_name := "sfx" |}].
Proof.
  destruct (@getSourceGroup_after_createSourceGroup 2%nat 3%nat "music" "sfx"
              [{| sg_ptr := 1%nat; sg_name := "sfx" |}])
    as (Hmissing & _ & Hfound & _ & Hfree & _).
  - repeat constructor.
  - intros gp [<-|[]]. simpl. discriminate.
  - split; [exact Hmissing|]. split; [exact Hfound|exact Hfree].
Defined.

(** ** Streaming sources *)

Lemma streaming_set_operations_witness :
  NoDup (mStreamingSources
           (run_stream_ops (P := example_platform)
              [OpAddStream 2%nat; OpAddStream 1%nat; OpAddStream 2%nat;
               OpSweep (fun s => Nat.eqb s 1)]
              {| sc_context := example_context; mStreamingSources := [] |})) /\
  In 3%nat
     (mStreamingSources
        (fst (addStream (P := example_platform) 3%nat
                (run_stream_ops (P := example_platform)
                   [OpAddStream 2%nat; OpAddStream 1%nat; OpAddStream 2%nat;
                    OpSweep (fun s => Nat.eqb s 1)]
                   {| sc_context := example_context; mStreamingSources := [] |})))).
Proof.
  destruct (@streaming_set_operations example_platform
              [OpAddStream 2%nat; OpAddStream 1%nat; OpAddStream 2%nat;
               OpSweep (fun s => Nat.eqb s 1)]
              {| sc_context := example_context; mStreamingSources := [] |} 3%nat)
    as (_ & Hnodup & Hin & _).
  - intros i j H. change (64 * Z.of_nat i = 64 * Z.of_nat j) in H. lia.
  - constructor.
  - split; [exact Hnodup|exact Hin].
Defined.

Lemma worker_sweep_is_a_filter_witness :
  sweep_streams Nat.even 4 0 [0%nat; 1%nat; 2%nat; 3%nat]
  = ([0%nat; 2%nat], [0%nat; 1%nat; 2%nat; 3%nat]).
Proof.
  apply (@worker_sweep_is_a_filter Nat.even [0%nat; 1%nat; 2%nat; 3%nat] 4%nat).
  simpl. lia.
Defined.

(** ** The current context *)

(** Thread 0 makes context 0 current, thread 1 makes it its own current
    context and then makes context 1 the current context of the process:
    context 0 is left without a binding and context 1 has one. *)
Lemma mRefs_counts_bindings_witness :
  mRefs_of
    (fst (run_process_ops
            [OpMakeCurrent 0 true (Some 0%nat);
             OpMakeThreadCurrent 1 (Some true) (Some 0%nat);
             OpMakeCurrent 1 true (Some 1%nat)] process_start)) 1%nat
  = 1 + holders
          (sThreadCurrentCtx
             (fst (run_process_ops
                     [OpMakeCurrent 0 true (Some 0%nat);
                      OpMakeThreadCurrent 1 (Some true) (Some 0%nat);
                      OpMakeCurrent 1 true (Some 1%nat)] process_start)))
          1%nat (seq 0 2).
Proof.
  apply (@mRefs_counts_bindings 2%nat
           [OpMakeCurrent 0 true (Some 0%nat);
            OpMakeThreadCurrent 1 (Some true) (Some 0%nat);
            OpMakeCurrent 1 true (Some 1%nat)] 1%nat).
  repeat constructor.
Defined.

Lemma bound_context_is_not_destroyed_witness :
  destroy
    {| mContext := Some 1; mRefs := 1; mBuffers := [];
       mMessage := None; SOFT_loop_points := false;
       mSourceIds := []; mAllSources := []; mFreeSources := []; mUsedSources := [];
       mThread_joinable := true; mQuitThread := false; isCurrent := true |}
  = (Throws ContextInUse,
     {| mContext := Some 1; mRefs := 1; mBuffers := [];
        mMessage := None; SOFT_loop_points := false;
        mSourceIds := []; mAllSources := []; mFreeSources := []; mUsedSources := [];
        mThread_joinable := true; mQuitThread := false; isCurrent := true |},
     []).
Proof.
  apply (@bound_context_is_not_destroyed 2%nat
           [OpMakeCurrent 0 true (Some 0%nat);
            OpMakeThreadCurrent 1 (Some true) (Some 0%nat);
            OpMakeCurrent 1 true (Some 1%nat)] 1%nat).
  - repeat constructor.
  - left. reflexivity.
  - reflexivity.
Defined.

Lemma setupExts_runs_once_witness :
  count_setups 0
    (snd (run_process_ops
            [OpMakeCurrent 0 true (Some 0%nat);
             OpMakeThreadCurrent 1 (Some true) (Some 0%nat);
             OpMakeCurrent 1 true (Some 1%nat);
             OpMakeCurrent 0 true (Some 0%nat)] process_start))
  = 1%nat.
Proof.
  apply (@setupExts_runs_once 2%nat
           [OpMakeCurrent 0 true (Some 0%nat);
            OpMakeThreadCurrent 1 (Some true) (Some 0%nat);
            OpMakeCurrent 1 true (Some 1%nat);
            OpMakeCurrent 0 true (Some 0%nat)] 0%nat).
  - repeat constructor.
  - left. reflexivity.
Defined.

(** ** Supported formats *)

Lemma created_buffer_isSupported_witness :
  isSupported (P := example_platform) (mChannelConfig ready_a) (mSampleType ready_a)
  = true /\
  getName ready_a = "a" /\
  In ready_a (mBuffers (context_with ready_a)).
Proof.
  apply (@created_buffer_isSupported example_platform
           1%nat example_globals (example_env 1%Z) "a"
           example_context (context_with ready_a) ready_a
           [EvCreateDecoder "_alure_int_wave" 0; EvAlGenBuffers 1;
            EvAlBufferData 1 4353 200 44100]).
  - vm_compute. reflexivity.
  - left. vm_compute. reflexivity.
Defined.
